(** * Code Archaeologist front end: a shallow embedding and its properties

    The development follows the React sources of the repository:

    - [App.jsx]: [validateRepoFormat] and [analyzeRepo];
    - [components/DependencyGraph.jsx]: [getFileExtension], the
      [processedData] computation and the two selection views;
    - [components/FileTree.jsx] and [components/Report.jsx]: the two
      [countFiles] functions;
    - [components/AIDetection.jsx]: the defaults and the rendering skeleton.

    JavaScript strings are sequences of UTF-16 code units, and the regular
    expressions of the sources (none has the [u] flag) work on code units, so
    a string is a [list N] here.  Objects used as dictionaries are finite
    maps; where the keys come from the payload ([nodeMap] and
    [connectionCounts]) the members inherited from [Object.prototype] are
    part of the model.  Counters are natural numbers, the numbers of a
    payload are doubles, and a computation that can throw returns an
    [option]. *)

From Stdlib Require Import ZArith NArith Ascii Lia Permutation.
From Stdlib Require Import Floats.PrimFloat Numbers.Cyclic.Int63.Uint63.
From stdpp Require Import gmap list fin_maps strings pretty.

Set Default Proof Using "Type".
Set Warnings "-register-all".

(* ===================================================================== *)
(** * Strings *)
(* ===================================================================== *)

Definition jsstring := list N.

(** A string literal of the source, as code units. *)
Definition lit (s : string) : jsstring :=
  map N_of_ascii (String.list_ascii_of_string s).

Definition chr (a : ascii) : N := N_of_ascii a.

(** ECMAScript [WhiteSpace] and [LineTerminator] code units, the ones
    [String.prototype.trim] removes. *)
Definition is_ws (c : N) : bool :=
  ((9 <=? c) && (c <=? 13) || (c =? 32) || (c =? 160) || (c =? 5760)
   || (8192 <=? c) && (c <=? 8202) || (c =? 8232) || (c =? 8233)
   || (c =? 8239) || (c =? 8287) || (c =? 12288) || (c =? 65279))%N.

Fixpoint trimStart (s : jsstring) : jsstring :=
  match s with
  | c :: t => if is_ws c then trimStart t else s
  | [] => []
  end.

Definition trimEnd (s : jsstring) : jsstring := rev (trimStart (rev s)).

Definition trim (s : jsstring) : jsstring := trimEnd (trimStart s).

(** The string is empty or begins with something else than a blank. *)
Definition starts_clean (s : jsstring) : Prop :=
  match s with
  | c :: _ => is_ws c = false
  | [] => True
  end.

(** [s.split(sep)] for a one-unit separator. *)
Fixpoint split_on (sep : N) (s : jsstring) : list jsstring :=
  match s with
  | [] => [[]]
  | c :: t =>
      if (c =? sep)%N then [] :: split_on sep t
      else match split_on sep t with
           | seg :: segs => (c :: seg) :: segs
           | [] => [[c]]
           end
  end.

(* ===================================================================== *)
(** * Regular expressions *)
(* ===================================================================== *)

(** The fragment of the regular-expression language the sources use:
    literals, character classes, concatenation, [?] and [+].  A pattern
    anchored by [^] and [$] (no [m] flag) accepts exactly the strings of its
    language, which the derivative matcher below decides. *)
Module Regex.

Inductive regex : Type :=
| Void : regex
| Eps : regex
| Class : (N → bool) → regex
| Cat : regex → regex → regex
| Alt : regex → regex → regex
| Star : regex → regex.

Definition Chr (c : N) : regex := Class (N.eqb c).
Definition Opt (r : regex) : regex := Alt r Eps.
Definition Plus (r : regex) : regex := Cat r (Star r).

Fixpoint Str (l : jsstring) : regex :=
  match l with
  | [] => Eps
  | c :: t => Cat (Chr c) (Str t)
  end.

Fixpoint nullable (r : regex) : bool :=
  match r with
  | Void => false
  | Eps => true
  | Class _ => false
  | Cat a b => nullable a && nullable b
  | Alt a b => nullable a || nullable b
  | Star _ => true
  end.

Fixpoint deriv (c : N) (r : regex) : regex :=
  match r with
  | Void => Void
  | Eps => Void
  | Class p => if p c then Eps else Void
  | Cat a b =>
      if nullable a then Alt (Cat (deriv c a) b) (deriv c b)
      else Cat (deriv c a) b
  | Alt a b => Alt (deriv c a) (deriv c b)
  | Star a => Cat (deriv c a) (Star a)
  end.

(** [/^r$/.test(s)] *)
Fixpoint matches (r : regex) (s : jsstring) : bool :=
  match s with
  | [] => nullable r
  | c :: t => matches (deriv c r) t
  end.

(** [s.match(/r$/)]: the leftmost position from which the rest of the
    string is in the language of [r]; the match is that suffix. *)
Fixpoint match_suffix (r : regex) (s : jsstring) : option jsstring :=
  if matches r s then Some s
  else match s with
       | [] => None
       | _ :: t => match_suffix r t
       end.

(** The language of a pattern. *)
Inductive Lang : regex → jsstring → Prop :=
| LEps : Lang Eps []
| LClass p c : p c = true → Lang (Class p) [c]
| LCat a b s1 s2 : Lang a s1 → Lang b s2 → Lang (Cat a b) (s1 ++ s2)
| LAltL a b s : Lang a s → Lang (Alt a b) s
| LAltR a b s : Lang b s → Lang (Alt a b) s
| LStarNil a : Lang (Star a) []
| LStarApp a s1 s2 : Lang a s1 → Lang (Star a) s2 → Lang (Star a) (s1 ++ s2).

End Regex.

(* ===================================================================== *)
(** * App.jsx: URL validation and the analysis request *)
(* ===================================================================== *)

Module App.
Import Regex.

Definition in_range (lo hi : ascii) (c : N) : bool :=
  ((chr lo <=? c) && (c <=? chr hi))%N.

Definition alnum (c : N) : bool :=
  in_range "a" "z" c || in_range "A" "Z" c || in_range "0" "9" c.

(** [[a-zA-Z0-9_-]] *)
Definition ownerClass (c : N) : bool :=
  alnum c || (c =? chr "_")%N || (c =? chr "-")%N.

(** [[a-zA-Z0-9_.-]] *)
Definition repoClass (c : N) : bool :=
  alnum c || (c =? chr "_")%N || (c =? chr ".")%N || (c =? chr "-")%N.

(** [/^https?:\/\/github\.com\/[a-zA-Z0-9_-]+\/[a-zA-Z0-9_.-]+(\.git)?$/] *)
Definition fullUrlPattern : regex :=
  Cat (Str (lit "http"))
 (Cat (Opt (Chr (chr "s")))
 (Cat (Str (lit "://github.com/"))
 (Cat (Plus (Class ownerClass))
 (Cat (Chr (chr "/"))
 (Cat (Plus (Class repoClass))
      (Opt (Str (lit ".git")))))))).

Definition validateRepoFormat (url : jsstring) : bool :=
  let trimmed := trim url in
  matches fullUrlPattern trimmed.

Inductive step : Type := clone | analyze | docs.

(** What reading [errorData.detail] of a parsed body gives: a [TypeError]
    when the body is [null] (with the engine's message), a falsy value, or
    a truthy one, of which only the string [new Error] makes of it
    matters. *)
Inductive errorDetail : Type :=
| DetailThrows (message : jsstring)
| DetailFalsy
| DetailTruthy (text : jsstring).

(** What the POST to [/analyze] comes back with.  [FetchRejected] is a
    rejected [fetch] promise (its [err.message]); otherwise an HTTP
    response whose body parses as JSON ([inr]) or does not ([inl], the
    parser's message).  Of a parsed body, [detail] is what the error path
    reads and [payload] the value itself, which the success path stores. *)
Record body (A : Type) : Type := Body {
  detail : errorDetail;
  payload : A
}.
Arguments Body {A} _ _.
Arguments detail {A} _.
Arguments payload {A} _.

Inductive response (A : Type) : Type :=
| FetchRejected (message : jsstring)
| HttpResponse (ok : bool) (statusText : jsstring)
               (json : jsstring + body A).
Arguments FetchRejected {A} _.
Arguments HttpResponse {A} _ _ _.

(** The effects [analyzeRepo] has on the outside. *)
Inductive event : Type :=
| Sleep (ms : nat)
| Post (endpoint : jsstring) (repo : jsstring).

(** The React state [analyzeRepo] reads and sets. *)
Record state (A : Type) : Type := State {
  repoUrl : jsstring;
  isAnalyzing : bool;
  completedSteps : list step;
  analysisData : option A;
  error : option jsstring;
  currentStep : option step
}.
Arguments State {A} _ _ _ _ _ _.
Arguments repoUrl {A} _.
Arguments isAnalyzing {A} _.
Arguments completedSteps {A} _.
Arguments analysisData {A} _.
Arguments error {A} _.
Arguments currentStep {A} _.

Section AnalyzeRepo.
Context {A : Type}.

Definition setError (e : option jsstring) (st : state A) : state A :=
  State (repoUrl st) (isAnalyzing st) (completedSteps st)
        (analysisData st) e (currentStep st).
Definition setIsAnalyzing (b : bool) (st : state A) : state A :=
  State (repoUrl st) b (completedSteps st)
        (analysisData st) (error st) (currentStep st).
Definition setCompletedSteps (l : list step) (st : state A) : state A :=
  State (repoUrl st) (isAnalyzing st) l
        (analysisData st) (error st) (currentStep st).
Definition setAnalysisData (d : option A) (st : state A) : state A :=
  State (repoUrl st) (isAnalyzing st) (completedSteps st)
        d (error st) (currentStep st).
Definition setCurrentStep (s : option step) (st : state A) : state A :=
  State (repoUrl st) (isAnalyzing st) (completedSteps st)
        (analysisData st) (error st) s.

(** [x || fallback] on a message. *)
Definition or_message (m fallback : jsstring) : jsstring :=
  match m with [] => fallback | _ => m end.

(** The [catch] block. *)
Definition on_error (message : jsstring) (st : state A) : state A :=
  setCurrentStep None
    (setCompletedSteps []
       (setError
          (Some (or_message message
                   (lit "Failed to analyze repository. Please try again.")))
          st)).

(** The part of the [try] block after the response has arrived. *)
Definition on_response (r : response A) (st : state A) : state A :=
  match r with
  | FetchRejected message => on_error message st
  | HttpResponse false statusText json =>
      (* [response.json().catch(() => ({}))] *)
      let errorData_detail :=
        match json with
        | inr b => detail b
        | inl _ => DetailFalsy
        end in
      (* [new Error(errorData.detail || `Analysis failed: ...`)], or the
         [TypeError] of reading [detail]; either way the [catch] block
         gets the message *)
      let message :=
        match errorData_detail with
        | DetailThrows message => message
        | DetailTruthy text => text
        | DetailFalsy => lit "Analysis failed: " ++ statusText
        end in
      on_error message st
  | HttpResponse true _ (inl message) => on_error message st
  | HttpResponse true _ (inr b) =>
      setCurrentStep None
        (setCompletedSteps [clone; analyze; docs]
           (setAnalysisData (Some (payload b)) st))
  end.

(** [analyzeRepo]: the state once the promise has settled, and the
    effects in the order they happened.  [respond] is the network's
    answer to the request body sent. *)
Definition analyzeRepo (respond : jsstring → response A) (st : state A)
  : state A * list event :=
  let trimmedUrl := trim (repoUrl st) in
  match trimmedUrl with
  | [] =>
      (setError (Some (lit "Please enter a GitHub repository URL")) st, [])
  | _ =>
      if negb (validateRepoFormat trimmedUrl) then
        (setError
           (Some (lit
              "Invalid URL format. Example: https://github.com/username/repo.git"))
           st, [])
      else
        let st := setAnalysisData None
                    (setError None
                       (setCompletedSteps [] (setIsAnalyzing true st))) in
        let st := setCurrentStep (Some clone) st in
        let st := setCompletedSteps [clone] st in
        let st := setCurrentStep (Some analyze) st in
        let st := setCompletedSteps [clone; analyze] st in
        let st := setCurrentStep (Some docs) st in
        let st := on_response (respond trimmedUrl) st in
        (setIsAnalyzing false st,
         [Sleep 2000; Sleep 2500;
          Post (lit "http://localhost:8000/analyze") trimmedUrl])
  end.
End AnalyzeRepo.

(** ** Vocabulary for the statements about URLs *)

(** The ['/']-separated pieces of a URL: for [scheme://host/owner/repo]
    they are [scheme:], the empty string, the host, and the path
    components. *)
Definition segments (url : jsstring) : list jsstring :=
  split_on (chr "/") url.

Definition host (url : jsstring) : option jsstring := segments url !! 2.

Definition path_components (url : jsstring) : list jsstring :=
  drop 3 (segments url).


(** The code units the pattern lets through: letters, digits and
    [_ . - : /]. *)
Definition url_unit (c : N) : bool :=
  repoClass c || (c =? chr ":")%N || (c =? chr "/")%N.

(** Code units a shell gives a meaning to: the operators and quotes
    [; & | $ ` ( ) < > \ ' * ? [ ] { } ! # ~], the double quote (34) and
    blanks (space, tab, line feed, carriage return). *)
Definition shell_metacharacters : list N :=
  lit ";&|$`()<>\'*?[]{}!#~" ++ [34; 32; 9; 10; 13]%N.

Definition is_shell_metacharacter (c : N) : bool :=
  bool_decide (c ∈ shell_metacharacters).

Definition has_shell_metacharacter (url : jsstring) : bool :=
  existsb is_shell_metacharacter url.

(** ['..'] is one of the path components. *)
Definition has_traversal_component (url : jsstring) : bool :=
  bool_decide (lit ".." ∈ path_components url).

(** ['..'] is a path component other than the second one: the owner, or
    anything that follows the repository. *)
Definition has_traversal_outside_repository (url : jsstring) : bool :=
  bool_decide
    (lit ".." ∈ take 1 (path_components url) ++ drop 2 (path_components url)).

End App.

(* ===================================================================== *)
(** * components/DependencyGraph.jsx *)
(* ===================================================================== *)

Module DependencyGraph.
Import Regex.

(** ** The [dependencies] payload *)

(** A node of the backend format.  [id] is the property key the node is
    filed under in [nodeMap]; [path], [name] and [type] may be absent. *)
Record rawNode : Type := RawNode {
  node_id : jsstring;
  node_path : option jsstring;
  node_name : option jsstring;
  node_type : option jsstring
}.

Record rawEdge : Type := RawEdge {
  source : jsstring;
  target : jsstring
}.

(** A property value of the legacy format: an array of import names, or
    anything that is not an array. *)
Inductive legacyValue : Type :=
| LImports (imports : list jsstring)
| LOther.

(** [data]: nothing ([null], [undefined], a number or a boolean); an
    object whose [nodes] is an array of node objects, with [edges] an array
    or not; or an object given by its entries, in [Object.entries] order. *)
Inductive depsData : Type :=
| DNone
| DBackend (nodes : list rawNode) (edges : option (list rawEdge))
| DLegacy (entries : list (jsstring * legacyValue)).

(** ** Plain objects *)

(** [nodeMap] and [connectionCounts] are object literals: a key that names
    a member of [Object.prototype] and has not been assigned reads as that
    member, and an assignment to ['__proto__'] of a value that is neither an
    object nor [null] does nothing. *)
Definition prototype_members : list jsstring :=
  [lit "constructor"; lit "__defineGetter__"; lit "__defineSetter__";
   lit "hasOwnProperty"; lit "__lookupGetter__"; lit "__lookupSetter__";
   lit "isPrototypeOf"; lit "propertyIsEnumerable"; lit "toString";
   lit "valueOf"; lit "__proto__"; lit "toLocaleString"].

Definition inherited (k : jsstring) : bool :=
  bool_decide (k ∈ prototype_members).

(** The member named [k] as a string: [Object.prototype] itself for
    ['__proto__'], a native function otherwise (written the way V8 and
    JavaScriptCore write one). *)
Definition member_text (k : jsstring) : jsstring :=
  if bool_decide (k = lit "__proto__") then lit "[object Object]"
  else lit "function "
       ++ (if bool_decide (k = lit "constructor") then lit "Object" else k)
       ++ lit "() { [native code] }".

(** ** The processed graph *)

(** What [nodeMap] hands out, and so what an edge end or an import can be:
    a string or [undefined], as the [file] of a node is, or a member of
    [Object.prototype]. *)
Inductive endpoint : Type :=
| Own (f : option jsstring)
| Inherited (k : jsstring).

Record node : Type := Node {
  file : option jsstring;
  imports : list endpoint;
  id : option jsstring;
  type : option jsstring
}.

Record edge : Type := Edge {
  from : endpoint;
  to : endpoint
}.

(** A value of [connectionCounts]: a number; the string that adding a
    number to a prototype member yields; or, when read and not stored, such
    a member. *)
Inductive count : Type :=
| Num (n : nat)
| Text (s : jsstring)
| Member (k : jsstring).

Record processed : Type := Processed {
  nodes : list node;
  edges : list edge;
  connectionCounts : gmap jsstring count;
  byType : gmap jsstring nat
}.

#[export] Instance endpoint_eq_dec : EqDecision endpoint.
Proof. solve_decision. Defined.
#[export] Instance count_eq_dec : EqDecision count.
Proof. solve_decision. Defined.
#[export] Instance node_eq_dec : EqDecision node.
Proof. solve_decision. Defined.
#[export] Instance edge_eq_dec : EqDecision edge.
Proof. solve_decision. Defined.

(** ** Helpers of the source *)

(** [/\.[^.]+$/] *)
Definition extensionPattern : regex :=
  Cat (Chr (chr ".")) (Plus (Class (λ c, negb (c =? chr ".")%N))).

Definition getFileExtension (path : jsstring) : jsstring :=
  match match_suffix extensionPattern path with
  | Some m => m
  | None => []
  end.

(** [getFileExtension] applied to a value that may be [undefined]:
    [undefined.match] is a [TypeError]. *)
Definition getFileExtension_of (path : option jsstring) : option jsstring :=
  match path with
  | Some p => Some (getFileExtension p)
  | None => None
  end.

(** [s.replace('.', '')]: the first ['.'] goes. *)
Fixpoint replace_dot (s : jsstring) : jsstring :=
  match s with
  | [] => []
  | c :: t => if (c =? chr ".")%N then t else c :: replace_dot t
  end.

(** A string or [undefined] in a boolean context. *)
Definition truthy (v : option jsstring) : bool :=
  match v with
  | Some (_ :: _) => true
  | _ => false
  end.

(** An edge end in a boolean context: a prototype member is an object or a
    function. *)
Definition end_truthy (v : endpoint) : bool :=
  match v with
  | Own f => truthy f
  | Inherited _ => true
  end.

(** [a || b] *)
Definition or_else (a b : option jsstring) : option jsstring :=
  if truthy a then a else b.

(** A string or [undefined] used as a property key. *)
Definition to_key (v : option jsstring) : jsstring :=
  match v with
  | Some s => s
  | None => lit "undefined"
  end.

(** An edge end used as a property key. *)
Definition end_key (v : endpoint) : jsstring :=
  match v with
  | Own f => to_key f
  | Inherited k => member_text k
  end.

(** [byType[k] = (byType[k] || 0) + n].  The keys of [byType] begin with a
    dot, which no member of [Object.prototype] does, so that what is read is
    a number stored before, or [undefined]. *)
Definition add_count (k : jsstring) (n : nat) (counts : gmap jsstring nat)
  : gmap jsstring nat :=
  <[k := default 0 (counts !! k) + n]> counts.
Global Arguments add_count : simpl never.

(** [connectionCounts[k]]; [None] is [undefined]. *)
Definition counts_get (counts : gmap jsstring count) (k : jsstring)
  : option count :=
  match counts !! k with
  | Some v => Some v
  | None => if inherited k then Some (Member k) else None
  end.

(** [(v || 0) + n]: a sum of numbers, or, from a string or a prototype
    member, a string that ends in the digits of [n]. *)
Definition plus (v : option count) (n : nat) : count :=
  match v with
  | None => Num n
  | Some (Num c) => Num (c + n)
  | Some (Text []) => Num n
  | Some (Text s) => Text (s ++ lit (pretty n))
  | Some (Member k) => Text (member_text k ++ lit (pretty n))
  end.

(** [connectionCounts[k] = (connectionCounts[k] || 0) + n].  For
    ['__proto__'] what would be stored is a string, which the setter
    ignores. *)
Definition add_connections (k : jsstring) (n : nat)
    (counts : gmap jsstring count) : gmap jsstring count :=
  let v := plus (counts_get counts k) n in
  if bool_decide (k = lit "__proto__") then counts else <[k := v]> counts.
Global Arguments add_connections : simpl never.

(** [node.path || node.name] *)
Definition file_of (n : rawNode) : option jsstring :=
  or_else (node_path n) (node_name n).

(** The callback of [data.nodes.map]; [None] when it throws. *)
Definition make_node (n : rawNode) : option node :=
  ty ← (if truthy (node_type n) then Some (node_type n)
        else ext ← getFileExtension_of (file_of n);
             Some (Some (replace_dot ext)));
  Some (Node (file_of n) [] (Some (node_id n)) ty).

(** [nodeMap], filled by [data.nodes.forEach]: [nodeMap[node.id] = file]
    stores the file, except under ['__proto__'], where the setter ignores
    a string and [undefined] alike. *)
Definition make_nodeMap (ns : list rawNode)
  : gmap jsstring (option jsstring) :=
  foldl (λ nodeMap n,
           if bool_decide (node_id n = lit "__proto__") then nodeMap
           else <[node_id n := file_of n]> nodeMap) ∅ ns.

(** [nodeMap[k]] *)
Definition nodeMap_get (nodeMap : gmap jsstring (option jsstring))
    (k : jsstring) : endpoint :=
  match nodeMap !! k with
  | Some f => Own f
  | None => if inherited k then Inherited k else Own None
  end.

(** [nodes.find(n => n.file === sourceFile)] followed by
    [sourceNode.imports.push(targetFile)]: the first node with that file
    gets the import; nothing happens when there is none. *)
Fixpoint push_import (sourceFile : option jsstring) (targetFile : endpoint)
    (ns : list node) : list node :=
  match ns with
  | [] => []
  | n :: rest =>
      if decide (file n = sourceFile)
      then Node (file n) (imports n ++ [targetFile]) (id n) (type n) :: rest
      else n :: push_import sourceFile targetFile rest
  end.

(** What the loops build up. *)
Record acc : Type := Acc {
  acc_nodes : list node;
  acc_edges : list edge;
  acc_counts : gmap jsstring count
}.

(** The callback of [data.edges.forEach].  No node has a prototype member
    as its file, so that [find] comes back empty for such a source. *)
Definition process_edge (nodeMap : gmap jsstring (option jsstring))
    (a : acc) (e : rawEdge) : acc :=
  let sourceFile := nodeMap_get nodeMap (source e) in
  let targetFile := nodeMap_get nodeMap (target e) in
  let ns :=
    match sourceFile with
    | Own f =>
        if end_truthy targetFile then push_import f targetFile (acc_nodes a)
        else acc_nodes a
    | Inherited _ => acc_nodes a
    end in
  let counts := add_connections (end_key sourceFile) 1 (acc_counts a) in
  let counts := add_connections (end_key targetFile) 1 counts in
  Acc ns (acc_edges a ++ [Edge sourceFile targetFile]) counts.

(** The callback of [Object.entries(data).forEach] in the legacy branch. *)
Definition process_entry (a : acc) (entry : jsstring * legacyValue) : acc :=
  match entry with
  | (_, LOther) => a
  | (f, LImports imps) =>
      let ns :=
        acc_nodes a ++ [Node (Some f) (map (λ imp, Own (Some imp)) imps)
                             None None] in
      let counts := add_connections f (length imps) (acc_counts a) in
      foldl (λ a imp,
               Acc (acc_nodes a)
                   (acc_edges a ++ [Edge (Own (Some f)) (Own (Some imp))])
                   (add_connections imp 1 (acc_counts a)))
            (Acc ns (acc_edges a) counts) imps
  end.

(** The branch for [{ nodes: [...], edges: [...] }]. *)
Definition process_backend (ns : list rawNode) (es : option (list rawEdge))
  : option acc :=
  nodes0 ← mapM make_node ns;
  let nodeMap := make_nodeMap ns in
  Some (match es with
        | Some es => foldl (process_edge nodeMap) (Acc nodes0 [] ∅) es
        | None => Acc nodes0 [] ∅
        end).

(** The callback of [nodes.forEach] that fills [byType]. *)
Definition count_type (byType : option (gmap jsstring nat)) (n : node)
  : option (gmap jsstring nat) :=
  m ← byType;
  e ← getFileExtension_of (file n);
  let ext := match e with [] => lit ".other" | _ => e end in
  Some (add_count ext 1 m).

Definition finish (a : acc) : option processed :=
  byType ← foldl count_type (Some ∅) (acc_nodes a);
  Some (Processed (acc_nodes a) (acc_edges a) (acc_counts a) byType).

(** A string seen as a node or as an edge object: every property read of
    it is [undefined]. *)
Definition string_as_node (_ : jsstring) : rawNode :=
  RawNode (lit "undefined") None None None.
Definition string_as_edge (_ : jsstring) : rawEdge :=
  RawEdge (lit "undefined") (lit "undefined").

(** [obj[k]] on the entries of an object. *)
Definition entry_get (k : jsstring) (entries : list (jsstring * legacyValue))
  : option legacyValue :=
  snd <$> find (λ kv, bool_decide (fst kv = k)) entries.

(** [processedData]; [None] when the computation throws. *)
Definition processedData (data : depsData) : option processed :=
  match data with
  | DNone => Some (Processed [] [] ∅ ∅)
  | DBackend ns es => process_backend ns es ≫= finish
  | DLegacy entries =>
      match entry_get (lit "nodes") entries with
      | Some (LImports ns) =>
          let es :=
            match entry_get (lit "edges") entries with
            | Some (LImports es) => Some (map string_as_edge es)
            | _ => None
            end in
          process_backend (map string_as_node ns) es ≫= finish
      | _ => finish (foldl process_entry (Acc [] [] ∅) entries)
      end
  end.

(** ** The views derived from the processed graph *)

(** [processedData.connectionCounts[file] || 0], the [connectionCount]
    handed to a node card. *)
Definition connectionCount (p : processed) (f : option jsstring) : count :=
  match counts_get (connectionCounts p) (to_key f) with
  | None | Some (Text []) => Num 0
  | Some v => v
  end.

Definition selectedImports (p : processed) (selectedFile : option jsstring)
  : list endpoint :=
  if negb (truthy selectedFile) then []
  else match find (λ n, bool_decide (file n = selectedFile)) (nodes p) with
       | Some n => imports n
       | None => []
       end.

Definition selectedImportedBy (p : processed)
    (selectedFile : option jsstring) : list (option jsstring) :=
  match selectedFile with
  | Some (c :: t) =>
      map file
        (filter (λ n, Own (Some (c :: t)) ∈ imports n) (nodes p))
  | _ => []
  end.

(** What the bar above the graph shows. *)
Inductive header : Type :=
| NoDependencyData
| StatsBar (modules connections : nat).

(** The guard before the main [return]: no data, an empty [nodes] array,
    or an object without properties.  (A [nodes] property that is not an
    array is taken not to be an object with [length] 0.) *)
Definition no_data (data : depsData) : bool :=
  match data with
  | DNone => true
  | DBackend ns _ => bool_decide (ns = [])
  | DLegacy entries =>
      match entry_get (lit "nodes") entries with
      | Some (LImports ns) => bool_decide (ns = [])
      | Some LOther => false
      | None => bool_decide (entries = [])
      end
  end.

(** The component up to its header: [processedData] is computed first,
    so the component throws when it does. *)
Definition render_header (data : depsData) : option header :=
  p ← processedData data;
  Some (if no_data data then NoDependencyData
        else StatsBar (length (nodes p)) (length (edges p))).

(** ** Vocabulary for the statements *)

(** The number of input edges that leave, and that reach, the node with
    id [i]. *)
Definition out_degree (es : list rawEdge) (i : jsstring) : nat :=
  length (filter (λ e, source e = i) es).
Definition in_degree (es : list rawEdge) (i : jsstring) : nat :=
  length (filter (λ e, target e = i) es).

(** The key a node is counted under in [byType]. *)
Definition type_key (f : jsstring) : jsstring :=
  match getFileExtension f with
  | [] => lit ".other"
  | e => e
  end.

(** The sum of the values of a histogram. *)
Definition total (m : gmap jsstring nat) : nat :=
  map_fold (λ _ v s, v + s) 0 m.

(** The sum of the values of [connectionCounts] that are numbers. *)
Definition total_connections (m : gmap jsstring count) : nat :=
  map_fold (λ _ v s, match v with Num c => c + s | _ => s end) 0 m.

(** The number stored under [k], 0 when there is none. *)
Definition number_at (counts : gmap jsstring count) (k : jsstring) : nat :=
  match counts !! k with
  | Some (Num c) => c
  | _ => 0
  end.

(** What is stored is a number under a key that names no member of
    [Object.prototype], and a non-empty string under one that does. *)
Definition typed (counts : gmap jsstring count) : Prop :=
  ∀ k v, counts !! k = Some v →
         if inherited k then ∃ s, v = Text s ∧ s ≠ [] else ∃ c, v = Num c.

(** An edge end whose key names no member of [Object.prototype]. *)
Definition plain_end (v : endpoint) : bool := negb (inherited (end_key v)).

(** The number of ends of processed edges that, as property keys, are
    [k]. *)
Definition key_degree (es : list edge) (k : jsstring) : nat :=
  length (filter (λ e, end_key (from e) = k) es)
  + length (filter (λ e, end_key (to e) = k) es).

(** The numbers stored are the numbers of edge ends with that key. *)
Definition counted (counts : gmap jsstring count) (es : list edge) : Prop :=
  typed counts
  ∧ ∀ k, inherited k = false → number_at counts k = key_degree es k.

(** Nothing is stored under the name of a member of [Object.prototype]. *)
Definition plain_counts (counts : gmap jsstring count) : Prop :=
  ∀ k, inherited k = true → counts !! k = None.

(** The processed edge an input edge becomes. *)
Definition edge_of (nodeMap : gmap jsstring (option jsstring))
    (e : rawEdge) : edge :=
  Edge (nodeMap_get nodeMap (source e)) (nodeMap_get nodeMap (target e)).

(** The input edges: none when [edges] is not an array. *)
Definition input_edges (es : option (list rawEdge)) : list rawEdge :=
  default [] es.

(** Every edge names node ids. *)
Definition edges_resolved (ns : list rawNode) (es : list rawEdge) : Prop :=
  Forall (λ e, source e ∈ map node_id ns ∧ target e ∈ map node_id ns) es.

(** Every node has a [path] or a [name]. *)
Definition nodes_named (ns : list rawNode) : Prop :=
  Forall (λ n, file_of n ≠ None) ns.

(** No node has ['__proto__'] as its id. *)
Definition plain_ids (ns : list rawNode) : Prop :=
  lit "__proto__" ∉ map node_id ns.

(** No node has a file named like a member of [Object.prototype]. *)
Definition plain_files (ns : list rawNode) : Prop :=
  Forall (λ n, inherited (to_key (file_of n)) = false) ns.

(** An edge of the processed graph ends in nodes of the graph. *)
Definition edge_in_graph (ns : list node) (e : edge) : Prop :=
  from e ∈ map (λ n, Own (file n)) ns ∧ to e ∈ map (λ n, Own (file n)) ns.

(** The keys of an object are distinct. *)
Definition well_formed (data : depsData) : Prop :=
  match data with
  | DLegacy entries => NoDup (map fst entries)
  | _ => True
  end.

(** What one entry of the legacy format contributes. *)
Definition entry_nodes (entry : jsstring * legacyValue) : list node :=
  match entry with
  | (f, LImports imps) =>
      [Node (Some f) (map (λ imp, Own (Some imp)) imps) None None]
  | (_, LOther) => []
  end.

Definition entry_edges (entry : jsstring * legacyValue) : list edge :=
  match entry with
  | (f, LImports imps) =>
      map (λ imp, Edge (Own (Some f)) (Own (Some imp))) imps
  | (_, LOther) => []
  end.

(** The keys an entry counts under are no names of prototype members. *)
Definition plain_entry (entry : jsstring * legacyValue) : Prop :=
  inherited (fst entry) = false
  ∧ match snd entry with
    | LImports imps => Forall (λ imp, inherited imp = false) imps
    | LOther => True
    end.

(** A node that has imports is the first node of its file: no file in
    [seen], and no earlier node, has the same one. *)
Fixpoint importers_first (seen : list (option jsstring)) (ns : list node)
  : Prop :=
  match ns with
  | [] => True
  | n :: rest =>
      (imports n ≠ [] → file n ∉ seen) ∧ importers_first (file n :: seen) rest
  end.

(** The legacy mapping that describes the graph of a backend payload:
    one entry per node, listing the files of the targets of the edges that
    leave the node, in edge order.  [to_legacy] gives the entries in node
    order; an object holding them hands them out in an order of its own
    (keys that are array indices first). *)
Definition imports_of (nodeMap : gmap jsstring (option jsstring))
    (es : list rawEdge) (i : jsstring) : list jsstring :=
  map (λ e, end_key (nodeMap_get nodeMap (target e)))
      (filter (λ e, source e = i) es).

Definition to_legacy (ns : list rawNode) (es : list rawEdge)
  : list (jsstring * legacyValue) :=
  map (λ n, (to_key (file_of n),
             LImports (imports_of (make_nodeMap ns) es (node_id n)))) ns.

End DependencyGraph.

(* ===================================================================== *)
(** * The file tree and its two counters *)
(* ===================================================================== *)

(** A node of [file_tree].  Of its properties the counters read [type] and
    [children] only; [children] may be absent. *)
Inductive FileTreeNode : Type :=
| TreeNode (type : jsstring) (children : option (list FileTreeNode)).

Record stats : Type := Stats { files : nat; folders : nat }.

(** A value met where the counters expect a node.  The payload is parsed
    JSON, so a children array can hold anything: [null]; a boolean, a
    number, a string or an array, whose [type] and [children] are
    [undefined] and of which only the truthiness matters; or an object.  Of
    an object the counters read [type] ([None] when it is absent or not a
    string) and [children]. *)
Inductive childrenValue (A : Type) : Type :=
| NoChildren               (* absent, or another falsy value *)
| NotAnArray               (* a truthy value without [forEach] *)
| Children (items : list A).
Global Arguments NoChildren {A}.
Global Arguments NotAnArray {A}.
Global Arguments Children {A} items.

Inductive FileTreeValue : Type :=
| Nullish                  (* [null] or [undefined] *)
| Other (truthy : bool)
| TreeObject (type : option jsstring)
             (children : childrenValue FileTreeValue).

(** A [FileTreeNode] as a value. *)
Fixpoint of_node (n : FileTreeNode) : FileTreeValue :=
  match n with
  | TreeNode type children =>
      TreeObject (Some type)
        match children with
        | Some children => Children (map of_node children)
        | None => NoChildren
        end
  end.

(** One round of the [forEach] callback of both counters; [None] is an
    exception, which ends the loop. *)
Definition add_child (acc child : option stats) : option stats :=
  match acc, child with
  | Some stats, Some childStats =>
      Some (Stats (files stats + files childStats)
                  (folders stats + folders childStats))
  | _, _ => None
  end.

(** components/FileTree.jsx *)
Module FileTree.

Fixpoint countFiles (node : FileTreeNode) : stats :=
  match node with
  | TreeNode type children =>
      if bool_decide (type = lit "file") then Stats 1 0
      else
        let stats := Stats 0 1 in
        match children with
        | Some children =>
            fold_left
              (λ stats child,
                 let childStats := countFiles child in
                 Stats (files stats + files childStats)
                       (folders stats + folders childStats))
              children stats
        | None => stats
        end
  end.

(** [countFiles] on any value: [node.type] of [null] or [undefined] is a
    TypeError, and so is [forEach] of a value that has none. *)
Fixpoint countFiles_value (node : FileTreeValue) : option stats :=
  match node with
  | Nullish => None
  | Other _ => Some (Stats 0 1)
  | TreeObject type children =>
      if bool_decide (type = Some (lit "file")) then Some (Stats 1 0)
      else
        let stats := Some (Stats 0 1) in
        match children with
        | NoChildren => stats
        | NotAnArray => None
        | Children children =>
            fold_left
              (λ stats child, add_child stats (countFiles_value child))
              children stats
        end
  end.

End FileTree.

(** components/Report.jsx *)
Module Report.

(** [countFiles]: the test [if (!node)] comes first, also in the calls on
    the entries of [children]. *)
Fixpoint countFiles (node : FileTreeValue) : option stats :=
  match node with
  | Nullish | Other false => Some (Stats 0 0)
  | Other true => Some (Stats 0 1)
  | TreeObject type children =>
      if bool_decide (type = Some (lit "file")) then Some (Stats 1 0)
      else
        let stats := Some (Stats 0 1) in
        match children with
        | NoChildren => stats
        | NotAnArray => None
        | Children children =>
            fold_left
              (λ stats child, add_child stats (countFiles child))
              children stats
        end
  end.

End Report.

(** ** Vocabulary for the statements about trees *)

(** The number of nodes of a subtree that satisfy [p]. *)
Fixpoint count_nodes (p : jsstring → bool) (n : FileTreeNode) : nat :=
  match n with
  | TreeNode type children =>
      (if p type then 1 else 0)
      + match children with
        | Some cs => list_sum (map (count_nodes p) cs)
        | None => 0
        end
  end.

Definition is_file (type : jsstring) : bool := bool_decide (type = lit "file").

(** The data model's shape: a node of type ['file'] has no children (the
    property is absent or an empty array). *)
Fixpoint files_are_leaves (n : FileTreeNode) : bool :=
  match n with
  | TreeNode type children =>
      match children with
      | None => true
      | Some cs =>
          (negb (is_file type) || bool_decide (cs = []))
          && forallb files_are_leaves cs
      end
  end.

(** No entry of a children array that the counters visit is falsy. *)
Fixpoint truthy_entries (v : FileTreeValue) : bool :=
  match v with
  | Nullish => false
  | Other truthy => truthy
  | TreeObject type children =>
      match children with
      | Children items => forallb truthy_entries items
      | _ => true
      end
  end.

(* ===================================================================== *)
(** * components/AIDetection.jsx *)
(* ===================================================================== *)

Module AIDetection.

(** ** Values of the payload *)

(** Numbers are IEEE 754 doubles. *)
Definition number : Type := PrimFloat.float.

Definition is_NaN (n : number) : bool := negb (PrimFloat.eqb n n).

(** The length of an array or a string, as a number. *)
Definition of_nat (n : nat) : number :=
  PrimFloat.of_uint63 (Uint63.of_Z (Z.of_nat n)).

(** What [JSON.parse] can produce, and [undefined] for what is missing.
    An object is the list of its properties in the order [Object.entries]
    gives them, which names no property twice. *)
Inductive jsval : Type :=
| VUndefined
| VNull
| VBool (b : bool)
| VNum (n : number)
| VStr (s : jsstring)
| VArr (items : list jsval)
| VObj (props : list (jsstring * jsval)).

Definition truthy (v : jsval) : bool :=
  match v with
  | VUndefined | VNull => false
  | VBool b => b
  | VNum n => negb (PrimFloat.eqb n 0%float || is_NaN n)
  | VStr s => negb (bool_decide (s = []))
  | VArr _ | VObj _ => true
  end.


(** [a || b] *)
Definition or_else (a b : jsval) : jsval := if truthy a then a else b.

Definition prop_lookup (k : jsstring) (props : list (jsstring * jsval))
  : jsval :=
  match find (λ kv, bool_decide (fst kv = k)) props with
  | Some kv => snd kv
  | None => VUndefined
  end.

Definition index_key (i : nat) : jsstring := lit (pretty i).

(** [v.k] for the names the component reads, none of which a parsed value
    inherits from a prototype, and for [length]; reading a property of
    [null] or [undefined] is a [TypeError] ([None]). *)
Definition get (v : jsval) (k : jsstring) : option jsval :=
  match v with
  | VUndefined | VNull => None
  | VObj props => Some (prop_lookup k props)
  | VArr items =>
      Some (if bool_decide (k = lit "length")
            then VNum (of_nat (length items))
            else VUndefined)
  | VStr s =>
      Some (if bool_decide (k = lit "length")
            then VNum (of_nat (length s))
            else VUndefined)
  | VBool _ | VNum _ => Some VUndefined
  end.

(** [v[0]] *)
Definition first (v : jsval) : option jsval :=
  match v with
  | VUndefined | VNull => None
  | VObj props => Some (prop_lookup (index_key 0) props)
  | VArr items => Some (hd VUndefined items)
  | VStr s => Some (match s with c :: _ => VStr [c] | [] => VUndefined end)
  | VBool _ | VNum _ => Some VUndefined
  end.

(** [Object.entries(v)] *)
Definition entries (v : jsval) : option (list (jsstring * jsval)) :=
  match v with
  | VUndefined | VNull => None
  | VObj props => Some props
  | VArr items => Some (imap (λ i x, (index_key i, x)) items)
  | VStr s => Some (imap (λ i c, (index_key i, VStr [c])) s)
  | VBool _ | VNum _ => Some []
  end.

(** A value as a React child: strings and numbers are text, booleans,
    [null] and [undefined] show nothing, arrays show their items, and a
    plain object is refused with an error. *)
Fixpoint renderable (v : jsval) : bool :=
  match v with
  | VObj _ => false
  | VArr items => forallb renderable items
  | _ => true
  end.

Definition child (v : jsval) : option jsval :=
  if renderable v then Some v else None.

(** ** What is shown *)

(** The child that [a && <block>] leaves: the falsy [a] itself, of which
    React shows a number ([0] or [NaN]) as text and anything else not at
    all, or the block. *)
Inductive guarded (A : Type) : Type :=
| Skipped (v : jsval)
| Block (a : A).
Global Arguments Skipped {A} v.
Global Arguments Block {A} a.

Record indicatorView : Type := IndicatorView {
  shown_indicator : jsval;
  shown_severity : jsval;
  shown_file_pattern : guarded jsval;
  shown_example : guarded jsval
}.

Record report : Type := Report {
  aiPercentage : jsval;
  humanPercentage : jsval;
  confidence : jsval;
  label : jsstring;
  summary : guarded jsval;
  details : guarded (list (jsstring * jsval * bool));
  indicators : guarded (list indicatorView);
  recommendation : guarded jsval
}.

Inductive rendering : Type :=
| NoData
| Detection (r : report).

Section Component.
(** [ToNumber] on strings, arrays and objects (the string grammar is not
    modelled; the component works for whatever it yields). *)
Variable coerce : jsval → number.

Definition ToNumber (v : jsval) : number :=
  match v with
  | VUndefined => PrimFloat.nan
  | VNull => 0%float
  | VBool b => if b then 1%float else 0%float
  | VNum n => n
  | _ => coerce v
  end.

(** [v.length > 0]: the length of an array or of a string is the number
    of its items; a boolean or a number has none. *)
Definition length_positive (v : jsval) : option bool :=
  match v with
  | VUndefined | VNull => None
  | VArr items => Some (0 <? length items)%nat
  | VStr s => Some (0 <? length s)%nat
  | VObj props =>
      Some (PrimFloat.ltb 0%float (ToNumber (prop_lookup (lit "length") props)))
  | VBool _ | VNum _ => Some false
  end.

Definition getColor_label (percentage : jsval) : jsstring :=
  let p := ToNumber percentage in
  if PrimFloat.ltb p 20%float then lit "Mostly Human"
  else if PrimFloat.ltb p 40%float then lit "Largely Human"
  else if PrimFloat.ltb p 60%float then lit "Mixed"
  else if PrimFloat.ltb p 80%float then lit "Largely AI"
  else lit "Mostly AI".

(** [data.ai_percentage || 0] *)
Definition aiPercentage_of (data : jsval) : option jsval :=
  v ← get data (lit "ai_percentage");
  Some (or_else v (VNum 0%float)).

(** [data.human_percentage || (100 - aiPercentage)] *)
Definition humanPercentage_of (data : jsval) : option jsval :=
  ai ← aiPercentage_of data;
  v ← get data (lit "human_percentage");
  Some (or_else v (VNum (PrimFloat.sub 100%float (ToNumber ai)))).

(** [data.confidence || 'low'] *)
Definition confidence_of (data : jsval) : option jsval :=
  v ← get data (lit "confidence");
  Some (or_else v (VStr (lit "low"))).

(** [data.k && <p>{data.k}</p>] *)
Definition optional_text (data : jsval) (k : jsstring)
  : option (guarded jsval) :=
  v ← get data k;
  if truthy v then c ← child v; Some (Block c) else Some (Skipped v).

(** The [details] block: for each entry its key, the value shown and
    [isHuman]. *)
Definition render_details (data : jsval)
  : option (guarded (list (jsstring * jsval * bool))) :=
  d ← get data (lit "details");
  if truthy d then
    es ← entries d;
    if (0 <? length es)%nat then
      items ← mapM (λ kv, c ← child (snd kv);
                          Some (fst kv, c,
                                PrimFloat.ltb 50%float (ToNumber (snd kv))))
                   es;
      Some (Block items)
    else Some (Skipped (VBool false))
  else Some (Skipped d).

(** The callback of [indicators_found.slice(0, 5).map]. *)
Definition render_indicator (indicator : jsval) : option indicatorView :=
  severity ← get indicator (lit "severity");
  name ← get indicator (lit "indicator");
  name ← child name;
  severity ← child severity;
  file_pattern ← get indicator (lit "file_pattern");
  file_pattern ←
    (if truthy file_pattern then c ← child file_pattern; Some (Block c)
     else Some (Skipped file_pattern));
  examples ← get indicator (lit "examples");
  example ←
    (if truthy examples then
       positive ← length_positive examples;
       if positive : bool then
         e ← first examples; c ← child e; Some (Block c)
       else Some (Skipped (VBool false))
     else Some (Skipped examples));
  Some (IndicatorView name severity file_pattern example).

(** The [indicators_found] block: [slice] and [map] exist on arrays
    only. *)
Definition render_indicators (data : jsval)
  : option (guarded (list indicatorView)) :=
  found ← get data (lit "indicators_found");
  if truthy found then
    positive ← length_positive found;
    if positive : bool then
      match found with
      | VArr items =>
          views ← mapM render_indicator (take 5 items); Some (Block views)
      | _ => None
      end
    else Some (Skipped (VBool false))
  else Some (Skipped found).

(** The component; [None] when rendering throws.  The arc of the gauge
    ([aiPercentage * 5.53]), the labels of the detail scores and the class
    names are presentation and are left out: they are computed without
    reading the payload further and cannot throw. *)
Definition AIDetection (data : jsval) : option rendering :=
  if negb (truthy data) then Some NoData
  else
    aiPercentage ← aiPercentage_of data;
    humanPercentage ← humanPercentage_of data;
    confidence ← confidence_of data;
    let label := getColor_label aiPercentage in
    ai ← child aiPercentage;
    human ← child humanPercentage;
    conf ← child confidence;
    summary ← optional_text data (lit "summary");
    details ← render_details data;
    indicators ← render_indicators data;
    recommendation ← optional_text data (lit "recommendation");
    Some (Detection
            (Report ai human conf label summary details indicators
                    recommendation)).

(** ** Vocabulary for the statements *)





End Component.

(** The property [k] is missing from the payload object. *)
Definition missing (k : jsstring) (data : jsval) : Prop :=
  get data k = Some VUndefined.

End AIDetection.

(* ===================================================================== *)
(** * App.jsx: what is on screen once the request has settled *)
(* ===================================================================== *)

Module AppView.

(** The payload is what [response.json()] handed back: a parsed value. *)
Definition payload : Type := AIDetection.jsval.

(** The text of one module card:
    [typeof info === 'string' ? info : info.description || 'Core module'];
    reading [description] of [null] throws. *)
Definition module_text (info : AIDetection.jsval) : option AIDetection.jsval :=
  match info with
  | AIDetection.VStr _ => Some info
  | _ =>
      description ← AIDetection.get info (lit "description");
      Some (AIDetection.or_else description
              (AIDetection.VStr (lit "Core module")))
  end.

(** The cards of the overview tab:
    [analysisData.modules && Object.entries(...).slice(0, 6).map(...)],
    which is computed when [tabsData] is. *)
Definition overview_modules (analysisData : payload)
  : option (AIDetection.guarded (list (jsstring * AIDetection.jsval))) :=
  modules ← AIDetection.get analysisData (lit "modules");
  if AIDetection.truthy modules then
    es ← AIDetection.entries modules;
    cards ← mapM (λ kv, text ← module_text (snd kv); Some (fst kv, text))
                 (take 6 es);
    Some (AIDetection.Block cards)
  else Some (AIDetection.Skipped modules).

(** [analysisData] in a boolean context. *)
Definition has_data (st : App.state payload) : bool :=
  match App.analysisData st with
  | Some d => AIDetection.truthy d
  | None => false
  end.

(** [tabsData], as the ids of its tabs: the eight tabs when there is data,
    none otherwise; [None] when the array literal throws.  Of what the
    literal computes from the payload only the cards of the overview can
    throw; the other tabs test a property, call [JSON.stringify] or
    [Object.entries] on a truthy value and create elements. *)
Definition tabsData (st : App.state payload) : option (list jsstring) :=
  match App.analysisData st with
  | Some d =>
      if AIDetection.truthy d then
        _ ← overview_modules d;
        Some [lit "overview"; lit "docs"; lit "debt"; lit "onboarding";
              lit "filetree"; lit "dependencies"; lit "ai-detection";
              lit "chat"]
      else Some []
  | None => Some []
  end.

(** [{error && ...}] *)
Definition shows_error (st : App.state payload) : bool :=
  match App.error st with
  | Some (_ :: _) => true
  | _ => false
  end.

(** [{(isAnalyzing || completedSteps.length > 0) && !analysisData && ...}] *)
Definition shows_progress (st : App.state payload) : bool :=
  (App.isAnalyzing st || (0 <? length (App.completedSteps st))%nat)
  && negb (has_data st).

(** [{completedSteps.length === 3 && tabsData.length > 0 && ...}] *)
Definition shows_results (st : App.state payload) (tabsData : list jsstring)
  : bool :=
  (length (App.completedSteps st) =? 3)%nat && (0 <? length tabsData)%nat.

(** Which of the three blocks the element that [App] returns holds: the
    results, the progress panel, the error message; [None] when [App]
    throws.  The components inside the blocks, and the [Report] that is
    always there for printing, are rendered from that element afterwards
    and are not part of it. *)
Definition blocks (st : App.state payload) : option (bool * bool * bool) :=
  tabs ← tabsData st;
  Some (shows_results st tabs, shows_progress st, shows_error st).

End AppView.

(* ===================================================================== *)
(** * components/DependencyGraph.jsx: the cards and the filter *)
(* ===================================================================== *)

Module GraphView.
Import DependencyGraph.

(** [s.split('/').pop()] *)
Definition pop_segment (s : jsstring) : jsstring :=
  List.last (split_on (chr "/") s) [].

(** [fileName] of a node card, and of the details panel. *)
Definition fileName (file : jsstring) : jsstring := pop_segment file.

(** [nodes.filter(({ file }) => getFileExtension(file) === filter)]; the
    callback throws on a file that is [undefined]. *)
Fixpoint filter_by_extension (filter : jsstring) (ns : list node)
  : option (list node) :=
  match ns with
  | [] => Some []
  | n :: rest =>
      e ← getFileExtension_of (file n);
      kept ← filter_by_extension filter rest;
      Some (if bool_decide (e = filter) then n :: kept else kept)
  end.

(** [filteredNodes] *)
Definition filteredNodes (p : processed) (filter : jsstring)
  : option (list node) :=
  if bool_decide (filter = lit "all") then Some (nodes p)
  else filter_by_extension filter (nodes p).

(** The nodes whose file has no extension. *)
Definition extensionless (ns : list node) : list node :=
  filter (λ n, getFileExtension <$> file n = Some []) ns.

(** Some node with file [A] lists [B] among its imports. *)
Definition imported (ns : list node) (A : option jsstring) (B : endpoint)
  : Prop :=
  ∃ n, n ∈ ns ∧ file n = A ∧ B ∈ imports n.

(** What the loops of [processedData] keep true of the nodes, edges and
    counts built so far: the counts are numbers except under the names of
    prototype members; the numbers add up to the number of edge ends with
    another key; no node whose file is such a key lists more imports than
    its file's count; and a node of file [A] lists a truthy [B] exactly
    when there is an edge from [A] to [B]. *)
Definition consistent (a : acc) : Prop :=
  typed (acc_counts a)
  ∧ total_connections (acc_counts a)
    = length (filter (λ e, plain_end (from e) = true) (acc_edges a))
      + length (filter (λ e, plain_end (to e) = true) (acc_edges a))
  ∧ Forall (λ n, inherited (to_key (file n)) = false →
                 length (imports n)
                 ≤ number_at (acc_counts a) (to_key (file n)))
           (acc_nodes a)
  ∧ ∀ A B, end_truthy B = true →
           imported (acc_nodes a) (Some A) B
           ↔ Edge (Own (Some A)) B ∈ acc_edges a.

End GraphView.

(* ===================================================================== *)
(** * components/FileTree.jsx: sizes *)
(* ===================================================================== *)

Module FileTreeView.

(** The tenths nearest to [num / den], the larger one on a tie. *)
Definition tenths (num den : N) : N := ((10 * num + den / 2) / den)%N.

(** A number of tenths written with one decimal. *)
Definition fixed1 (num den : N) : jsstring :=
  lit (pretty (tenths num den / 10)%N) ++ lit "."
  ++ lit (pretty (tenths num den mod 10)%N).

Section Sizes.
(** [String(num / den)] for a quotient of [10^21] or more, which is written
    with an exponent; its digits are not modelled. *)
Variable exponential : N → N → jsstring.

(** [(num / den).toFixed(1)] for a quotient the double holds exactly (as it
    does a byte count divided by a power of two): below [10^21] the tenths
    nearest to the value, the larger one on a tie, written with one
    decimal; from [10^21] on what [String] gives. *)
Definition toFixed1 (num den : N) : jsstring :=
  if (10 ^ 21 * den <=? num)%N then exponential num den
  else fixed1 num den.

(** [formatSize], on a byte count. *)
Definition formatSize (bytes : N) : jsstring :=
  if (bytes <? 1024)%N then lit (pretty bytes) ++ lit " B"
  else if (bytes <? 1024 * 1024)%N then toFixed1 bytes 1024 ++ lit " KB"
  else toFixed1 bytes (1024 * 1024) ++ lit " MB".
End Sizes.

End FileTreeView.

(* ===================================================================== *)
(** * components/Report.jsx: the body of the report *)
(* ===================================================================== *)

Module ReportBody.
Import DependencyGraph.

(** [s.replace(pat, '')] for a pattern that is a non-empty string: the
    first occurrence goes. *)
Fixpoint remove_first (pat s : jsstring) : jsstring :=
  if bool_decide (pat `prefix_of` s) then drop (length pat) s
  else match s with
       | [] => []
       | c :: t => c :: remove_first pat t
       end.

(** [repoUrl?.split('/').pop()?.replace('.git', '') || 'Repository'] *)
Definition repoName (repoUrl : option jsstring) : jsstring :=
  match repoUrl with
  | None => lit "Repository"
  | Some url =>
      match remove_first (lit ".git") (GraphView.pop_segment url) with
      | [] => lit "Repository"
      | name => name
      end
  end.

(** [s.includes(pat)]: [s] holds [pat] somewhere. *)
Fixpoint occurs (pat s : jsstring) : bool :=
  bool_decide (pat `prefix_of` s)
  || match s with
     | [] => false
     | _ :: t => occurs pat t
     end.

(** The 'Module Dependencies' block for a payload in the backend format:
    the two numbers, the files listed and the '... and n more' line. *)
Record dependenciesBlock : Type := DependenciesBlock {
  block_modules : nat;
  block_internal : nat;
  block_listed : list (option jsstring);
  block_more : option nat
}.

(** [None] when the block is not rendered ([nodes] is empty).  An [edges]
    that is not an array is taken to be missing, so that [edges?.length] is
    [undefined]. *)
Definition dependencies_block (ns : list rawNode) (es : option (list rawEdge))
  : option dependenciesBlock :=
  if (0 <? length ns)%nat then
    Some (DependenciesBlock
            (length ns)
            (match es with Some es => length es | None => 0 end)
            (map file_of (take 30 ns))
            (if (30 <? length ns)%nat then Some (length ns - 30) else None))
  else None.

(** The 'AI Code Detection' block: [ai_percentage || 0],
    [human_percentage || 100] and [confidence || 'N/A']. *)
Definition report_aiPercentage (d : AIDetection.jsval)
  : option AIDetection.jsval :=
  v ← AIDetection.get d (lit "ai_percentage");
  Some (AIDetection.or_else v (AIDetection.VNum 0%float)).

Definition report_humanPercentage (d : AIDetection.jsval)
  : option AIDetection.jsval :=
  v ← AIDetection.get d (lit "human_percentage");
  Some (AIDetection.or_else v (AIDetection.VNum 100%float)).

Definition report_confidence (d : AIDetection.jsval)
  : option AIDetection.jsval :=
  v ← AIDetection.get d (lit "confidence");
  Some (AIDetection.or_else v (AIDetection.VStr (lit "N/A"))).

(** A node of [file_tree] as [FileTreePrint] reads it: [name], [type] and
    [children]. *)
Inductive PrintNode : Type :=
| PNode (name : jsstring) (type : jsstring)
        (children : option (list PrintNode)).

(** The two kinds of line [FileTreePrint] writes. *)
Inductive line : Type :=
| NameLine (depth : nat) (folder : bool) (name : jsstring)
| MoreLine (depth : nat) (omitted : nat).

(** ['│   '.repeat(depth)] *)
Definition indent (depth : nat) : jsstring :=
  concat (replicate depth ([9474] ++ lit "   ")%N).

(** ['├── 📁 '] and ['├── 📄 '] *)
Definition prefix (folder : bool) : jsstring :=
  ([9500; 9472; 9472] ++ lit " " ++ [55357]
   ++ [if folder then 56513 else 56516] ++ lit " ")%N.

(** The text of a line. *)
Definition line_text (l : line) : jsstring :=
  match l with
  | NameLine depth folder name => indent depth ++ prefix folder ++ name
  | MoreLine depth omitted =>
      indent depth ++ lit "    ... and " ++ lit (pretty omitted)
      ++ lit " more items"
  end.

(** [FileTreePrint], as the lines it writes from top to bottom.  The inner
    loop is [children.slice(0, 50).map]. *)
Fixpoint FileTreePrint (node : PrintNode) (depth : nat) : list line :=
  match node with
  | PNode name type children =>
      (if (0 <? depth)%nat
       then [NameLine depth (bool_decide (type = lit "folder")) name]
       else [])
      ++ match children with
         | Some children =>
             (fix first (k : nat) (cs : list PrintNode) : list line :=
                match k, cs with
                | S k, child :: cs =>
                    FileTreePrint child
                      (depth + (if (depth =? 0)%nat then 0 else 1))
                    ++ first k cs
                | _, _ => []
                end) 50 children
             ++ (if (50 <? length children)%nat
                 then [MoreLine depth (length children - 50)]
                 else [])
         | None => []
         end
  end.

End ReportBody.

(* ===================================================================== *)
(** * components/Chat.jsx *)
(* ===================================================================== *)

Module Chat.

Inductive role : Type := user | assistant.

(** A message of the transcript; the [content] of a reply is
    [data.response], which may be missing. *)
Record message : Type := Message {
  msg_role : role;
  content : option jsstring
}.

(** The React state of the component. *)
Record state : Type := State {
  messages : list message;
  input : jsstring;
  isLoading : bool
}.

(** The body of the POST to [/chat]. *)
Record request : Type := Request {
  repo : jsstring;
  question : jsstring;
  history : list message
}.

(** What comes back: a rejected [fetch], or an HTTP response whose body
    either gives a value with a [response] property that can be read
    ([Some], the property itself possibly missing) or does not (it fails to
    parse, or is [null]). *)
Inductive response : Type :=
| FetchRejected
| HttpResponse (ok : bool) (body : option (option jsstring)).

Definition apology : jsstring :=
  lit "Sorry, I encountered an error. Please try again.".

(** [onChange] of the input, and a click on a suggested question. *)
Definition setInput (text : jsstring) (st : state) : state :=
  State (messages st) text (isLoading st).

(** [handleSendMessage]: the state once the promise has settled, and the
    requests sent. *)
Definition handleSendMessage (repoUrl : jsstring)
    (respond : request → response) (st : state) : state * list request :=
  match trim (input st) with
  | [] => (st, [])
  | _ =>
      let userMessage := Message user (Some (input st)) in
      let req := Request repoUrl (input st) (messages st) in
      let reply :=
        match respond req with
        | HttpResponse true (Some text) => Message assistant text
        | _ => Message assistant (Some apology)
        end in
      (State (messages st ++ [userMessage] ++ [reply]) [] false, [req])
  end.

(** A conversation: for each text typed, [setInput] and then
    [handleSendMessage]. *)
Definition converse (repoUrl : jsstring) (respond : request → response)
    (texts : list jsstring) (st : state) : state * list request :=
  foldl (λ acc text,
           let '(st', sent) :=
             handleSendMessage repoUrl respond (setInput text (fst acc)) in
           (st', snd acc ++ sent))
        (st, []) texts.

(** The roles alternate, beginning with the user and ending with the
    assistant. *)
Fixpoint alternating (ms : list message) : Prop :=
  match ms with
  | [] => True
  | q :: a :: rest =>
      msg_role q = user ∧ msg_role a = assistant ∧ alternating rest
  | _ => False
  end.

End Chat.

(* ===================================================================== *)
(** * components/Tabs.jsx *)
(* ===================================================================== *)

Module Tabs.

(** The [content] of a tab: an element, or a function, of which only what
    it returns when called with [{ setActiveTab }] matters here. *)
Inductive tabContent (C : Type) : Type :=
| Element (c : C)
| Function (returns : C).
Arguments Element {C} _.
Arguments Function {C} _.

Record tab (C : Type) : Type := Tab {
  id : jsstring;
  label : jsstring;
  tab_content : tabContent C
}.
Arguments Tab {C} _ _ _.
Arguments id {C} _.
Arguments label {C} _.
Arguments tab_content {C} _.

Section Component.
Context {C : Type}.

(** [useState(tabs[0].id)]: reading [id] of [undefined] throws. *)
Definition initial (tabs : list (tab C)) : option jsstring :=
  match tabs with
  | [] => None
  | t :: _ => Some (id t)
  end.

(** [onClick={() => setActiveTab(tab.id)}] *)
Definition click (t : tab C) (activeTab : jsstring) : jsstring := id t.

(** [content]: of the first tab whose id is the active one; nothing when
    there is none. *)
Definition shown (tabs : list (tab C)) (activeTab : jsstring) : option C :=
  match find (λ t, bool_decide (id t = activeTab)) tabs with
  | Some t =>
      Some (match tab_content t with
            | Element c => c
            | Function returns => returns
            end)
  | None => None
  end.

(** The buttons drawn as active. *)
Definition highlighted (tabs : list (tab C)) (activeTab : jsstring)
  : list (tab C) :=
  filter (λ t, id t = activeTab) tabs.

Definition content_of (t : tab C) : C :=
  match tab_content t with
  | Element c => c
  | Function returns => returns
  end.

End Component.
End Tabs.

(* ===================================================================== *)
(** * Properties *)
(* ===================================================================== *)

(** ** The matcher decides the language *)

Section RegexFacts.
Import Regex.

Lemma Lang_Void s : ¬ Lang Void s.
Proof. inversion 1. Qed.

Lemma Lang_Eps s : Lang Eps s ↔ s = [].
Proof. split; [by inversion 1|intros ->; constructor]. Qed.

Lemma Lang_Class p s : Lang (Class p) s ↔ ∃ c, s = [c] ∧ p c = true.
Proof.
  split; [inversion 1; subst; eauto|intros (c & -> & Hc); by constructor].
Qed.

Lemma Lang_Cat a b s :
  Lang (Cat a b) s ↔ ∃ s1 s2, s = s1 ++ s2 ∧ Lang a s1 ∧ Lang b s2.
Proof.
  split.
  - inversion 1; subst; eauto.
  - intros (s1 & s2 & -> & H1 & H2). by constructor.
Qed.

Lemma Lang_Alt a b s : Lang (Alt a b) s ↔ Lang a s ∨ Lang b s.
Proof.
  split.
  - inversion 1; subst; eauto.
  - intros [H|H]; [by apply LAltL|by apply LAltR].
Qed.

Lemma Lang_nullable r : nullable r = true ↔ Lang r [].
Proof.
  induction r as [| |p|a IHa b IHb|a IHa b IHb|a IHa]; simpl.
  - split; [done|intros H; by apply Lang_Void in H].
  - split; [constructor|done].
  - split; [done|]. intros (c & ? & _)%Lang_Class. done.
  - rewrite andb_true_iff, IHa, IHb, Lang_Cat. split.
    + intros [Ha Hb]. by exists [], [].
    + intros (s1 & s2 & Heq & H1 & H2). symmetry in Heq.
      apply app_eq_nil in Heq as [-> ->]. done.
  - by rewrite orb_true_iff, IHa, IHb, Lang_Alt.
  - split; [constructor|done].
Qed.

Lemma Lang_Star_cons a c t :
  Lang (Star a) (c :: t) →
  ∃ s1 s2, t = s1 ++ s2 ∧ Lang a (c :: s1) ∧ Lang (Star a) s2.
Proof.
  intros H. remember (Star a) as r eqn:Hr. remember (c :: t) as w eqn:Hw.
  revert t Hw.
  induction H as [| | | | | |a' s1 s2 H1 _ H2 IH2]; intros t Hw;
    try discriminate.
  injection Hr as ->. destruct s1 as [|c1 s1]; simpl in Hw.
  - by apply IH2.
  - injection Hw as -> <-. eauto.
Qed.

Lemma Lang_deriv c r s : Lang (deriv c r) s ↔ Lang r (c :: s).
Proof.
  revert s.
  induction r as [| |p|a IHa b IHb|a IHa b IHb|a IHa]; intros s; simpl.
  - split; intros H; by apply Lang_Void in H.
  - split; [intros H; by apply Lang_Void in H|by intros ?%Lang_Eps].
  - rewrite Lang_Class. destruct (p c) eqn:Hp.
    + rewrite Lang_Eps. split; [intros ->; eauto|].
      intros (c' & [= -> ->] & _). done.
    + split; [intros H; by apply Lang_Void in H|].
      intros (c' & [= -> ->] & ?). congruence.
  - assert (Hcat : Lang (Cat (deriv c a) b) s ↔
                   ∃ s1 s2, s = s1 ++ s2 ∧ Lang a (c :: s1) ∧ Lang b s2).
    { rewrite Lang_Cat. by setoid_rewrite IHa. }
    destruct (nullable a) eqn:Hn.
    + rewrite Lang_Alt, Hcat, IHb, Lang_Cat. split.
      * intros [(s1 & s2 & -> & H1 & H2)|H].
        -- by exists (c :: s1), s2.
        -- apply Lang_nullable in Hn. by exists [], (c :: s).
      * intros (s1 & s2 & Heq & H1 & H2).
        destruct s1 as [|c1 s1]; simpl in Heq.
        -- subst. by right.
        -- injection Heq as <- ->. left. by exists s1, s2.
    + rewrite Hcat, Lang_Cat. split.
      * intros (s1 & s2 & -> & H1 & H2). by exists (c :: s1), s2.
      * intros (s1 & s2 & Heq & H1 & H2).
        destruct s1 as [|c1 s1]; simpl in Heq.
        -- apply Lang_nullable in H1. congruence.
        -- injection Heq as <- ->. by exists s1, s2.
  - by rewrite !Lang_Alt, IHa, IHb.
  - rewrite Lang_Cat. setoid_rewrite IHa. split.
    + intros (s1 & s2 & -> & H1 & H2). by apply (LStarApp _ (c :: s1) s2).
    + apply Lang_Star_cons.
Qed.

Lemma matches_Lang r s : matches r s = true ↔ Lang r s.
Proof.
  revert r. induction s as [|c s IH]; intros r; simpl.
  - apply Lang_nullable.
  - rewrite IH. apply Lang_deriv.
Qed.

(** Inversion of the shapes the patterns are made of. *)

Lemma Lang_Chr c s : Lang (Chr c) s ↔ s = [c].
Proof.
  unfold Chr. rewrite Lang_Class. split.
  - intros (c' & -> & Hc). apply N.eqb_eq in Hc. by subst.
  - intros ->. exists c. split; [done|apply N.eqb_refl].
Qed.

Lemma Lang_Str l s : Lang (Str l) s ↔ s = l.
Proof.
  revert s. induction l as [|c l IH]; intros s; simpl.
  - apply Lang_Eps.
  - rewrite Lang_Cat. split.
    + intros (s1 & s2 & -> & H1 & H2).
      apply Lang_Chr in H1 as ->. apply IH in H2 as ->. done.
    + intros ->. exists [c], l. split; [done|].
      split; [by apply Lang_Chr|by apply IH].
Qed.

Lemma Lang_Opt r s : Lang (Opt r) s ↔ Lang r s ∨ s = [].
Proof.
  unfold Opt. by rewrite Lang_Alt, Lang_Eps.
Qed.

Lemma Lang_Star_Class p s :
  Lang (Star (Class p)) s ↔ Forall (λ c, p c = true) s.
Proof.
  split.
  - intros H. remember (Star (Class p)) as r eqn:Hr.
    induction H as [| | | | | |a s1 s2 H1 _ H2 IH2]; try discriminate.
    + constructor.
    + injection Hr as ->. apply Lang_Class in H1 as (c & -> & Hc). simpl.
      constructor; [done|by apply IH2].
  - induction 1 as [|c t Hc _ IH].
    + constructor.
    + apply (LStarApp _ [c] t); [by constructor|done].
Qed.

Lemma Lang_Plus_Class p s :
  Lang (Plus (Class p)) s ↔ s ≠ [] ∧ Forall (λ c, p c = true) s.
Proof.
  unfold Plus. rewrite Lang_Cat. split.
  - intros (s1 & s2 & -> & H1 & H2).
    apply Lang_Class in H1 as (c & -> & Hc). simpl.
    split; [done|]. constructor; [done|by apply Lang_Star_Class].
  - intros [Hne H]. destruct H as [|c t Hc H]; [done|].
    exists [c], t. split; [done|].
    split; [by constructor|by apply Lang_Star_Class].
Qed.

End RegexFacts.

(** ** App.jsx: what [validateRepoFormat] accepts *)

Section AppFacts.
Import Regex App.

(** *** [trim] *)

Lemma trimStart_clean s : starts_clean (trimStart s).
Proof.
  induction s as [|c s IH]; simpl; [done|].
  destruct (is_ws c) eqn:Hc; [done|]. simpl. done.
Qed.

Lemma trimStart_id s : starts_clean s → trimStart s = s.
Proof. destruct s as [|c s]; simpl; [done|]. by intros ->. Qed.

Lemma trimStart_suffix s : ∃ p, s = p ++ trimStart s.
Proof.
  induction s as [|c s [p IH]]; simpl; [by exists []|].
  destruct (is_ws c).
  - exists (c :: p). simpl. by f_equal.
  - by exists [].
Qed.

Lemma trim_clean s : starts_clean (trim s) ∧ starts_clean (rev (trim s)).
Proof.
  unfold trim, trimEnd. rewrite rev_involutive.
  split; [|apply trimStart_clean].
  pose proof (trimStart_clean s) as Ht.
  destruct (trimStart_suffix (rev (trimStart s))) as [p Hp].
  apply (f_equal (@rev N)) in Hp. rewrite rev_involutive, rev_app_distr in Hp.
  destruct (rev (trimStart (rev (trimStart s)))) as [|c x]; [done|].
  rewrite Hp in Ht. done.
Qed.

Lemma trim_idempotent s : trim (trim s) = trim s.
Proof.
  destruct (trim_clean s) as [H1 H2].
  unfold trim at 1. rewrite (trimStart_id _ H1).
  unfold trimEnd. rewrite (trimStart_id _ H2). apply rev_involutive.
Qed.

Lemma validateRepoFormat_trim url :
  validateRepoFormat (trim url) = validateRepoFormat url.
Proof. unfold validateRepoFormat. by rewrite trim_idempotent. Qed.

(** *** [split] *)

Lemma split_on_no_sep sep a :
  Forall (λ c, c ≠ sep) a → split_on sep a = [a].
Proof.
  induction 1 as [|c a Hc _ IH]; simpl; [done|].
  apply N.eqb_neq in Hc. by rewrite Hc, IH.
Qed.

Lemma split_on_app sep a b :
  Forall (λ c, c ≠ sep) a →
  split_on sep (a ++ sep :: b) = a :: split_on sep b.
Proof.
  induction 1 as [|c a Hc _ IH]; simpl.
  - by rewrite N.eqb_refl.
  - apply N.eqb_neq in Hc. by rewrite Hc, IH.
Qed.

(** *** The accepted strings *)

Lemma repoClass_git : Forall (λ c, repoClass c = true) (lit ".git").
Proof. repeat constructor. Qed.

Lemma ownerClass_repoClass c : ownerClass c = true → repoClass c = true.
Proof.
  unfold ownerClass, repoClass. rewrite !orb_true_iff. tauto.
Qed.

(** An accepted URL is [http] or [https], [://github.com/], an owner and
    a repository, the owner without dots. *)
Lemma validateRepoFormat_shape url :
  validateRepoFormat url = true →
  ∃ sch owner repo,
    trim url = sch ++ lit "://github.com/" ++ owner ++ chr "/" :: repo
    ∧ (sch = lit "http" ∨ sch = lit "https")
    ∧ owner ≠ [] ∧ Forall (λ c, ownerClass c = true) owner
    ∧ repo ≠ [] ∧ Forall (λ c, repoClass c = true) repo.
Proof.
  unfold validateRepoFormat, fullUrlPattern. intros H.
  apply matches_Lang in H.
  apply Lang_Cat in H as (a1 & r1 & Heq1 & Ha1%Lang_Str & H).
  apply Lang_Cat in H as (a2 & r2 & -> & Ha2%Lang_Opt & H).
  apply Lang_Cat in H as (a3 & r3 & -> & Ha3%Lang_Str & H).
  apply Lang_Cat in H as (owner & r4 & -> & [Ho1 Ho2]%Lang_Plus_Class & H).
  apply Lang_Cat in H as (a5 & r5 & -> & Ha5%Lang_Chr & H).
  apply Lang_Cat in H as (repo & git & -> & [Hr1 Hr2]%Lang_Plus_Class & Hg%Lang_Opt).
  subst a1 a3 a5.
  exists (lit "http" ++ a2), owner, (repo ++ git).
  split; [by rewrite Heq1, <-!app_assoc|].
  split.
  { rewrite Lang_Chr in Ha2. destruct Ha2 as [-> | ->]; [by right|by left]. }
  split; [done|]. split; [done|].
  split; [by destruct repo|].
  apply Forall_app. split; [done|].
  destruct Hg as [->%Lang_Str| ->]; [apply repoClass_git|constructor].
Qed.

(** And every string of that shape is accepted. *)
Lemma validateRepoFormat_accepts url sch owner repo :
  trim url = sch ++ lit "://github.com/" ++ owner ++ chr "/" :: repo →
  (sch = lit "http" ∨ sch = lit "https") →
  owner ≠ [] → Forall (λ c, ownerClass c = true) owner →
  repo ≠ [] → Forall (λ c, repoClass c = true) repo →
  validateRepoFormat url = true.
Proof.
  intros Heq Hsch Ho1 Ho2 Hr1 Hr2. unfold validateRepoFormat. rewrite Heq.
  apply matches_Lang. unfold fullUrlPattern.
  apply Lang_Cat.
  exists (lit "http"),
    ((if bool_decide (sch = lit "http") then [] else [chr "s"])
     ++ lit "://github.com/" ++ owner ++ chr "/" :: repo).
  split; [by destruct Hsch as [-> | ->]|]. split; [by apply Lang_Str|].
  apply LCat.
  { apply Lang_Opt. case_bool_decide; [by right|left; by apply Lang_Chr]. }
  apply LCat; [by apply Lang_Str|].
  apply LCat; [by apply Lang_Plus_Class|].
  apply (LCat _ _ [chr "/"] repo); [by apply Lang_Chr|].
  rewrite <-(app_nil_r repo).
  apply LCat; [by apply Lang_Plus_Class|apply Lang_Opt; by right].
Qed.

Example validateRepoFormat_readme_url :
  validateRepoFormat (lit "https://github.com/username/repo.git") = true.
Proof. by vm_compute. Qed.

Example validateRepoFormat_blanks_around :
  validateRepoFormat (lit "  http://github.com/user-1/my_repo.js ") = true.
Proof. by vm_compute. Qed.

Lemma ownerClass_not c d : ownerClass d = false → ownerClass c = true → c ≠ d.
Proof. congruence. Qed.

Lemma repoClass_not c d : repoClass d = false → repoClass c = true → c ≠ d.
Proof. congruence. Qed.

Lemma segments_accepted sch owner repo :
  (sch = lit "http" ∨ sch = lit "https") →
  Forall (λ c, ownerClass c = true) owner →
  Forall (λ c, repoClass c = true) repo →
  segments (sch ++ lit "://github.com/" ++ owner ++ chr "/" :: repo)
  = [sch ++ [chr ":"]; []; lit "github.com"; owner; repo].
Proof.
  intros Hsch Ho Hr. unfold segments.
  assert (Hsep : ∀ p l, (∀ c, p c = true → c ≠ chr "/") →
                        Forall (λ c, p c = true) l →
                        Forall (λ c, c ≠ chr "/") l).
  { intros p l Hp Hl. eapply Forall_impl; [exact Hl|exact Hp]. }
  assert (Ho' := Hsep _ _ (λ c, ownerClass_not c (chr "/") eq_refl) Ho).
  assert (Hr' := Hsep _ _ (λ c, repoClass_not c (chr "/") eq_refl) Hr).
  transitivity
    (split_on (chr "/")
       ((sch ++ [chr ":"]) ++ chr "/" ::
        [] ++ chr "/" ::
        lit "github.com" ++ chr "/" :: owner ++ chr "/" :: repo)).
  { f_equal. rewrite <-app_assoc. by destruct Hsch as [-> | ->]. }
  rewrite split_on_app by (destruct Hsch as [-> | ->]; by repeat constructor).
  rewrite split_on_app by constructor.
  rewrite split_on_app by (by repeat constructor).
  rewrite split_on_app by done.
  by rewrite split_on_no_sep.
Qed.

Lemma shell_metacharacter_refused c :
  is_shell_metacharacter c = true → url_unit c = false.
Proof.
  unfold is_shell_metacharacter. intros H%bool_decide_eq_true.
  unfold shell_metacharacters in H.
  repeat (apply elem_of_cons in H as [->|H]; [by vm_compute|]).
  by apply elem_of_nil in H.
Qed.

Lemma Forall_forallb_true (f : N → bool) l :
  forallb f l = true → Forall (λ c, f c = true) l.
Proof.
  induction l as [|c l IH]; simpl; [constructor|].
  intros [? ?]%andb_true_iff. constructor; auto.
Qed.

(** Every code unit of an accepted URL is a letter, a digit or one of
    [_ . - : /]. *)
Lemma validateRepoFormat_alphabet url :
  validateRepoFormat url = true →
  Forall (λ c, url_unit c = true) (trim url).
Proof.
  intros (sch & owner & repo & -> & Hsch & _ & Ho & _ & Hr)%validateRepoFormat_shape.
  assert (Hrepo : ∀ c, repoClass c = true → url_unit c = true).
  { intros c Hc. unfold url_unit. by rewrite Hc. }
  repeat (apply Forall_app; split).
  - destruct Hsch as [-> | ->]; by apply Forall_forallb_true.
  - by apply Forall_forallb_true.
  - eapply Forall_impl; [exact Ho|]. intros c Hc.
    by apply Hrepo, ownerClass_repoClass.
  - constructor; [done|]. eapply Forall_impl; [exact Hr|]. exact Hrepo.
Qed.

End AppFacts.

(** ** App.jsx: the claims about URL validation *)

(** C1, as stated, fails: ['..'] is a path component of
    [https://github.com/foo/..] (the repository one), and
    [validateRepoFormat] accepts that URL, because the repository class
    [[a-zA-Z0-9_.-]] contains the dot. *)
Lemma validateRepoFormat_accepts_dot_dot_repository :
  App.has_traversal_component (trim (lit "https://github.com/foo/..")) = true
  ∧ App.validateRepoFormat (lit "https://github.com/foo/..") = true.
Proof. split; by vm_compute. Qed.

(** C1, amended: [validateRepoFormat] returns [false] for every input in
    which, once the surrounding blanks are trimmed, ['..'] is the owner or
    any other path component but the second (the repository), or a shell
    metacharacter occurs, or the host is not [github.com].  (The example of
    the claim, [https://github.com/../../etc/passwd], is of the first
    kind.) *)
Theorem validateRepoFormat_rejects (url : jsstring) :
  App.has_traversal_outside_repository (trim url) = true
  ∨ App.has_shell_metacharacter (trim url) = true
  ∨ App.host (trim url) ≠ Some (lit "github.com") →
  App.validateRepoFormat url = false.
Proof.
  intros H. destruct (App.validateRepoFormat url) eqn:Hv; [exfalso|done].
  pose proof (validateRepoFormat_alphabet _ Hv) as Hunits.
  destruct (validateRepoFormat_shape _ Hv)
    as (sch & owner & repo & Heq & Hsch & _ & Ho & _ & Hr).
  pose proof (segments_accepted sch owner repo Hsch Ho Hr) as Hseg.
  rewrite <-Heq in Hseg.
  destruct H as [H|[H|H]].
  - unfold App.has_traversal_outside_repository, App.path_components in H.
    rewrite Hseg in H. simpl in H.
    apply bool_decide_eq_true, list_elem_of_singleton in H. subst owner.
    inversion Ho as [|? ? Hdot _]. by vm_compute in Hdot.
  - unfold App.has_shell_metacharacter in H.
    apply existsb_exists in H as (c & Hc & Hm).
    apply shell_metacharacter_refused in Hm.
    rewrite Forall_forall in Hunits. apply list_elem_of_In in Hc.
    specialize (Hunits c Hc). congruence.
  - apply H. unfold App.host. by rewrite Hseg.
Qed.

Lemma validateRepoFormat_rejects_witness :
  App.validateRepoFormat (lit "https://github.com/../../etc/passwd") = false.
Proof.
  apply (validateRepoFormat_rejects (lit "https://github.com/../../etc/passwd")).
  left. by vm_compute.
Defined.



(** ** Lists *)

Section ListFacts.

Lemma filter_length_ext {X : Type} (P Q : X → Prop)
    `{!∀ x, Decision (P x), !∀ x, Decision (Q x)} (l : list X) :
  Forall (λ x, P x ↔ Q x) l → length (filter P l) = length (filter Q l).
Proof.
  induction 1 as [|x l Hx _ IH]; [done|].
  rewrite !filter_cons. repeat case_decide; simpl; try lia; tauto.
Qed.

Lemma filter_length_or {X : Type} (P Q R : X → Prop)
    `{!∀ x, Decision (P x), !∀ x, Decision (Q x), !∀ x, Decision (R x)}
    (l : list X) :
  Forall (λ x, (P x ↔ Q x ∨ R x) ∧ ¬ (Q x ∧ R x)) l →
  length (filter P l) = length (filter Q l) + length (filter R l).
Proof.
  induction 1 as [|x l [Hx Hd] _ IH]; [done|].
  rewrite !filter_cons. repeat case_decide; simpl; try lia; tauto.
Qed.

Lemma filter_length_map {X Y Z : Type} (f : X → Z) (g : Y → Z)
    (P : Z → Prop) `{!∀ z, Decision (P z)} (l1 : list X) (l2 : list Y) :
  map f l1 = map g l2 →
  length (filter (λ x, P (f x)) l1) = length (filter (λ y, P (g y)) l2).
Proof.
  revert l2. induction l1 as [|x l1 IH]; intros [|y l2]; try done.
  cbn [map]. intros [= Hx Hl]. rewrite !filter_cons, Hx.
  case_decide; simpl; by rewrite (IH l2).
Qed.

Lemma filter_map_length {X Y : Type} (f : X → Y) (P : Y → Prop)
    `{!∀ y, Decision (P y)} (l : list X) :
  length (filter P (map f l)) = length (filter (λ x, P (f x)) l).
Proof.
  induction l as [|x l IH]; [done|]. cbn [map]. rewrite !filter_cons.
  case_decide; simpl; by rewrite IH.
Qed.

Lemma NoDup_map_inj {X Y : Type} (f : X → Y) (l : list X) (x y : X) :
  NoDup (map f l) → x ∈ l → y ∈ l → f x = f y → x = y.
Proof.
  induction l as [|z l IH]; simpl; [by intros _ ?%elem_of_nil|].
  intros [Hz Hnd]%NoDup_cons [->|Hx]%elem_of_cons [->|Hy]%elem_of_cons Heq.
  - done.
  - exfalso. apply Hz. rewrite Heq. apply list_elem_of_fmap. by exists y.
  - exfalso. apply Hz. rewrite <-Heq. apply list_elem_of_fmap. by exists x.
  - by apply IH.
Qed.

Lemma concat_map_Permutation {X Y : Type} (f : X → list Y) (l1 l2 : list X) :
  l1 ≡ₚ l2 → concat (map f l1) ≡ₚ concat (map f l2).
Proof.
  induction 1 as [|x l1 l2 _ IH|x y l|l1 l2 l3 _ IH1 _ IH2]; simpl.
  - done.
  - by rewrite IH.
  - rewrite !app_assoc. apply Permutation_app_tail, Permutation_app_comm.
  - by rewrite IH1.
Qed.

End ListFacts.

(** ** DependencyGraph.jsx: the pieces of [processedData] *)

Section DependencyGraphFacts.
Import DependencyGraph.

(** *** [byType] as a counter *)

Lemma lookup_add_count (k : jsstring) (n : nat) (m : gmap jsstring nat)
    (k' : jsstring) :
  default 0 (add_count k n m !! k')
  = default 0 (m !! k') + (if decide (k = k') then n else 0).
Proof.
  unfold add_count. destruct (decide (k = k')) as [->|Hne].
  - by rewrite lookup_insert_eq.
  - rewrite lookup_insert_ne by done. lia.
Qed.

Lemma total_insert_fresh (k : jsstring) (v : nat) (m : gmap jsstring nat) :
  m !! k = None → total (<[k := v]> m) = v + total m.
Proof.
  intros Hk. unfold total.
  apply (map_fold_insert_L (λ (_ : jsstring) (v s : nat), v + s) 0 k v m);
    [|done].
  intros; lia.
Qed.

Lemma total_add_count (k : jsstring) (n : nat) (m : gmap jsstring nat) :
  total (add_count k n m) = total m + n.
Proof.
  unfold add_count. destruct (m !! k) as [v|] eqn:Hk; simpl.
  - assert (Hm : total m = v + total (delete k m)).
    { unfold total.
      apply (map_fold_delete_L (λ (_ : jsstring) (v s : nat), v + s) 0 k v m);
        [|done].
      intros; lia. }
    rewrite <-insert_delete_eq.
    rewrite total_insert_fresh by apply lookup_delete_eq. lia.
  - rewrite total_insert_fresh by done. lia.
Qed.

Lemma total_empty : total ∅ = 0.
Proof. apply map_fold_empty. Qed.

(** *** [connectionCounts] as a plain object *)

Lemma inherited_proto : inherited (lit "__proto__") = true.
Proof. by vm_compute. Qed.

(** No member of [Object.prototype] has a name that begins with a dot:
    [byType] never reads one. *)
Lemma inherited_dot (rest : jsstring) : inherited (chr "." :: rest) = false.
Proof.
  unfold inherited, prototype_members. apply bool_decide_eq_false_2.
  intros H.
  repeat (apply elem_of_cons in H as [H|H]; [by vm_compute in H|]).
  by apply elem_of_nil in H.
Qed.

Lemma member_text_nonempty (k : jsstring) : member_text k ≠ [].
Proof.
  unfold member_text. case_bool_decide; [by vm_compute|].
  change (lit "function ") with (chr "f" :: lit "unction "). done.
Qed.

Lemma typed_empty : typed ∅.
Proof. intros k v. by rewrite lookup_empty. Qed.

Lemma plain_counts_empty : plain_counts ∅.
Proof. intros k _. apply lookup_empty. Qed.

Lemma add_connections_lookup_ne (k k' : jsstring) (n : nat)
    (counts : gmap jsstring count) :
  k ≠ k' → add_connections k n counts !! k' = counts !! k'.
Proof.
  intros Hne. unfold add_connections. case_bool_decide; [done|].
  by rewrite lookup_insert_ne.
Qed.

Lemma typed_add_connections (k : jsstring) (n : nat)
    (counts : gmap jsstring count) :
  typed counts → typed (add_connections k n counts).
Proof.
  intros Ht. unfold add_connections. case_bool_decide as Hp; [done|].
  intros k' v. destruct (decide (k = k')) as [<-|Hne].
  - rewrite lookup_insert_eq. intros [= <-]. unfold counts_get.
    destruct (counts !! k) as [w|] eqn:Hw.
    + specialize (Ht k w Hw). destruct (inherited k).
      * destruct Ht as (s & -> & Hs). destruct s as [|c s]; [done|].
        cbn [plus]. by eexists.
      * destruct Ht as (c & ->). by eexists.
    + destruct (inherited k) eqn:Hi; cbn [plus]; [|by eexists].
      eexists. split; [done|]. intros [H _]%app_eq_nil.
      by apply member_text_nonempty in H.
  - rewrite lookup_insert_ne by done. apply Ht.
Qed.

Lemma plain_counts_add_connections (k : jsstring) (n : nat)
    (counts : gmap jsstring count) :
  inherited k = false → plain_counts counts →
  plain_counts (add_connections k n counts).
Proof.
  intros Hk Hc k' Hk'. rewrite add_connections_lookup_ne; [by apply Hc|].
  intros ->. congruence.
Qed.

Lemma number_at_add_connections (k : jsstring) (n : nat)
    (counts : gmap jsstring count) (k' : jsstring) :
  typed counts → inherited k' = false →
  number_at (add_connections k n counts) k'
  = number_at counts k' + (if decide (k = k') then n else 0).
Proof.
  intros Ht Hk'. unfold number_at.
  destruct (decide (k = k')) as [<-|Hne].
  - unfold add_connections. rewrite bool_decide_eq_false_2.
    + rewrite lookup_insert_eq. unfold counts_get.
      destruct (counts !! k) as [w|] eqn:Hw.
      * specialize (Ht k w Hw). rewrite Hk' in Ht. by destruct Ht as (c & ->).
      * by rewrite Hk'.
    + intros ->. by rewrite inherited_proto in Hk'.
  - rewrite add_connections_lookup_ne by done. lia.
Qed.

Lemma total_connections_empty : total_connections ∅ = 0.
Proof. apply map_fold_empty. Qed.

Lemma total_connections_insert_fresh (k : jsstring) (v : count)
    (m : gmap jsstring count) :
  m !! k = None →
  total_connections (<[k := v]> m)
  = match v with Num c => c | _ => 0 end + total_connections m.
Proof.
  intros Hk. unfold total_connections.
  rewrite (map_fold_insert_L
             (λ (_ : jsstring) (v : count) (s : nat),
                match v with Num c => c + s | _ => s end) 0 k v m);
    [by destruct v| |done].
  intros j1 j2 z1 z2 y _ _ _. destruct z1, z2; lia.
Qed.

Lemma total_connections_delete (k : jsstring) (v : count)
    (m : gmap jsstring count) :
  m !! k = Some v →
  total_connections m
  = match v with Num c => c | _ => 0 end + total_connections (delete k m).
Proof.
  intros Hk. unfold total_connections.
  rewrite (map_fold_delete_L
             (λ (_ : jsstring) (v : count) (s : nat),
                match v with Num c => c + s | _ => s end) 0 k v m);
    [by destruct v| |done].
  intros j1 j2 z1 z2 y _ _ _. destruct z1, z2; lia.
Qed.

Lemma total_connections_add (k : jsstring) (n : nat)
    (counts : gmap jsstring count) :
  typed counts →
  total_connections (add_connections k n counts)
  = total_connections counts + (if inherited k then 0 else n).
Proof.
  intros Ht. unfold add_connections. case_bool_decide as Hp.
  { subst k. rewrite inherited_proto. lia. }
  unfold counts_get. destruct (counts !! k) as [w|] eqn:Hw.
  - rewrite (total_connections_delete k w counts Hw), <-insert_delete_eq.
    rewrite total_connections_insert_fresh by apply lookup_delete_eq.
    specialize (Ht k w Hw). destruct (inherited k).
    + destruct Ht as (s & -> & Hs). destruct s as [|c s]; [done|].
      cbn [plus]. lia.
    + destruct Ht as (c & ->). cbn [plus]. lia.
  - rewrite total_connections_insert_fresh by done.
    destruct (inherited k); cbn [plus]; lia.
Qed.

Lemma key_degree_app (es1 es2 : list edge) (k : jsstring) :
  key_degree (es1 ++ es2) k = key_degree es1 k + key_degree es2 k.
Proof. unfold key_degree. rewrite !filter_app, !length_app. lia. Qed.

Lemma key_degree_Permutation (es1 es2 : list edge) (k : jsstring) :
  es1 ≡ₚ es2 → key_degree es1 k = key_degree es2 k.
Proof. intros H. unfold key_degree. by rewrite H. Qed.

Lemma key_degree_singleton (s t : endpoint) (k : jsstring) :
  key_degree [Edge s t] k
  = (if decide (end_key s = k) then 1 else 0)
    + (if decide (end_key t = k) then 1 else 0).
Proof.
  unfold key_degree. rewrite !filter_cons, !filter_nil. cbn [from to].
  by repeat case_decide.
Qed.

Lemma counted_empty : counted ∅ [].
Proof. split; [apply typed_empty|]. intros k _. done. Qed.

(** The connection count of a file whose name is no prototype member is
    the number stored. *)
Lemma connectionCount_plain (p : processed) (f : option jsstring) :
  typed (connectionCounts p) → inherited (to_key f) = false →
  connectionCount p f = Num (number_at (connectionCounts p) (to_key f)).
Proof.
  intros Ht Hf. unfold connectionCount, counts_get, number_at.
  destruct (connectionCounts p !! to_key f) as [v|] eqn:Hv.
  - specialize (Ht _ _ Hv). rewrite Hf in Ht. by destruct Ht as (c & ->).
  - by rewrite Hf.
Qed.

Lemma connectionCount_member (p : processed) (f : option jsstring) :
  plain_counts (connectionCounts p) → inherited (to_key f) = true →
  connectionCount p f = Member (to_key f).
Proof.
  intros Hc Hf. unfold connectionCount, counts_get.
  by rewrite (Hc _ Hf), Hf.
Qed.

(** *** [nodeMap] *)

Lemma make_nodeMap_snoc ns n :
  make_nodeMap (ns ++ [n])
  = if bool_decide (node_id n = lit "__proto__") then make_nodeMap ns
    else <[node_id n := file_of n]> (make_nodeMap ns).
Proof. unfold make_nodeMap. by rewrite foldl_app. Qed.

Lemma make_nodeMap_lookup (ns : list rawNode) (k : jsstring) :
  k ∈ map node_id ns → k ≠ lit "__proto__" →
  ∃ n, n ∈ ns ∧ node_id n = k ∧ make_nodeMap ns !! k = Some (file_of n).
Proof.
  intros Hk Hp.
  induction ns as [|n ns IH] using rev_ind; [by apply elem_of_nil in Hk|].
  rewrite map_app in Hk. rewrite make_nodeMap_snoc. simpl in Hk.
  destruct (decide (node_id n = k)) as [Heq|Hne].
  - exists n. rewrite bool_decide_eq_false_2 by congruence.
    rewrite Heq, lookup_insert_eq.
    split; [apply elem_of_app; right; constructor|done].
  - apply elem_of_app in Hk as [Hk|Hk%list_elem_of_singleton]; [|done].
    destruct (IH Hk) as (n' & ? & ? & Hl).
    exists n'. split; [apply elem_of_app; by left|]. split; [done|].
    case_bool_decide; [done|]. by rewrite lookup_insert_ne.
Qed.

Lemma make_nodeMap_lookup_NoDup (ns : list rawNode) (n : rawNode) :
  NoDup (map node_id ns) → n ∈ ns → node_id n ≠ lit "__proto__" →
  make_nodeMap ns !! node_id n = Some (file_of n).
Proof.
  intros Hnd Hn Hp.
  induction ns as [|m ns IH] using rev_ind; [by apply elem_of_nil in Hn|].
  rewrite map_app in Hnd. rewrite make_nodeMap_snoc. simpl in Hnd.
  apply NoDup_app in Hnd as (Hnd & Hm & _).
  apply elem_of_app in Hn as [Hn|Hn%list_elem_of_singleton].
  - assert (Hne : node_id m ≠ node_id n).
    { intros Heq. apply (Hm (node_id n)); [|rewrite Heq; constructor].
      apply list_elem_of_fmap. by exists n. }
    case_bool_decide; [by apply IH|].
    rewrite lookup_insert_ne by done. by apply IH.
  - subst. rewrite bool_decide_eq_false_2 by done.
    by rewrite lookup_insert_eq.
Qed.

Lemma make_nodeMap_lookup_Some (ns : list rawNode) (k : jsstring)
    (f : option jsstring) :
  make_nodeMap ns !! k = Some f → f ∈ map file_of ns.
Proof.
  induction ns as [|n ns IH] using rev_ind.
  - unfold make_nodeMap. simpl. by rewrite lookup_empty.
  - rewrite make_nodeMap_snoc, map_app. case_bool_decide as Hp.
    { intros Hl. apply elem_of_app. left. by apply IH. }
    destruct (decide (node_id n = k)) as [<-|Hne].
    + rewrite lookup_insert_eq. intros [= <-].
      apply elem_of_app. right. simpl. constructor.
    + rewrite lookup_insert_ne by done. intros Hl.
      apply elem_of_app. left. by apply IH.
Qed.

Lemma nodeMap_get_resolved (ns : list rawNode) (k : jsstring) :
  k ∈ map node_id ns → k ≠ lit "__proto__" →
  nodeMap_get (make_nodeMap ns) k ∈ map (λ n, Own (file_of n)) ns.
Proof.
  intros Hk Hp.
  destruct (make_nodeMap_lookup ns k Hk Hp) as (n & Hn & _ & Hl).
  unfold nodeMap_get. rewrite Hl.
  apply list_elem_of_fmap. by exists n.
Qed.

Lemma nodeMap_get_Some (ns : list rawNode) (k A : jsstring) :
  nodeMap_get (make_nodeMap ns) k = Own (Some A) →
  Some A ∈ map file_of ns.
Proof.
  unfold nodeMap_get.
  destruct (make_nodeMap ns !! k) as [f|] eqn:H.
  - intros [= ->]. by eapply make_nodeMap_lookup_Some.
  - by destruct (inherited k).
Qed.

(** The ids the edges of a resolved input name are not ['__proto__'] when
    no node has that id. *)
Lemma resolved_plain (ns : list rawNode) (k : jsstring) :
  plain_ids ns → k ∈ map node_id ns → k ≠ lit "__proto__".
Proof. intros Hp Hk ->. by apply Hp. Qed.

(** *** The nodes *)

Lemma make_node_Some n m :
  make_node n = Some m → file m = file_of n ∧ imports m = [].
Proof.
  unfold make_node. intros H. simplify_option_eq; done.
Qed.

Lemma make_node_named n : file_of n ≠ None → is_Some (make_node n).
Proof.
  unfold make_node. intros H.
  destruct (truthy (node_type n)); simpl; [by eexists|].
  destruct (file_of n); [by eexists|done].
Qed.

Lemma mapM_make_node ns nodes0 :
  mapM make_node ns = Some nodes0 →
  map file nodes0 = map file_of ns ∧ Forall (λ n, imports n = []) nodes0.
Proof.
  intros H%mapM_Some_1.
  induction H as [|n m ns nodes0 Hm _ [IH1 IH2]]; [done|].
  apply make_node_Some in Hm as [Hf Hi]. simpl.
  split; [by rewrite Hf, IH1|by constructor].
Qed.

(** *** [byType] *)

Lemma count_type_None ns : foldl count_type None ns = None.
Proof. induction ns; simpl; done. Qed.

Lemma count_type_Some (m : gmap jsstring nat) (n : node) (f : jsstring) :
  file n = Some f → count_type (Some m) n = Some (add_count (type_key f) 1 m).
Proof.
  unfold count_type, type_key. intros ->. simpl.
  by destruct (getFileExtension f).
Qed.

Lemma count_type_fold_inv (ns : list node) (m m' : gmap jsstring nat) :
  foldl count_type (Some m) ns = Some m' →
  Forall (λ n, file n ≠ None) ns
  ∧ (∀ k, default 0 (m' !! k)
          = default 0 (m !! k)
            + length (filter (λ n, type_key <$> file n = Some k) ns))
  ∧ total m' = total m + length ns.
Proof.
  revert m. induction ns as [|n ns IH]; intros m; cbn [foldl].
  - intros [= ->]. split; [constructor|]. simpl. split; [intros; lia|lia].
  - destruct (file n) as [f|] eqn:Hf.
    + rewrite (count_type_Some m n f Hf). intros (H1 & H2 & H3)%IH.
      split; [constructor; [congruence|done]|]. split.
      * intros k. rewrite H2, lookup_add_count, filter_cons, Hf.
        destruct (decide (type_key f = k)) as [Heq|Hne];
          case_decide as Hd; simpl in *; try lia; exfalso.
        -- apply Hd. by rewrite Heq.
        -- congruence.
      * rewrite H3, total_add_count. simpl. lia.
    + unfold count_type at 2. rewrite Hf. cbn [mbind option_bind].
      by rewrite count_type_None.
Qed.

Lemma count_type_fold_total (ns : list node) (m : gmap jsstring nat) :
  Forall (λ n, file n ≠ None) ns → is_Some (foldl count_type (Some m) ns).
Proof.
  intros H. revert m.
  induction H as [|n ns Hn _ IH]; intros m; cbn [foldl]; [by eexists|].
  destruct (file n) as [f|] eqn:Hf; [|done].
  rewrite (count_type_Some m n f Hf). apply IH.
Qed.

Lemma count_type_fold_files (ns1 ns2 : list node) m :
  map file ns1 = map file ns2 →
  foldl count_type m ns1 = foldl count_type m ns2.
Proof.
  revert ns2 m. induction ns1 as [|n1 ns1 IH]; intros [|n2 ns2] m;
    try done.
  cbn [foldl map]. intros [= Hf Hrest].
  replace (count_type m n2) with (count_type m n1);
    [by apply IH|unfold count_type; by rewrite Hf].
Qed.

Lemma finish_Some a p :
  finish a = Some p →
  nodes p = acc_nodes a ∧ edges p = acc_edges a
  ∧ connectionCounts p = acc_counts a
  ∧ foldl count_type (Some ∅) (acc_nodes a) = Some (byType p).
Proof.
  unfold finish. intros H.
  destruct (foldl count_type (Some ∅) (acc_nodes a)) as [bt|]; [|done].
  simpl in H. injection H as <-. done.
Qed.

Lemma finish_total a :
  Forall (λ n, file n ≠ None) (acc_nodes a) → is_Some (finish a).
Proof.
  intros [bt Hbt]%(count_type_fold_total _ ∅).
  unfold finish. rewrite Hbt. by eexists.
Qed.

(** *** Nodes that import *)

Lemma importers_first_empty (seen : list (option jsstring)) (ns : list node) :
  Forall (λ n, imports n = []) ns → importers_first seen ns.
Proof.
  intros H. revert seen.
  induction H as [|n ns Hn _ IH]; intros seen; simpl; [done|].
  split; [by intros ?|apply IH].
Qed.

Lemma importers_first_NoDup (seen : list (option jsstring)) (ns : list node) :
  NoDup (map file ns) → (∀ f, f ∈ map file ns → f ∉ seen) →
  importers_first seen ns.
Proof.
  revert seen. induction ns as [|n ns IH]; intros seen; simpl; [done|].
  intros [Hn Hnd]%NoDup_cons Hseen. split.
  - intros _. apply Hseen. constructor.
  - apply IH; [done|]. intros f Hf [->|Hin]%elem_of_cons; [done|].
    revert Hin. apply Hseen. by constructor.
Qed.

Lemma push_import_files sf tf (ns : list node) :
  map file (push_import sf tf ns) = map file ns.
Proof.
  induction ns as [|n ns IH]; simpl; [done|].
  case_decide; simpl; [done|by rewrite IH].
Qed.

Lemma push_import_first (seen : list (option jsstring)) sf tf (ns : list node) :
  importers_first seen ns → sf ∉ seen →
  importers_first seen (push_import sf tf ns).
Proof.
  revert seen. induction ns as [|n ns IH]; intros seen; simpl; [done|].
  intros [Hn Hrest] Hsf. case_decide as Hd; simpl.
  - split; [intros _; by rewrite Hd|done].
  - split; [done|]. apply IH; [done|].
    intros [->|?]%elem_of_cons; done.
Qed.

Lemma importers_first_find (seen : list (option jsstring)) (ns : list node)
    (n : node) :
  importers_first seen ns → n ∈ ns → imports n ≠ [] →
  find (λ m, bool_decide (file m = file n)) ns = Some n ∧ file n ∉ seen.
Proof.
  revert seen. induction ns as [|m ns IH]; intros seen; simpl.
  - by intros _ ?%elem_of_nil.
  - intros [Hm Hrest] [->|Hin]%elem_of_cons Hne.
    + rewrite bool_decide_eq_true_2 by done. auto.
    + destruct (IH _ Hrest Hin Hne) as [Hfind Hseen].
      rewrite bool_decide_eq_false_2.
      * split; [done|]. intros ?. apply Hseen. by apply elem_of_cons; right.
      * intros Heq. apply Hseen. rewrite Heq. constructor.
Qed.

(** *** The loop over [data.edges] *)

Lemma process_edges_edges nm (a : acc) (es : list rawEdge) :
  acc_edges (foldl (process_edge nm) a es)
  = acc_edges a ++ map (edge_of nm) es.
Proof.
  revert a. induction es as [|e es IH]; intros a; cbn [foldl map].
  - by rewrite app_nil_r.
  - rewrite IH. simpl. by rewrite <-app_assoc.
Qed.

Lemma process_edge_files nm (a : acc) (e : rawEdge) :
  map file (acc_nodes (process_edge nm a e)) = map file (acc_nodes a).
Proof.
  unfold process_edge. cbn [acc_nodes].
  destruct (nodeMap_get nm (source e)) as [f|k]; [|done].
  destruct (end_truthy _); [apply push_import_files|done].
Qed.

Lemma process_edges_files nm (a : acc) (es : list rawEdge) :
  map file (acc_nodes (foldl (process_edge nm) a es)) = map file (acc_nodes a).
Proof.
  revert a. induction es as [|e es IH]; intros a; cbn [foldl]; [done|].
  by rewrite IH, process_edge_files.
Qed.

Lemma process_edges_first nm (a : acc) (es : list rawEdge) :
  importers_first [] (acc_nodes a) →
  importers_first [] (acc_nodes (foldl (process_edge nm) a es)).
Proof.
  revert a. induction es as [|e es IH]; intros a Ha; cbn [foldl]; [done|].
  apply IH. unfold process_edge. cbn [acc_nodes].
  destruct (nodeMap_get nm (source e)) as [f|k]; [|done].
  destruct (end_truthy _); [|done].
  apply push_import_first; [done|]. by intros ?%elem_of_nil.
Qed.

Lemma process_edge_counted nm (a : acc) (e : rawEdge) :
  counted (acc_counts a) (acc_edges a) →
  counted (acc_counts (process_edge nm a e)) (acc_edges (process_edge nm a e)).
Proof.
  intros [Ht Hn]. unfold process_edge. cbn [acc_counts acc_edges]. split.
  - by do 2 apply typed_add_connections.
  - intros k Hk.
    rewrite !number_at_add_connections
      by (try apply typed_add_connections; done).
    rewrite Hn, key_degree_app, key_degree_singleton by done. lia.
Qed.

Lemma process_edges_counted nm (a : acc) (es : list rawEdge) :
  counted (acc_counts a) (acc_edges a) →
  counted (acc_counts (foldl (process_edge nm) a es))
          (acc_edges (foldl (process_edge nm) a es)).
Proof.
  revert a. induction es as [|e es IH]; intros a Ha; cbn [foldl]; [done|].
  by apply IH, process_edge_counted.
Qed.

Lemma process_edges_plain nm (a : acc) (es : list rawEdge) :
  Forall (λ e, plain_end (from e) = true ∧ plain_end (to e) = true)
         (map (edge_of nm) es) →
  plain_counts (acc_counts a) →
  plain_counts (acc_counts (foldl (process_edge nm) a es)).
Proof.
  revert a. induction es as [|e es IH]; intros a Hes Ha; cbn [foldl]; [done|].
  cbn [map] in Hes. apply Forall_cons in Hes as [[Hs Ht] Hes].
  apply IH; [done|]. unfold process_edge. cbn [acc_counts].
  unfold plain_end in Hs, Ht. cbn [edge_of from to] in Hs, Ht.
  apply negb_true_iff in Hs, Ht.
  by do 2 (apply plain_counts_add_connections; [done|]).
Qed.

(** The branch for the backend format, as a whole. *)
Lemma process_backend_Some (ns : list rawNode) es (a : acc) :
  process_backend ns es = Some a →
  acc_edges a = map (edge_of (make_nodeMap ns)) (input_edges es)
  ∧ map file (acc_nodes a) = map file_of ns
  ∧ counted (acc_counts a) (acc_edges a)
  ∧ importers_first [] (acc_nodes a).
Proof.
  unfold process_backend. intros H.
  destruct (mapM make_node ns) as [nodes0|] eqn:Hn; [|done].
  simpl in H. injection H as <-.
  apply mapM_make_node in Hn as [Hfiles Himps].
  destruct es as [es|]; simpl.
  - split; [by rewrite process_edges_edges|].
    split; [by rewrite process_edges_files|].
    split; [apply process_edges_counted, counted_empty|].
    apply process_edges_first. by apply importers_first_empty.
  - split; [done|]. split; [done|]. split; [apply counted_empty|].
    by apply importers_first_empty.
Qed.

Lemma process_backend_total (ns : list rawNode) es :
  nodes_named ns → is_Some (process_backend ns es).
Proof.
  intros Hn. unfold process_backend.
  destruct (mapM_is_Some_2 make_node ns) as [nodes0 ->]; [|by eexists].
  eapply Forall_impl; [exact Hn|]. intros n. apply make_node_named.
Qed.

(** *** [processedData] on the backend format *)

Lemma processedData_backend (ns : list rawNode) es (p : processed) :
  processedData (DBackend ns es) = Some p →
  edges p = map (edge_of (make_nodeMap ns)) (input_edges es)
  ∧ map file (nodes p) = map file_of ns
  ∧ nodes_named ns
  ∧ counted (connectionCounts p) (edges p)
  ∧ importers_first [] (nodes p)
  ∧ (∀ k, default 0 (byType p !! k)
          = length (filter (λ n, type_key <$> file n = Some k) (nodes p)))
  ∧ total (byType p) = length (nodes p).
Proof.
  simpl. intros H.
  destruct (process_backend ns es) as [a|] eqn:Ha; [|done]. simpl in H.
  apply process_backend_Some in Ha as (He & Hf & Hc & Hi).
  apply finish_Some in H as (-> & -> & -> & Hbt).
  apply count_type_fold_inv in Hbt as (Hnamed & Hk & Ht).
  split; [done|]. split; [done|]. split.
  { unfold nodes_named. rewrite Forall_forall in Hnamed.
    apply Forall_forall. intros n Hn.
    assert (Hin : file_of n ∈ map file (acc_nodes a)).
    { rewrite Hf. apply list_elem_of_fmap. by exists n. }
    apply list_elem_of_fmap in Hin as (m & -> & Hm).
    by apply Hnamed. }
  split; [done|]. split; [done|]. split.
  - intros k. rewrite Hk, lookup_empty. simpl. lia.
  - rewrite Ht, total_empty. lia.
Qed.

Lemma processedData_backend_total (ns : list rawNode) es :
  nodes_named ns → is_Some (processedData (DBackend ns es)).
Proof.
  intros Hn. simpl.
  destruct (process_backend_total ns es Hn) as [a Ha]. rewrite Ha. simpl.
  apply finish_total.
  apply process_backend_Some in Ha as (_ & Hf & _).
  apply Forall_forall. intros m Hm.
  assert (Hin : file m ∈ map file_of ns).
  { rewrite <-Hf. apply list_elem_of_fmap. by exists m. }
  apply list_elem_of_fmap in Hin as (n & -> & Hin).
  unfold nodes_named in Hn. rewrite Forall_forall in Hn.
  by apply Hn.
Qed.

(** Scenario 1 of the specification, as the backend reports it: two
    modules, one connection. *)
Example processedData_scenario_1 :
  render_header
    (DBackend [RawNode (lit "a.py") (Some (lit "a.py")) None (Some (lit "py"));
               RawNode (lit "b.py") (Some (lit "b.py")) None (Some (lit "py"))]
              (Some [RawEdge (lit "a.py") (lit "b.py")]))
  = Some (StatsBar 2 1).
Proof. by vm_compute. Qed.

Example getFileExtension_examples :
  getFileExtension (lit "src/index.test.js") = lit ".js"
  ∧ getFileExtension (lit "Makefile") = []
  ∧ getFileExtension (lit "trailing.") = []
  ∧ getFileExtension (lit "dir.d/file") = lit ".d/file".
Proof. by vm_compute. Qed.

(** [connectionCounts] on names of prototype members: the first count is
    the member with a digit appended, and ['__proto__'] never gets one. *)
Example add_connections_examples :
  add_connections (lit "a.py") 1 (add_connections (lit "a.py") 1 ∅)
    !! lit "a.py" = Some (Num 2)
  ∧ add_connections (lit "toString") 1 (add_connections (lit "toString") 1 ∅)
      !! lit "toString"
    = Some (Text (lit "function toString() { [native code] }11"))
  ∧ add_connections (lit "__proto__") 1 ∅ = ∅.
Proof. by vm_compute. Qed.

(** The ends of the edges of a resolved input are files of nodes. *)
Lemma edge_of_resolved (ns : list rawNode) (es : list rawEdge) :
  plain_ids ns → edges_resolved ns es →
  Forall (λ e, from e ∈ map (λ n, Own (file_of n)) ns
               ∧ to e ∈ map (λ n, Own (file_of n)) ns)
         (map (edge_of (make_nodeMap ns)) es).
Proof.
  intros Hp H. apply Forall_fmap. eapply Forall_impl; [exact H|].
  intros e [Hs Ht]. simpl.
  split; apply nodeMap_get_resolved; eauto using resolved_plain.
Qed.

(** With distinct ids and distinct files, an end of a processed edge is a
    node's file exactly when the input edge names the node's id. *)
Lemma end_key_node (ns : list rawNode) (n : rawNode) (k : jsstring) :
  NoDup (map node_id ns) → NoDup (map file_of ns) → nodes_named ns →
  plain_ids ns → n ∈ ns → k ∈ map node_id ns →
  end_key (nodeMap_get (make_nodeMap ns) k) = to_key (file_of n)
  ↔ k = node_id n.
Proof.
  intros Hids Hfiles Hnamed Hplain Hn Hk.
  unfold nodes_named in Hnamed. rewrite Forall_forall in Hnamed. split.
  - destruct (make_nodeMap_lookup ns k Hk (resolved_plain ns k Hplain Hk))
      as (m & Hm & <- & Hl).
    unfold nodeMap_get. rewrite Hl. cbn [end_key]. intros Heq.
    f_equal. apply (NoDup_map_inj file_of ns); try done.
    pose proof (Hnamed m Hm). pose proof (Hnamed n Hn).
    destruct (file_of m), (file_of n); simpl in Heq; congruence.
  - intros ->. unfold nodeMap_get.
    rewrite make_nodeMap_lookup_NoDup; [done|done|done|].
    by apply (resolved_plain ns).
Qed.

End DependencyGraphFacts.

(** ** DependencyGraph.jsx: the claims about the backend format *)

(** C2, as stated, fails: an edge whose [target] is not the id of a node is
    put into the edge list all the same, with [undefined] as its [to]. *)
Lemma processedData_dangling_edge :
  ∃ p,
    DependencyGraph.processedData
      (DependencyGraph.DBackend
         [DependencyGraph.RawNode (lit "a") (Some (lit "a.py")) None None]
         (Some [DependencyGraph.RawEdge (lit "a") (lit "zzz")]))
    = Some p
    ∧ ∃ e, e ∈ DependencyGraph.edges p
           ∧ ¬ DependencyGraph.edge_in_graph (DependencyGraph.nodes p) e.
Proof.
  eexists. split; [by vm_compute|].
  exists (DependencyGraph.Edge (DependencyGraph.Own (Some (lit "a.py")))
                               (DependencyGraph.Own None)).
  split; [by vm_compute; constructor|].
  intros [_ H]. simpl in H. apply list_elem_of_singleton in H. discriminate.
Qed.

(** C2, amended: for an input in the backend format whose nodes have a
    [path] or a [name], none of them the id ['__proto__'], and whose edges
    have the ids of nodes as [source] and [target], [processedData]
    returns, and every edge of its edge list has a [from] and a [to] that
    are the file of a node of its node list. *)
Theorem processedData_edges_in_graph
    (ns : list DependencyGraph.rawNode)
    (es : option (list DependencyGraph.rawEdge)) :
  DependencyGraph.nodes_named ns →
  DependencyGraph.plain_ids ns →
  DependencyGraph.edges_resolved ns (DependencyGraph.input_edges es) →
  ∃ p, DependencyGraph.processedData (DependencyGraph.DBackend ns es) = Some p
       ∧ Forall (DependencyGraph.edge_in_graph (DependencyGraph.nodes p))
                (DependencyGraph.edges p).
Proof.
  intros Hn Hplain Hr.
  destruct (processedData_backend_total ns es Hn) as [p Hp].
  exists p. split; [done|].
  apply processedData_backend in Hp as (-> & Hf & _).
  unfold DependencyGraph.edge_in_graph.
  assert (Hmap : map (λ n, DependencyGraph.Own (DependencyGraph.file n))
                     (DependencyGraph.nodes p)
                 = map (λ n, DependencyGraph.Own (DependencyGraph.file_of n))
                       ns).
  { rewrite <-(map_map DependencyGraph.file DependencyGraph.Own), Hf.
    by rewrite map_map. }
  rewrite Hmap. by apply edge_of_resolved.
Qed.

Lemma processedData_edges_in_graph_witness :
  ∃ p,
    DependencyGraph.processedData
      (DependencyGraph.DBackend
         [DependencyGraph.RawNode (lit "a") (Some (lit "a.py")) None None;
          DependencyGraph.RawNode (lit "b") (Some (lit "b.py")) None None]
         (Some [DependencyGraph.RawEdge (lit "a") (lit "b")]))
    = Some p
    ∧ Forall (DependencyGraph.edge_in_graph (DependencyGraph.nodes p))
             (DependencyGraph.edges p).
Proof.
  apply (processedData_edges_in_graph
           [DependencyGraph.RawNode (lit "a") (Some (lit "a.py")) None None;
            DependencyGraph.RawNode (lit "b") (Some (lit "b.py")) None None]
           (Some [DependencyGraph.RawEdge (lit "a") (lit "b")])).
  - repeat constructor; by vm_compute.
  - apply (bool_decide_unpack _). by vm_compute.
  - repeat constructor; by vm_compute.
Defined.

(** C3, as stated, fails: [connectionCounts] is kept by file, so two nodes
    that share a file share one count, the sum of their degrees; and, the
    counts being held in a plain object, the count of a file named like a
    member of [Object.prototype] is not a number at all. *)
Lemma connectionCounts_not_degrees :
  (∃ p,
     DependencyGraph.processedData
       (DependencyGraph.DBackend
          [DependencyGraph.RawNode (lit "1") (Some (lit "a.py")) None None;
           DependencyGraph.RawNode (lit "2") (Some (lit "a.py")) None None]
          (Some [DependencyGraph.RawEdge (lit "1") (lit "2")]))
     = Some p
     ∧ DependencyGraph.connectionCount p (Some (lit "a.py"))
       = DependencyGraph.Num 2
     ∧ DependencyGraph.in_degree
         [DependencyGraph.RawEdge (lit "1") (lit "2")] (lit "1")
       + DependencyGraph.out_degree
           [DependencyGraph.RawEdge (lit "1") (lit "2")] (lit "1")
       = 1)
  ∧ (∃ p,
       DependencyGraph.processedData
         (DependencyGraph.DBackend
            [DependencyGraph.RawNode (lit "1") (Some (lit "constructor")) None
               None;
             DependencyGraph.RawNode (lit "2") (Some (lit "a.py")) None None]
            (Some [DependencyGraph.RawEdge (lit "1") (lit "2")]))
       = Some p
       ∧ DependencyGraph.connectionCount p (Some (lit "constructor"))
         = DependencyGraph.Text
             (lit "function Object() { [native code] }1")).
Proof.
  split; eexists; (split; [by vm_compute|]); by vm_compute.
Qed.

(** C3, amended: for an input in the backend format whose nodes have
    distinct ids, none of them ['__proto__'], and distinct files, none of
    them named like a member of [Object.prototype], and whose edges name
    node ids, [processedData] returns, with one node per input node; the
    connection count of every node's file is the number of input edges
    that have the node's id as [target] plus the number that have it as
    [source]; [byType] holds, for every key, the number of nodes whose
    extension (['.other'] when the file has none) is that key, and its
    values add up to the number of nodes. *)
Theorem connectionCounts_are_degrees
    (ns : list DependencyGraph.rawNode)
    (es : option (list DependencyGraph.rawEdge)) :
  NoDup (map DependencyGraph.node_id ns) →
  NoDup (map DependencyGraph.file_of ns) →
  DependencyGraph.nodes_named ns →
  DependencyGraph.plain_ids ns →
  DependencyGraph.plain_files ns →
  DependencyGraph.edges_resolved ns (DependencyGraph.input_edges es) →
  ∃ p, DependencyGraph.processedData (DependencyGraph.DBackend ns es) = Some p
       ∧ map DependencyGraph.file (DependencyGraph.nodes p)
         = map DependencyGraph.file_of ns
       ∧ (∀ n, n ∈ ns →
               DependencyGraph.connectionCount p (DependencyGraph.file_of n)
               = DependencyGraph.Num
                   (DependencyGraph.in_degree
                      (DependencyGraph.input_edges es)
                      (DependencyGraph.node_id n)
                    + DependencyGraph.out_degree
                        (DependencyGraph.input_edges es)
                        (DependencyGraph.node_id n)))
       ∧ (∀ k, default 0 (DependencyGraph.byType p !! k)
               = length (filter
                           (λ n, DependencyGraph.type_key
                                   <$> DependencyGraph.file_of n = Some k)
                           ns))
       ∧ DependencyGraph.total (DependencyGraph.byType p) = length ns.
Proof.
  intros Hids Hfiles Hn Hplain Hpf Hr.
  destruct (processedData_backend_total ns es Hn) as [p Hp].
  exists p. split; [done|].
  apply processedData_backend in Hp as (He & Hf & _ & [Ht Hc] & _ & Hk & Htot).
  split; [done|]. split; [|split].
  - intros n Hin.
    unfold DependencyGraph.plain_files in Hpf. rewrite Forall_forall in Hpf.
    rewrite connectionCount_plain by auto. f_equal.
    rewrite Hc by auto. rewrite He.
    unfold DependencyGraph.key_degree, DependencyGraph.in_degree,
      DependencyGraph.out_degree.
    rewrite !filter_map_length, Nat.add_comm.
    unfold DependencyGraph.edges_resolved in Hr. rewrite Forall_forall in Hr.
    f_equal; apply filter_length_ext; apply Forall_forall; intros e He';
      destruct (Hr e He') as [Hs Htg];
      cbn [DependencyGraph.edge_of DependencyGraph.from DependencyGraph.to];
      by apply end_key_node.
  - intros k. rewrite Hk.
    exact (filter_length_map DependencyGraph.file DependencyGraph.file_of
             (λ f, DependencyGraph.type_key <$> f = Some k) _ _ Hf).
  - rewrite Htot. apply (f_equal length) in Hf. by rewrite !length_map in Hf.
Qed.

Lemma connectionCounts_are_degrees_witness :
  ∃ p,
    DependencyGraph.processedData
      (DependencyGraph.DBackend
         [DependencyGraph.RawNode (lit "a") (Some (lit "a.py")) None None;
          DependencyGraph.RawNode (lit "b") (Some (lit "b.py")) None None;
          DependencyGraph.RawNode (lit "m") None (Some (lit "Makefile")) None]
         (Some [DependencyGraph.RawEdge (lit "a") (lit "b");
                DependencyGraph.RawEdge (lit "a") (lit "b");
                DependencyGraph.RawEdge (lit "b") (lit "b")]))
    = Some p
    ∧ DependencyGraph.connectionCount p (Some (lit "a.py"))
      = DependencyGraph.Num 2
    ∧ DependencyGraph.connectionCount p (Some (lit "b.py"))
      = DependencyGraph.Num 4
    ∧ DependencyGraph.connectionCount p (Some (lit "Makefile"))
      = DependencyGraph.Num 0.
Proof.
  destruct (connectionCounts_are_degrees
              [DependencyGraph.RawNode (lit "a") (Some (lit "a.py")) None None;
               DependencyGraph.RawNode (lit "b") (Some (lit "b.py")) None None;
               DependencyGraph.RawNode (lit "m") None (Some (lit "Makefile"))
                 None]
              (Some [DependencyGraph.RawEdge (lit "a") (lit "b");
                     DependencyGraph.RawEdge (lit "a") (lit "b");
                     DependencyGraph.RawEdge (lit "b") (lit "b")]))
    as (p & Hp & _ & Hc & _).
  - apply (bool_decide_unpack _). by vm_compute.
  - apply (bool_decide_unpack _). by vm_compute.
  - repeat constructor; by vm_compute.
  - apply (bool_decide_unpack _). by vm_compute.
  - repeat constructor; by vm_compute.
  - repeat constructor; by vm_compute.
  - exists p. split; [exact Hp|].
    split; [|split].
    + apply (Hc (DependencyGraph.RawNode (lit "a") (Some (lit "a.py")) None
                   None)).
      vm_compute. repeat constructor.
    + apply (Hc (DependencyGraph.RawNode (lit "b") (Some (lit "b.py")) None
                   None)).
      vm_compute. repeat constructor.
    + apply (Hc (DependencyGraph.RawNode (lit "m") None
                   (Some (lit "Makefile")) None)).
      vm_compute. repeat constructor.
Defined.

(** C4: for an input in the backend format (whose nodes have a [path] or a
    [name], so that [processedData] returns), the processed edge list is the
    input edge list mapped edge by edge, in order, duplicates included; it
    is as long as the input, and the number of connections the header shows,
    when there are nodes to show, is the number of input edges. *)
Theorem processedData_keeps_every_edge
    (ns : list DependencyGraph.rawNode)
    (es : option (list DependencyGraph.rawEdge)) :
  DependencyGraph.nodes_named ns →
  ∃ p, DependencyGraph.processedData (DependencyGraph.DBackend ns es) = Some p
       ∧ DependencyGraph.edges p
         = map (DependencyGraph.edge_of (DependencyGraph.make_nodeMap ns))
               (DependencyGraph.input_edges es)
       ∧ length (DependencyGraph.edges p)
         = length (DependencyGraph.input_edges es)
       ∧ DependencyGraph.render_header (DependencyGraph.DBackend ns es)
         = Some (if bool_decide (ns = [])
                 then DependencyGraph.NoDependencyData
                 else DependencyGraph.StatsBar
                        (length ns)
                        (length (DependencyGraph.input_edges es))).
Proof.
  intros Hn.
  destruct (processedData_backend_total ns es Hn) as [p Hp].
  exists p. split; [done|].
  unfold DependencyGraph.render_header. rewrite Hp.
  apply processedData_backend in Hp as (He & Hf & _).
  split; [done|]. split; [by rewrite He, length_map|].
  simpl. apply (f_equal length) in Hf. rewrite !length_map in Hf.
  by rewrite He, Hf, length_map.
Qed.

Lemma processedData_keeps_every_edge_witness :
  ∃ p,
    DependencyGraph.processedData
      (DependencyGraph.DBackend
         [DependencyGraph.RawNode (lit "a") (Some (lit "a.py")) None None;
          DependencyGraph.RawNode (lit "b") (Some (lit "b.py")) None None]
         (Some [DependencyGraph.RawEdge (lit "a") (lit "b");
                DependencyGraph.RawEdge (lit "a") (lit "b")]))
    = Some p
    ∧ DependencyGraph.edges p
      = [DependencyGraph.Edge (DependencyGraph.Own (Some (lit "a.py")))
                              (DependencyGraph.Own (Some (lit "b.py")));
         DependencyGraph.Edge (DependencyGraph.Own (Some (lit "a.py")))
                              (DependencyGraph.Own (Some (lit "b.py")))]
    ∧ DependencyGraph.render_header
        (DependencyGraph.DBackend
           [DependencyGraph.RawNode (lit "a") (Some (lit "a.py")) None None;
            DependencyGraph.RawNode (lit "b") (Some (lit "b.py")) None None]
           (Some [DependencyGraph.RawEdge (lit "a") (lit "b");
                  DependencyGraph.RawEdge (lit "a") (lit "b")]))
      = Some (DependencyGraph.StatsBar 2 2).
Proof.
  destruct (processedData_keeps_every_edge
              [DependencyGraph.RawNode (lit "a") (Some (lit "a.py")) None None;
               DependencyGraph.RawNode (lit "b") (Some (lit "b.py")) None None]
              (Some [DependencyGraph.RawEdge (lit "a") (lit "b");
                     DependencyGraph.RawEdge (lit "a") (lit "b")]))
    as (p & Hp & He & _ & Hh).
  - repeat constructor; by vm_compute.
  - exists p. split; [exact Hp|]. split; [|exact Hh].
    rewrite He. by vm_compute.
Defined.

(** ** DependencyGraph.jsx: the legacy format and the selection views *)

Section DependencyGraphLegacyFacts.
Import DependencyGraph.

(** The loop over the imports of one entry. *)
Lemma process_imports (f : jsstring) (imps : list jsstring) (a : acc) :
  let a' :=
    foldl (λ a imp,
             Acc (acc_nodes a)
                 (acc_edges a ++ [Edge (Own (Some f)) (Own (Some imp))])
                 (add_connections imp 1 (acc_counts a))) a imps in
  acc_nodes a' = acc_nodes a
  ∧ acc_edges a'
    = acc_edges a ++ map (λ imp, Edge (Own (Some f)) (Own (Some imp))) imps
  ∧ (typed (acc_counts a) →
     typed (acc_counts a')
     ∧ ∀ k, inherited k = false →
            number_at (acc_counts a') k
            = number_at (acc_counts a) k
              + length (filter (λ imp, imp = k) imps))
  ∧ (Forall (λ imp, inherited imp = false) imps →
     plain_counts (acc_counts a) → plain_counts (acc_counts a')).
Proof.
  revert a. induction imps as [|imp imps IH]; intros a; cbn [foldl map].
  - rewrite app_nil_r. split; [done|]. split; [done|]. split; [|done].
    intros Ht. split; [done|]. intros k _. rewrite filter_nil. simpl. lia.
  - destruct (IH (Acc (acc_nodes a)
                      (acc_edges a ++ [Edge (Own (Some f)) (Own (Some imp))])
                      (add_connections imp 1 (acc_counts a))))
      as (H1 & H2 & H3 & H4).
    cbn zeta in *. cbn [acc_nodes acc_edges acc_counts] in H1, H2, H3, H4.
    rewrite H1, H2.
    split; [done|]. split; [by rewrite <-app_assoc|]. split.
    + intros Ht.
      destruct (H3 (typed_add_connections imp 1 _ Ht)) as [Ht' Hn].
      split; [done|]. intros k Hk.
      rewrite Hn, number_at_add_connections, filter_cons by done.
      repeat case_decide; simplify_eq; simpl; lia.
    + intros [Himp Himps]%Forall_cons Hp. apply H4; [done|].
      by apply plain_counts_add_connections.
Qed.

Lemma key_degree_entry (f : jsstring) (imps : list jsstring) (k : jsstring) :
  key_degree (map (λ imp, Edge (Own (Some f)) (Own (Some imp))) imps) k
  = (if decide (f = k) then length imps else 0)
    + length (filter (λ imp, imp = k) imps).
Proof.
  unfold key_degree. induction imps as [|imp imps IH]; simpl.
  - by case_decide.
  - rewrite !filter_cons. simpl.
    repeat case_decide; simplify_eq; simpl in *; lia.
Qed.

Lemma process_entry_nodes (a : acc) (entry : jsstring * legacyValue) :
  acc_nodes (process_entry a entry) = acc_nodes a ++ entry_nodes entry.
Proof.
  destruct entry as [f [imps|]]; simpl; [|by rewrite app_nil_r].
  by destruct (process_imports f imps
                 (Acc (acc_nodes a
                       ++ [Node (Some f) (map (λ imp, Own (Some imp)) imps)
                                None None])
                      (acc_edges a)
                      (add_connections f (length imps) (acc_counts a))))
    as (-> & _).
Qed.

Lemma process_entry_edges (a : acc) (entry : jsstring * legacyValue) :
  acc_edges (process_entry a entry) = acc_edges a ++ entry_edges entry.
Proof.
  destruct entry as [f [imps|]]; simpl; [|by rewrite app_nil_r].
  by destruct (process_imports f imps
                 (Acc (acc_nodes a
                       ++ [Node (Some f) (map (λ imp, Own (Some imp)) imps)
                                None None])
                      (acc_edges a)
                      (add_connections f (length imps) (acc_counts a))))
    as (_ & -> & _).
Qed.

Lemma process_entry_counted (a : acc) (entry : jsstring * legacyValue) :
  counted (acc_counts a) (acc_edges a) →
  counted (acc_counts (process_entry a entry))
          (acc_edges (process_entry a entry)).
Proof.
  intros [Ht Hn]. rewrite process_entry_edges.
  destruct entry as [f [imps|]]; cbn [process_entry entry_edges].
  - destruct (process_imports f imps
                (Acc (acc_nodes a
                      ++ [Node (Some f) (map (λ imp, Own (Some imp)) imps)
                               None None])
                     (acc_edges a)
                     (add_connections f (length imps) (acc_counts a))))
      as (_ & _ & H3 & _).
    cbn zeta in H3. cbn [acc_counts] in H3.
    destruct (H3 (typed_add_connections f _ _ Ht)) as [Ht' Hn'].
    split; [done|]. intros k Hk.
    rewrite Hn', number_at_add_connections, Hn, key_degree_app,
      key_degree_entry by done.
    lia.
  - rewrite app_nil_r. by split.
Qed.

Lemma process_entry_plain (a : acc) (entry : jsstring * legacyValue) :
  plain_entry entry → plain_counts (acc_counts a) →
  plain_counts (acc_counts (process_entry a entry)).
Proof.
  destruct entry as [f [imps|]]; cbn [process_entry]; [|done].
  intros [Hf Himps] Hp. simpl in Hf, Himps.
  destruct (process_imports f imps
              (Acc (acc_nodes a
                    ++ [Node (Some f) (map (λ imp, Own (Some imp)) imps)
                             None None])
                   (acc_edges a)
                   (add_connections f (length imps) (acc_counts a))))
    as (_ & _ & _ & H4).
  cbn zeta in H4. cbn [acc_counts] in H4. apply H4; [done|].
  by apply plain_counts_add_connections.
Qed.

Lemma process_entries (a : acc) (entries : list (jsstring * legacyValue)) :
  let a' := foldl process_entry a entries in
  acc_nodes a' = acc_nodes a ++ concat (map entry_nodes entries)
  ∧ acc_edges a' = acc_edges a ++ concat (map entry_edges entries)
  ∧ (counted (acc_counts a) (acc_edges a) →
     counted (acc_counts a') (acc_edges a'))
  ∧ (Forall plain_entry entries → plain_counts (acc_counts a) →
     plain_counts (acc_counts a')).
Proof.
  revert a. induction entries as [|entry entries IH]; intros a;
    cbn [foldl map concat].
  - by rewrite !app_nil_r.
  - destruct (IH (process_entry a entry)) as (H1 & H2 & H3 & H4).
    cbn zeta in *.
    rewrite H1, process_entry_nodes, <-!app_assoc.
    split; [done|]. split; [by rewrite H2, process_entry_edges, <-!app_assoc|].
    split.
    + intros Ha. by apply H3, process_entry_counted.
    + intros [He Hes]%Forall_cons Hp. apply H4; [done|].
      by apply process_entry_plain.
Qed.

Lemma entry_nodes_files (entries : list (jsstring * legacyValue)) f :
  f ∈ map file (concat (map entry_nodes entries)) →
  ∃ k, f = Some k ∧ k ∈ map fst entries.
Proof.
  induction entries as [|[k v] entries IH]; simpl;
    [by intros ?%elem_of_nil|].
  rewrite map_app. intros [H|H]%elem_of_app.
  - destruct v as [imps|]; simpl in H; [|by apply elem_of_nil in H].
    apply list_elem_of_singleton in H. exists k. split; [done|constructor].
  - destruct (IH H) as (k' & -> & Hk'). exists k'.
    split; [done|by constructor].
Qed.

Lemma entry_nodes_NoDup (entries : list (jsstring * legacyValue)) :
  NoDup (map fst entries) →
  NoDup (map file (concat (map entry_nodes entries))).
Proof.
  induction entries as [|[k v] entries IH]; simpl; [constructor|].
  intros [Hk Hnd]%NoDup_cons. rewrite map_app. apply NoDup_app.
  split; [|split; [|by apply IH]].
  - destruct v; simpl; [apply NoDup_singleton|constructor].
  - intros f Hf (k' & -> & Hk')%entry_nodes_files.
    destruct v; simpl in Hf; [|by apply elem_of_nil in Hf].
    apply list_elem_of_singleton in Hf. by simplify_eq.
Qed.

(** The legacy branch, as a whole. *)
Lemma process_legacy (entries : list (jsstring * legacyValue)) :
  ∃ p, finish (foldl process_entry (Acc [] [] ∅) entries) = Some p
       ∧ nodes p = concat (map entry_nodes entries)
       ∧ edges p = concat (map entry_edges entries)
       ∧ counted (connectionCounts p) (edges p)
       ∧ foldl count_type (Some ∅) (nodes p) = Some (byType p)
       ∧ (Forall plain_entry entries → plain_counts (connectionCounts p)).
Proof.
  destruct (process_entries (Acc [] [] ∅) entries) as (Hn & He & Hc & Hpl).
  cbn zeta in *. simpl in Hn, He.
  destruct (finish_total (foldl process_entry (Acc [] [] ∅) entries))
    as [p Hp].
  { rewrite Hn. apply Forall_forall. intros n Hin.
    assert (Hf : file n ∈ map file (concat (map entry_nodes entries))).
    { apply list_elem_of_fmap. by exists n. }
    apply entry_nodes_files in Hf as (k & -> & _). done. }
  exists p. split; [done|].
  apply finish_Some in Hp as (-> & -> & -> & Hbt).
  split; [done|]. split; [done|]. split; [|split; [done|]].
  - apply Hc, counted_empty.
  - intros Hes. apply Hpl; [done|apply plain_counts_empty].
Qed.

(** In every format: the counts are the numbers of edge ends, by key, and a
    node with imports is the first of its file. *)
Lemma processedData_invariants (data : depsData) (p : processed) :
  well_formed data → processedData data = Some p →
  counted (connectionCounts p) (edges p)
  ∧ importers_first [] (nodes p).
Proof.
  intros Hwf Hp.
  assert (Hbackend : ∀ ns es,
             process_backend ns es ≫= finish = Some p →
             counted (connectionCounts p) (edges p)
             ∧ importers_first [] (nodes p)).
  { intros ns es H.
    apply (processedData_backend ns es p) in H as (_ & _ & _ & ? & ? & _).
    done. }
  destruct data as [|ns es|entries]; simpl in Hp.
  - injection Hp as <-. simpl. split; [apply counted_empty|done].
  - by apply (Hbackend ns es).
  - destruct (entry_get (lit "nodes") entries) as [[ns|]|] eqn:Hnodes;
      [by eapply Hbackend| |];
      destruct (process_legacy entries) as (q & Hq & Hn & He & Hc & _);
      rewrite Hq in Hp; injection Hp as <-;
      (split; [done|]); rewrite Hn;
      (apply importers_first_NoDup;
       [by apply entry_nodes_NoDup|intros ? _ ?%elem_of_nil; done]).
Qed.

End DependencyGraphLegacyFacts.

(** C9: for the processed graph of any input (an object's keys being
    distinct) and any two files [A] and [B] that can be selected (the empty
    string counts as no selection), [B] is among the imports shown when [A]
    is selected exactly when [A] is among the files listed as importing [B]
    when [B] is selected. *)
Theorem imports_and_importedBy_are_converses
    (data : DependencyGraph.depsData) (p : DependencyGraph.processed)
    (A B : jsstring) :
  DependencyGraph.well_formed data →
  DependencyGraph.processedData data = Some p →
  A ≠ [] → B ≠ [] →
  DependencyGraph.Own (Some B) ∈ DependencyGraph.selectedImports p (Some A)
  ↔ Some A ∈ DependencyGraph.selectedImportedBy p (Some B).
Proof.
  intros Hwf Hp HA HB.
  destruct (processedData_invariants data p Hwf Hp) as [_ Hfirst].
  unfold DependencyGraph.selectedImports, DependencyGraph.selectedImportedBy.
  destruct A as [|a A]; [done|]. destruct B as [|b B]; [done|]. simpl.
  split.
  - destruct (find _ (DependencyGraph.nodes p)) as [n|] eqn:Hfind;
      [|by intros ?%elem_of_nil].
    intros HB'. apply find_some in Hfind as [Hin Hfile].
    apply bool_decide_eq_true in Hfile. apply list_elem_of_In in Hin.
    apply list_elem_of_fmap. exists n. split; [done|].
    by apply list_elem_of_filter.
  - intros (n & Hfile & [HB' Hin]%list_elem_of_filter)%list_elem_of_fmap.
    destruct (importers_first_find [] _ n Hfirst Hin) as [Hfind _].
    { intros Hnil. rewrite Hnil in HB'. by apply elem_of_nil in HB'. }
    rewrite <-Hfile in Hfind. by rewrite Hfind.
Qed.

Lemma imports_and_importedBy_are_converses_witness :
  ∃ p,
    DependencyGraph.processedData
      (DependencyGraph.DLegacy
         [(lit "a.py", DependencyGraph.LImports [lit "b.py"]);
          (lit "b.py", DependencyGraph.LImports [])])
    = Some p
    ∧ (DependencyGraph.Own (Some (lit "b.py"))
         ∈ DependencyGraph.selectedImports p (Some (lit "a.py"))
       ↔ Some (lit "a.py")
         ∈ DependencyGraph.selectedImportedBy p (Some (lit "b.py"))).
Proof.
  eexists. split; [by vm_compute|].
  apply (imports_and_importedBy_are_converses
           (DependencyGraph.DLegacy
              [(lit "a.py", DependencyGraph.LImports [lit "b.py"]);
               (lit "b.py", DependencyGraph.LImports [])])).
  - apply (bool_decide_unpack _). by vm_compute.
  - by vm_compute.
  - done.
  - done.
Defined.

(** ** DependencyGraph.jsx: the two formats side by side *)

Section FormatsFacts.
Import DependencyGraph.

Lemma processedData_byType (data : depsData) (p : processed) :
  processedData data = Some p →
  foldl count_type (Some ∅) (nodes p) = Some (byType p).
Proof.
  assert (Hfinish : ∀ a, finish a = Some p →
                         foldl count_type (Some ∅) (nodes p) = Some (byType p)).
  { intros a (-> & _ & _ & H)%finish_Some. done. }
  assert (Hbackend : ∀ ns es, process_backend ns es ≫= finish = Some p →
             foldl count_type (Some ∅) (nodes p) = Some (byType p)).
  { intros ns es H. destruct (process_backend ns es) as [a|]; [|done].
    by apply (Hfinish a). }
  destruct data as [|ns es|entries]; simpl.
  - by intros [= <-].
  - apply Hbackend.
  - destruct (entry_get (lit "nodes") entries) as [[ns|]|];
      [apply Hbackend|apply Hfinish|apply Hfinish].
Qed.

Lemma entry_get_None (k : jsstring) (entries : list (jsstring * legacyValue)) :
  k ∉ map fst entries → entry_get k entries = None.
Proof.
  unfold entry_get. induction entries as [|[k' v] entries IH]; simpl; [done|].
  intros Hk. rewrite bool_decide_eq_false_2.
  - apply IH. intros ?. apply Hk. by constructor.
  - intros ->. apply Hk. constructor.
Qed.

Lemma filter_source_other (i j : jsstring) (es : list rawEdge) :
  j ≠ i →
  filter (λ e, source e = j) (filter (λ e, ¬ source e = i) es)
  = filter (λ e, source e = j) es.
Proof.
  intros Hne. apply list_filter_filter_l. intros e -> ?. done.
Qed.

(** The edges, grouped by the node they leave. *)
Lemma group_by_source (ids : list jsstring) (es : list rawEdge) :
  NoDup ids → Forall (λ e, source e ∈ ids) es →
  concat (map (λ i, filter (λ e, source e = i) es) ids) ≡ₚ es.
Proof.
  intros Hnd. revert es.
  induction Hnd as [|i ids Hi _ IH]; intros es Hes; simpl.
  - destruct Hes as [|e es He _]; [done|]. by apply elem_of_nil in He.
  - etransitivity;
      [|apply (filter_app_complement (λ e, source e = i) es)].
    apply Permutation_app_head.
    assert (Heq : map (λ j, filter (λ e, source e = j) es) ids
                  = map (λ j, filter (λ e, source e = j)
                                (filter (λ e, ¬ source e = i) es)) ids).
    { apply map_ext_in. intros j Hj%list_elem_of_In. symmetry.
      apply filter_source_other. by intros ->. }
    rewrite Heq. apply IH.
    apply Forall_forall. intros e [Hne He]%list_elem_of_filter.
    rewrite Forall_forall in Hes.
    specialize (Hes e He). apply elem_of_cons in Hes as [?|?]; done.
Qed.

Lemma nodeMap_get_defined (ns : list rawNode) (k : jsstring) :
  nodes_named ns → plain_ids ns → k ∈ map node_id ns →
  nodeMap_get (make_nodeMap ns) k
  = Own (Some (end_key (nodeMap_get (make_nodeMap ns) k))).
Proof.
  intros Hn Hp Hk.
  pose proof (nodeMap_get_resolved ns k Hk (resolved_plain ns k Hp Hk))
    as (n & Heq & Hin)%list_elem_of_fmap.
  unfold nodes_named in Hn. rewrite Forall_forall in Hn.
  specialize (Hn n Hin). rewrite Heq.
  by destruct (file_of n).
Qed.

(** The edges one entry of [to_legacy] stands for. *)
Lemma to_legacy_entry_edges (ns : list rawNode) (es : list rawEdge)
    (n : rawNode) :
  NoDup (map node_id ns) → nodes_named ns → plain_ids ns →
  edges_resolved ns es → n ∈ ns →
  map (λ imp, Edge (Own (Some (to_key (file_of n)))) (Own (Some imp)))
      (imports_of (make_nodeMap ns) es (node_id n))
  = map (edge_of (make_nodeMap ns)) (filter (λ e, source e = node_id n) es).
Proof.
  intros Hnd Hn Hp Hr Hin. unfold imports_of. rewrite map_map.
  apply map_ext_in. intros e [Hs He]%list_elem_of_In%list_elem_of_filter.
  unfold edges_resolved in Hr. rewrite Forall_forall in Hr.
  destruct (Hr e He) as [_ Ht].
  unfold edge_of. rewrite <-(nodeMap_get_defined ns (target e)) by done.
  f_equal. unfold nodeMap_get at 1.
  rewrite Hs, (make_nodeMap_lookup_NoDup ns n); [|done|done|].
  - unfold nodes_named in Hn. rewrite Forall_forall in Hn.
    specialize (Hn n Hin). by destruct (file_of n).
  - apply (resolved_plain ns); [done|]. apply list_elem_of_fmap. by exists n.
Qed.

Lemma to_legacy_nodes (nm : gmap jsstring (option jsstring))
    (es : list rawEdge) (ns : list rawNode) :
  concat (map entry_nodes
            (map (λ n, (to_key (file_of n),
                        LImports (imports_of nm es (node_id n)))) ns))
  = map (λ n, Node (Some (to_key (file_of n)))
                   (map (λ imp, Own (Some imp))
                        (imports_of nm es (node_id n))) None None) ns.
Proof. induction ns as [|n ns IH]; simpl; [done|by rewrite IH]. Qed.

Lemma to_legacy_edges (nm : gmap jsstring (option jsstring))
    (es : list rawEdge) (ns : list rawNode) :
  concat (map entry_edges
            (map (λ n, (to_key (file_of n),
                        LImports (imports_of nm es (node_id n)))) ns))
  = concat (map (λ n, map (λ imp, Edge (Own (Some (to_key (file_of n))))
                                       (Own (Some imp)))
                          (imports_of nm es (node_id n))) ns).
Proof. induction ns as [|n ns IH]; simpl; [done|by rewrite IH]. Qed.

Lemma concat_map_map {X Y Z : Type} (f : Y → Z) (g : X → list Y)
    (l : list X) :
  concat (map (λ x, map f (g x)) l) = map f (concat (map g l)).
Proof.
  induction l as [|x l IH]; simpl; [done|]. by rewrite IH, map_app.
Qed.

(** [byType] does not depend on the order of the nodes. *)
Lemma add_count_comm (k1 k2 : jsstring) (m : gmap jsstring nat) :
  add_count k1 1 (add_count k2 1 m) = add_count k2 1 (add_count k1 1 m).
Proof.
  destruct (decide (k1 = k2)) as [->|Hne]; [done|].
  unfold add_count.
  rewrite (lookup_insert_ne m k2 k1), (lookup_insert_ne m k1 k2) by done.
  by apply insert_insert_ne.
Qed.

Lemma count_type_comm (m : option (gmap jsstring nat)) (n1 n2 : node) :
  count_type (count_type m n1) n2 = count_type (count_type m n2) n1.
Proof.
  destruct m as [m|]; [|done].
  destruct (file n1) as [f1|] eqn:H1, (file n2) as [f2|] eqn:H2.
  - rewrite (count_type_Some m n1 f1 H1), (count_type_Some m n2 f2 H2).
    rewrite (count_type_Some _ n2 f2 H2), (count_type_Some _ n1 f1 H1).
    by rewrite add_count_comm.
  - unfold count_type. rewrite H1, H2. simpl. done.
  - unfold count_type. rewrite H1, H2. simpl. done.
  - unfold count_type. rewrite H1, H2. simpl. done.
Qed.

Lemma count_type_fold_Permutation (ns1 ns2 : list node)
    (m : option (gmap jsstring nat)) :
  ns1 ≡ₚ ns2 → foldl count_type m ns1 = foldl count_type m ns2.
Proof.
  intros H. revert m.
  induction H as [|n ns1 ns2 _ IH|n1 n2 ns|ns1 ns2 ns3 _ IH1 _ IH2];
    intros m; cbn [foldl].
  - done.
  - apply IH.
  - by rewrite count_type_comm.
  - by rewrite IH1.
Qed.

(** Under the conditions of the comparison every end of a processed edge
    is the file of a node, and no name of a prototype member. *)
Lemma resolved_plain_ends (ns : list rawNode) (es : list rawEdge) :
  plain_ids ns → plain_files ns → edges_resolved ns es →
  Forall (λ e, plain_end (from e) = true ∧ plain_end (to e) = true)
         (map (edge_of (make_nodeMap ns)) es).
Proof.
  intros Hp Hf Hr. eapply Forall_impl; [by apply edge_of_resolved|].
  unfold plain_files in Hf. rewrite Forall_forall in Hf.
  intros e [(n & -> & Hn)%list_elem_of_fmap (m & -> & Hm)%list_elem_of_fmap].
  unfold plain_end. cbn [end_key]. by rewrite (Hf n Hn), (Hf m Hm).
Qed.

Lemma processedData_backend_plain (ns : list rawNode) es (p : processed) :
  processedData (DBackend ns es) = Some p →
  Forall (λ e, plain_end (from e) = true ∧ plain_end (to e) = true)
         (map (edge_of (make_nodeMap ns)) (input_edges es)) →
  plain_counts (connectionCounts p).
Proof.
  simpl. intros H Hes.
  destruct (process_backend ns es) as [a|] eqn:Ha; [|done]. simpl in H.
  apply finish_Some in H as (_ & _ & -> & _).
  unfold process_backend in Ha.
  destruct (mapM make_node ns) as [nodes0|]; [|done].
  simpl in Ha. injection Ha as <-.
  destruct es as [es|]; [|apply plain_counts_empty].
  apply process_edges_plain; [done|apply plain_counts_empty].
Qed.

Lemma to_legacy_plain (ns : list rawNode) (es : list rawEdge) :
  plain_ids ns → plain_files ns → edges_resolved ns es →
  Forall plain_entry (to_legacy ns es).
Proof.
  intros Hp Hf Hr. unfold to_legacy. apply Forall_fmap.
  pose proof (resolved_plain_ends ns es Hp Hf Hr) as Hends.
  rewrite Forall_fmap in Hends.
  unfold plain_files in Hf.
  eapply Forall_impl; [exact Hf|]. intros n Hn. split; [done|].
  cbn [snd]. unfold imports_of. apply Forall_fmap.
  apply Forall_forall. intros e [_ He]%list_elem_of_filter.
  rewrite Forall_forall in Hends. destruct (Hends e He) as [_ Ht].
  unfold plain_end in Ht. cbn [compose edge_of to] in Ht.
  by apply negb_true_iff in Ht.
Qed.

End FormatsFacts.

(** C8, as stated, fails: for a node without edges the backend branch
    leaves [connectionCounts] without an entry for its file, and the legacy
    branch stores a [0] there, so the two mappings differ. *)
Lemma formats_differ_on_isolated_node :
  ∃ p q,
    DependencyGraph.processedData
      (DependencyGraph.DBackend
         [DependencyGraph.RawNode (lit "a") (Some (lit "a.py")) None None]
         (Some []))
    = Some p
    ∧ DependencyGraph.processedData
        (DependencyGraph.DLegacy
           (DependencyGraph.to_legacy
              [DependencyGraph.RawNode (lit "a") (Some (lit "a.py")) None None]
              []))
      = Some q
    ∧ DependencyGraph.connectionCounts p !! lit "a.py" = None
    ∧ DependencyGraph.connectionCounts q !! lit "a.py"
      = Some (DependencyGraph.Num 0)
    ∧ DependencyGraph.connectionCounts p ≠ DependencyGraph.connectionCounts q.
Proof.
  eexists _, _. split; [by vm_compute|]. split; [by vm_compute|].
  split; [by vm_compute|]. split; [by vm_compute|].
  intros H.
  apply (f_equal (λ m : gmap jsstring DependencyGraph.count,
                    m !! lit "a.py")) in H.
  by vm_compute in H.
Qed.

(** C8, amended: take a graph in the backend format whose node ids are
    distinct, none of them ['__proto__'], whose nodes have distinct files,
    none of them called [nodes] or like a member of [Object.prototype], and
    whose edges name node ids; and take the entries, in whatever order the
    object hands them out, of the legacy mapping that describes it.
    [processedData] returns on both, with the same node files and the same
    edges up to their order, the same connection count for every file (a
    missing entry read as 0, the way the component reads it) and the same
    [byType]. *)
Theorem formats_agree
    (ns : list DependencyGraph.rawNode) (es : list DependencyGraph.rawEdge)
    (entries : list (jsstring * DependencyGraph.legacyValue)) :
  NoDup (map DependencyGraph.node_id ns) →
  NoDup (map DependencyGraph.file_of ns) →
  DependencyGraph.nodes_named ns →
  DependencyGraph.plain_ids ns →
  DependencyGraph.plain_files ns →
  DependencyGraph.edges_resolved ns es →
  Some (lit "nodes") ∉ map DependencyGraph.file_of ns →
  entries ≡ₚ DependencyGraph.to_legacy ns es →
  ∃ p q,
    DependencyGraph.processedData (DependencyGraph.DBackend ns (Some es))
    = Some p
    ∧ DependencyGraph.processedData (DependencyGraph.DLegacy entries)
      = Some q
    ∧ map DependencyGraph.file (DependencyGraph.nodes p)
      ≡ₚ map DependencyGraph.file (DependencyGraph.nodes q)
    ∧ DependencyGraph.edges p ≡ₚ DependencyGraph.edges q
    ∧ (∀ f, DependencyGraph.connectionCount p f
            = DependencyGraph.connectionCount q f)
    ∧ DependencyGraph.byType p = DependencyGraph.byType q.
Proof.
  intros Hids Hfiles Hn Hplain Hpf Hr Hnodes Hperm.
  destruct (processedData_backend_total ns (Some es) Hn) as [p Hp].
  destruct (process_legacy entries)
    as (q & Hq & Hqn & Hqe & [Hqt Hqc] & Hqb & Hqp).
  exists p, q. split; [done|].
  assert (Hlegacy : DependencyGraph.processedData
                      (DependencyGraph.DLegacy entries) = Some q).
  { simpl. rewrite entry_get_None; [done|]. rewrite Hperm.
    unfold DependencyGraph.to_legacy. rewrite map_map. simpl.
    intros (n & Heq & Hin)%list_elem_of_fmap. apply Hnodes.
    apply list_elem_of_fmap. exists n. split; [|done].
    unfold DependencyGraph.nodes_named in Hn. rewrite Forall_forall in Hn.
    specialize (Hn n Hin). destruct (DependencyGraph.file_of n); [|done].
    simpl in Heq. by rewrite Heq. }
  split; [done|].
  pose proof (processedData_byType _ _ Hp) as Hpb.
  pose proof (processedData_backend_plain _ _ _ Hp
                (resolved_plain_ends ns es Hplain Hpf Hr)) as Hpp.
  apply processedData_backend in Hp as (Hpe & Hpf' & _ & [Hpt Hpc] & _).
  assert (Hfiles_legacy :
            map DependencyGraph.file (DependencyGraph.nodes p)
            = map DependencyGraph.file
                (concat (map DependencyGraph.entry_nodes
                           (DependencyGraph.to_legacy ns es)))).
  { rewrite Hpf'. unfold DependencyGraph.to_legacy.
    rewrite to_legacy_nodes, map_map. simpl. apply map_ext_in.
    intros n Hin%list_elem_of_In.
    unfold DependencyGraph.nodes_named in Hn. rewrite Forall_forall in Hn.
    specialize (Hn n Hin). by destruct (DependencyGraph.file_of n). }
  assert (Hnodes_perm :
            concat (map DependencyGraph.entry_nodes
                      (DependencyGraph.to_legacy ns es))
            ≡ₚ DependencyGraph.nodes q).
  { rewrite Hqn. symmetry. by apply concat_map_Permutation. }
  assert (Hsame_edges : DependencyGraph.edges p ≡ₚ DependencyGraph.edges q).
  { rewrite Hpe, Hqe.
    rewrite (concat_map_Permutation DependencyGraph.entry_edges _ _ Hperm).
    unfold DependencyGraph.to_legacy.
    rewrite to_legacy_edges. simpl.
    assert (Heq :
      map (λ n, map (λ imp, DependencyGraph.Edge
                              (DependencyGraph.Own
                                 (Some (DependencyGraph.to_key
                                          (DependencyGraph.file_of n))))
                              (DependencyGraph.Own (Some imp)))
                    (DependencyGraph.imports_of
                       (DependencyGraph.make_nodeMap ns) es
                       (DependencyGraph.node_id n))) ns
      = map (λ n, map (DependencyGraph.edge_of (DependencyGraph.make_nodeMap ns))
                      (filter (λ e, DependencyGraph.source e
                                    = DependencyGraph.node_id n) es)) ns).
    { apply map_ext_in. intros n Hin%list_elem_of_In.
      by apply to_legacy_entry_edges. }
    rewrite Heq.
    rewrite (concat_map_map
               (DependencyGraph.edge_of (DependencyGraph.make_nodeMap ns))
               (λ n, filter (λ e, DependencyGraph.source e
                                  = DependencyGraph.node_id n) es)).
    apply Permutation_map. symmetry.
    assert (Hids' :
      map (λ n, filter (λ e, DependencyGraph.source e
                             = DependencyGraph.node_id n) es) ns
      = map (λ i, filter (λ e, DependencyGraph.source e = i) es)
            (map DependencyGraph.node_id ns)) by (by rewrite map_map).
    rewrite Hids'. apply group_by_source; [done|].
    eapply Forall_impl; [exact Hr|]. by intros e [? _]. }
  split; [by rewrite Hfiles_legacy, Hnodes_perm|].
  split; [done|]. split.
  - intros f.
    destruct (DependencyGraph.inherited (DependencyGraph.to_key f)) eqn:Hf.
    + rewrite !connectionCount_member; try done.
      apply Hqp. rewrite Hperm. by apply to_legacy_plain.
    + rewrite !connectionCount_plain by done. f_equal.
      rewrite Hpc, Hqc by done. by apply key_degree_Permutation.
  - assert (Some (DependencyGraph.byType p) = Some (DependencyGraph.byType q))
      as [= ->]; [|done].
    rewrite <-Hpb, <-Hqb.
    rewrite (count_type_fold_files _ _ _ Hfiles_legacy).
    by apply count_type_fold_Permutation.
Qed.

Lemma formats_agree_witness :
  ∃ p q,
    DependencyGraph.processedData
      (DependencyGraph.DBackend
         [DependencyGraph.RawNode (lit "a") (Some (lit "a.py")) None None;
          DependencyGraph.RawNode (lit "7") (Some (lit "7")) None None]
         (Some [DependencyGraph.RawEdge (lit "a") (lit "7");
                DependencyGraph.RawEdge (lit "a") (lit "7")]))
    = Some p
    ∧ DependencyGraph.processedData
        (DependencyGraph.DLegacy
           [(lit "7", DependencyGraph.LImports []);
            (lit "a.py", DependencyGraph.LImports [lit "7"; lit "7"])])
      = Some q
    ∧ map DependencyGraph.file (DependencyGraph.nodes p)
      ≡ₚ map DependencyGraph.file (DependencyGraph.nodes q)
    ∧ DependencyGraph.edges p ≡ₚ DependencyGraph.edges q
    ∧ (∀ f, DependencyGraph.connectionCount p f
            = DependencyGraph.connectionCount q f)
    ∧ DependencyGraph.byType p = DependencyGraph.byType q.
Proof.
  apply (formats_agree
           [DependencyGraph.RawNode (lit "a") (Some (lit "a.py")) None None;
            DependencyGraph.RawNode (lit "7") (Some (lit "7")) None None]
           [DependencyGraph.RawEdge (lit "a") (lit "7");
            DependencyGraph.RawEdge (lit "a") (lit "7")]).
  - apply (bool_decide_unpack _). by vm_compute.
  - apply (bool_decide_unpack _). by vm_compute.
  - repeat constructor; by vm_compute.
  - apply (bool_decide_unpack _). by vm_compute.
  - repeat constructor; by vm_compute.
  - repeat constructor; by vm_compute.
  - apply (bool_decide_unpack _). by vm_compute.
  - vm_compute. apply perm_swap.
Defined.

(** ** FileTree.jsx and Report.jsx: the two counters *)

Section TreeFacts.

Lemma FileTreeNode_induction (P : FileTreeNode → Prop) :
  (∀ type, P (TreeNode type None)) →
  (∀ type children, Forall P children → P (TreeNode type (Some children))) →
  ∀ n, P n.
Proof.
  intros Hleaf Hnode. fix IH 1. intros [type [children|]].
  - apply Hnode. induction children as [|c children IHc]; constructor.
    + apply IH.
    + apply IHc.
  - apply Hleaf.
Qed.

(** The [forEach] over the children adds up what the children count. *)
Lemma fold_children (count : FileTreeNode → stats)
    (children : list FileTreeNode) (acc : stats) :
  fold_left
    (λ stats child,
       let childStats := count child in
       Stats (files stats + files childStats)
             (folders stats + folders childStats))
    children acc
  = Stats (files acc + list_sum (map (λ c, files (count c)) children))
          (folders acc + list_sum (map (λ c, folders (count c)) children)).
Proof.
  revert acc. induction children as [|c children IH]; intros acc; simpl.
  - destruct acc. simpl. f_equal; lia.
  - rewrite IH. simpl. f_equal; lia.
Qed.

Lemma list_sum_ext {X : Type} (f g : X → nat) (l : list X) :
  Forall (λ x, f x = g x) l → list_sum (map f l) = list_sum (map g l).
Proof. induction 1 as [|x l Hx _ IH]; simpl; [done|]. by rewrite Hx, IH. Qed.

Lemma FileTreeValue_induction (P : FileTreeValue → Prop) :
  P Nullish →
  (∀ truthy, P (Other truthy)) →
  (∀ type, P (TreeObject type NoChildren)) →
  (∀ type, P (TreeObject type NotAnArray)) →
  (∀ type items, Forall P items → P (TreeObject type (Children items))) →
  ∀ v, P v.
Proof.
  intros Hnull Hother Hnone Hnot Hitems. fix IH 1.
  intros [|truthy|type [| |items]]; [done|done|done|done|].
  apply Hitems. induction items as [|c items IHc]; constructor.
  - apply IH.
  - apply IHc.
Qed.

Lemma fold_add_child_ext {X : Type} (f g : X → option stats)
    (items : list X) (acc : option stats) :
  Forall (λ c, f c = g c) items →
  fold_left (λ stats child, add_child stats (f child)) items acc
  = fold_left (λ stats child, add_child stats (g child)) items acc.
Proof.
  intros H. revert acc.
  induction H as [|c items Hc _ IH]; intros acc; simpl; [done|].
  by rewrite Hc, IH.
Qed.

(** On the values that are nodes, the counter on values is the counter on
    nodes. *)
Lemma countFiles_value_of_node (n : FileTreeNode) :
  FileTree.countFiles_value (of_node n) = Some (FileTree.countFiles n).
Proof.
  induction n as [type|type children IH] using FileTreeNode_induction.
  - simpl. rewrite (bool_decide_ext (Some type = Some (lit "file"))
                      (type = lit "file")) by naive_solver.
    by case_bool_decide.
  - cbn [of_node FileTree.countFiles_value FileTree.countFiles].
    rewrite (bool_decide_ext (Some type = Some (lit "file"))
               (type = lit "file")) by naive_solver.
    case_bool_decide; [done|].
    generalize (Stats 0 1). induction IH as [|c children Hc _ IHc];
      intros acc; simpl; [done|].
    rewrite Hc. simpl. apply IHc.
Qed.

Lemma truthy_entries_of_node (n : FileTreeNode) :
  truthy_entries (of_node n) = true.
Proof.
  induction n as [type|type children IH] using FileTreeNode_induction;
    [done|].
  simpl. apply forallb_forall. intros v (c & <- & Hc)%in_map_iff.
  rewrite Forall_forall in IH. by apply IH, list_elem_of_In.
Qed.

End TreeFacts.

(** C5: for a file tree of the data model's shape (a node of type ['file']
    has no children), [countFiles] of FileTree.jsx returns as [files] the
    number of nodes of type ['file'] in the tree and as [folders] the number
    of nodes of any other type.  It is a function of the tree alone: equal
    trees give equal pairs. *)
Theorem countFiles_counts (n : FileTreeNode) :
  files_are_leaves n = true →
  FileTree.countFiles n
  = Stats (count_nodes is_file n) (count_nodes (λ type, negb (is_file type)) n)
  ∧ ∀ m, m = n → FileTree.countFiles m = FileTree.countFiles n.
Proof.
  intros Hn. split; [|by intros m ->]. revert Hn.
  induction n as [type|type children IH] using FileTreeNode_induction.
  - intros _. simpl. unfold is_file. by case_bool_decide.
  - cbn [files_are_leaves FileTree.countFiles count_nodes].
    intros [Hleaf Hchildren]%andb_true_iff. unfold is_file in *.
    case_bool_decide as Htype; simpl in *.
    + apply bool_decide_eq_true in Hleaf. by subst children.
    + rewrite fold_children. simpl.
      f_equal; [|f_equal]; apply list_sum_ext; rewrite Forall_forall in IH;
        apply Forall_forall; intros c Hc; rewrite IH; try done;
        rewrite forallb_forall in Hchildren;
        by apply Hchildren, list_elem_of_In.
Qed.

Lemma countFiles_counts_witness :
  FileTree.countFiles
    (TreeNode (lit "folder")
       (Some [TreeNode (lit "file") None;
              TreeNode (lit "folder") (Some [TreeNode (lit "file") (Some [])]);
              TreeNode (lit "folder") None]))
  = Stats 2 3.
Proof.
  destruct (countFiles_counts
              (TreeNode (lit "folder")
                 (Some [TreeNode (lit "file") None;
                        TreeNode (lit "folder")
                          (Some [TreeNode (lit "file") (Some [])]);
                        TreeNode (lit "folder") None]))) as [H _].
  - by vm_compute.
  - rewrite H. by vm_compute.
Defined.

(** C10, as stated, fails: the two functions differ where an entry of a
    children array is falsy.  On [null] there FileTree's throws a TypeError
    and Report's returns; a [0] there FileTree's counts as a folder and
    Report's does not count. *)
Lemma Report_countFiles_differs_on_falsy_child :
  FileTree.countFiles_value
    (TreeObject (Some (lit "folder")) (Children [Nullish])) = None
  ∧ Report.countFiles
      (TreeObject (Some (lit "folder")) (Children [Nullish]))
    = Some (Stats 0 1)
  ∧ FileTree.countFiles_value
      (TreeObject (Some (lit "folder")) (Children [Other false]))
    = Some (Stats 0 2)
  ∧ Report.countFiles
      (TreeObject (Some (lit "folder")) (Children [Other false]))
    = Some (Stats 0 1).
Proof. by vm_compute. Qed.

(** C10, amended: on every value in which no entry of a children array is
    falsy, [countFiles] of Report.jsx does what [countFiles] of FileTree.jsx
    does: it returns the same pair, or throws as well.  On a node of the
    data model that is the pair C5 describes.  On [null] Report's returns
    [{ files: 0, folders: 0 }]. *)
Theorem Report_countFiles_agrees (v : FileTreeValue) :
  truthy_entries v = true →
  Report.countFiles v = FileTree.countFiles_value v
  ∧ (∀ n, v = of_node n → Report.countFiles v = Some (FileTree.countFiles n))
  ∧ Report.countFiles Nullish = Some (Stats 0 0).
Proof.
  intros Hv.
  assert (Hsame : Report.countFiles v = FileTree.countFiles_value v).
  { revert Hv.
    induction v as [|truthy|type|type|type items IH]
      using FileTreeValue_induction; simpl.
    - done.
    - by intros ->.
    - done.
    - done.
    - intros Hitems. case_bool_decide; [done|].
      apply fold_add_child_ext. rewrite forallb_forall in Hitems.
      rewrite Forall_forall in IH. apply Forall_forall.
      intros c Hc. apply IH; [done|]. by apply Hitems, list_elem_of_In. }
  split; [done|]. split; [|done].
  intros n ->. rewrite Hsame. apply countFiles_value_of_node.
Qed.

Lemma Report_countFiles_agrees_witness :
  Report.countFiles
    (TreeObject (Some (lit "folder"))
       (Children [TreeObject (Some (lit "file")) NoChildren; Other true;
                  TreeObject None (Children [])]))
  = Some (Stats 1 3)
  ∧ FileTree.countFiles_value
      (TreeObject (Some (lit "folder"))
         (Children [TreeObject (Some (lit "file")) NoChildren; Other true;
                    TreeObject None (Children [])]))
    = Some (Stats 1 3).
Proof.
  destruct (Report_countFiles_agrees
              (TreeObject (Some (lit "folder"))
                 (Children [TreeObject (Some (lit "file")) NoChildren;
                            Other true; TreeObject None (Children [])])))
    as (H & _ & _).
  - by vm_compute.
  - rewrite <-H. by vm_compute.
Defined.

(** A node of type ['file'] that has children is outside the data model;
    [countFiles] does not look at its children. *)
Example countFiles_skips_children_of_a_file :
  FileTree.countFiles
    (TreeNode (lit "file") (Some [TreeNode (lit "file") None]))
  = Stats 1 0.
Proof. by vm_compute. Qed.

(** ** AIDetection.jsx *)

Section AIDetectionFacts.
Import AIDetection.
Variable coerce : jsval → number.



















End AIDetectionFacts.




(* ===================================================================== *)
(** * Further properties *)
(* ===================================================================== *)

(** ** App.jsx *)

(** X1: [validateRepoFormat] accepts exactly the strings that, trimmed, are
    [http] or [https], then [://github.com/], a non-empty owner over
    [[a-zA-Z0-9_-]], a slash, and a non-empty repository over
    [[a-zA-Z0-9_.-]].  (The optional [.git] of the pattern adds nothing: the
    repository class already covers it.) *)
Theorem validateRepoFormat_exactly (url : jsstring) :
  App.validateRepoFormat url = true
  ↔ ∃ sch owner repo,
      trim url = sch ++ lit "://github.com/" ++ owner ++ chr "/" :: repo
      ∧ (sch = lit "http" ∨ sch = lit "https")
      ∧ owner ≠ [] ∧ Forall (λ c, App.ownerClass c = true) owner
      ∧ repo ≠ [] ∧ Forall (λ c, App.repoClass c = true) repo.
Proof.
  split.
  - apply validateRepoFormat_shape.
  - intros (sch & owner & repo & Heq & Hsch & Ho1 & Ho2 & Hr1 & Hr2).
    by apply (validateRepoFormat_accepts url sch owner repo).
Qed.

(** X2: when the URL passes validation, [analyzeRepo] waits twice, sends one
    POST to [/analyze] with the trimmed URL, and settles with [isAnalyzing]
    and [currentStep] cleared in one of two states: the data stored, no
    error and the three steps completed; or a non-empty error message, no
    data and no step completed. *)
Theorem analyzeRepo_outcome
    {A : Type} (respond : jsstring → App.response A) (st : App.state A) :
  App.validateRepoFormat (App.repoUrl st) = true →
  ∃ st',
    App.analyzeRepo respond st
    = (st', [App.Sleep 2000; App.Sleep 2500;
             App.Post (lit "http://localhost:8000/analyze")
                      (trim (App.repoUrl st))])
    ∧ App.repoUrl st' = App.repoUrl st
    ∧ App.isAnalyzing st' = false
    ∧ App.currentStep st' = None
    ∧ ((∃ d, App.analysisData st' = Some d ∧ App.error st' = None
             ∧ App.completedSteps st' = [App.clone; App.analyze; App.docs])
       ∨ (∃ m, m ≠ [] ∧ App.error st' = Some m
               ∧ App.analysisData st' = None
               ∧ App.completedSteps st' = [])).
Proof.
  intros Hv. unfold App.analyzeRepo.
  destruct (trim (App.repoUrl st)) as [|c t] eqn:Htrim.
  { unfold App.validateRepoFormat in Hv. rewrite Htrim in Hv. by vm_compute in Hv. }
  rewrite <-Htrim, validateRepoFormat_trim, Hv. cbn [negb].
  eexists. split; [reflexivity|].
  destruct (respond (trim (App.repoUrl st)))
    as [message|[] statusText [message|b]]; cbn;
    repeat (split; [done|]).
  - right. destruct message; eexists; (split; [|done]);
      intros Hnil; by vm_compute in Hnil.
  - right. destruct message; eexists; (split; [|done]);
      intros Hnil; by vm_compute in Hnil.
  - left. by eexists.
  - right. eexists. split; [|done]. intros Hnil. by vm_compute in Hnil.
  - right. destruct (App.detail b) as [[|x m]| |[|x m]]; eexists;
      (split; [|done]); intros Hnil; by vm_compute in Hnil.
Qed.

Lemma analyzeRepo_outcome_witness :
  ∃ st',
    App.analyzeRepo (A := unit)
      (λ _, App.HttpResponse false (lit "Bad Gateway") (inl []))
      (App.State (lit " https://github.com/user/repo.git") false [] None None
                 None)
    = (st', [App.Sleep 2000; App.Sleep 2500;
             App.Post (lit "http://localhost:8000/analyze")
                      (lit "https://github.com/user/repo.git")])
    ∧ App.error st' = Some (lit "Analysis failed: Bad Gateway").
Proof.
  destruct (analyzeRepo_outcome (A := unit)
              (λ _, App.HttpResponse false (lit "Bad Gateway") (inl []))
              (App.State (lit " https://github.com/user/repo.git")
                         false [] None None None))
    as (st' & Hrun & _); [by vm_compute|].
  exists st'. split; [exact Hrun|].
  vm_compute in Hrun. by injection Hrun as <-.
Defined.

(** X3: [analyzeRepo] never sends a URL that [validateRepoFormat] refuses:
    every POST it makes goes to [/analyze] and carries the trimmed input,
    which the validation accepts. *)
Theorem analyzeRepo_posts_only_validated
    {A : Type} (respond : jsstring → App.response A) (st : App.state A)
    (endpoint repo : jsstring) :
  App.Post endpoint repo ∈ (App.analyzeRepo respond st).2 →
  endpoint = lit "http://localhost:8000/analyze"
  ∧ repo = trim (App.repoUrl st)
  ∧ App.validateRepoFormat repo = true.
Proof.
  unfold App.analyzeRepo.
  destruct (trim (App.repoUrl st)) as [|c t] eqn:Htrim;
    [by intros ?%elem_of_nil|].
  destruct (App.validateRepoFormat (c :: t)) eqn:Hv; cbn [negb snd];
    [|by intros ?%elem_of_nil].
  intros H. repeat (apply elem_of_cons in H as [H|H]; [try done|]).
  - by injection H as -> ->.
  - by apply elem_of_nil in H.
Qed.

Lemma analyzeRepo_posts_only_validated_witness :
  App.validateRepoFormat (lit "https://github.com/user/repo") = true.
Proof.
  apply (analyzeRepo_posts_only_validated (A := unit)
           (λ _, App.FetchRejected [])
           (App.State (lit "https://github.com/user/repo ") false [] None None
                      None)
           (lit "http://localhost:8000/analyze")
           (lit "https://github.com/user/repo")).
  vm_compute. repeat constructor.
Defined.

(** X4: the blocks in the element [App] returns once [analyzeRepo] has
    settled on a URL that passes validation.  If the server answered with a
    payload that is truthy, the results and nothing else, unless [modules]
    has a [null] among its first six values, in which case [App] throws; if
    it answered with a payload that is not truthy ([null], say), the
    progress panel stays, with neither results nor error; in every other
    case the error message and nothing else. *)
Theorem settled_screen
    (respond : jsstring → App.response AppView.payload)
    (st : App.state AppView.payload) :
  App.validateRepoFormat (App.repoUrl st) = true →
  AppView.blocks (App.analyzeRepo respond st).1
  = match respond (trim (App.repoUrl st)) with
    | App.HttpResponse true _ (inr b) =>
        if AIDetection.truthy (App.payload b) then
          match AppView.overview_modules (App.payload b) with
          | Some _ => Some (true, false, false)
          | None => None
          end
        else Some (false, true, false)
    | _ => Some (false, false, true)
    end.
Proof.
  intros Hv. unfold App.analyzeRepo.
  destruct (trim (App.repoUrl st)) as [|c t] eqn:Htrim.
  { unfold App.validateRepoFormat in Hv. rewrite Htrim in Hv. by vm_compute in Hv. }
  rewrite <-Htrim, validateRepoFormat_trim, Hv. cbn [negb fst].
  unfold AppView.blocks, AppView.tabsData, AppView.shows_results,
    AppView.shows_progress, AppView.shows_error, AppView.has_data.
  destruct (respond (trim (App.repoUrl st)))
    as [message|[] statusText [message|b]]; cbn.
  - by destruct message.
  - by destruct message.
  - destruct (AIDetection.truthy (App.payload b)); [|done].
    by destruct (AppView.overview_modules (App.payload b)).
  - by destruct statusText.
  - by destruct (App.detail b) as [[|x m]| |[|x m]].
Qed.

Lemma settled_screen_witness :
  AppView.blocks
    (App.analyzeRepo
       (λ _, App.HttpResponse true (lit "OK")
               (inr (App.Body App.DetailFalsy
                       (AIDetection.VObj
                          [(lit "modules",
                            AIDetection.VObj
                              [(lit "core", AIDetection.VStr (lit "the core"));
                               (lit "api", AIDetection.VObj [])])]))))
       (App.State (lit "https://github.com/user/repo") false [] None None
                  None)).1
  = Some (true, false, false).
Proof.
  etransitivity.
  - apply (settled_screen
             (λ _, App.HttpResponse true (lit "OK")
                     (inr (App.Body App.DetailFalsy
                             (AIDetection.VObj
                                [(lit "modules",
                                  AIDetection.VObj
                                    [(lit "core",
                                      AIDetection.VStr (lit "the core"));
                                     (lit "api", AIDetection.VObj [])])]))))
             (App.State (lit "https://github.com/user/repo") false [] None
                        None None)).
    by vm_compute.
  - reflexivity.
Defined.

(** A payload whose [modules] holds a [null]: [App] throws while it builds
    the tabs. *)
Example settled_screen_null_module :
  AppView.blocks
    (App.analyzeRepo
       (λ _, App.HttpResponse true (lit "OK")
               (inr (App.Body App.DetailFalsy
                       (AIDetection.VObj
                          [(lit "modules",
                            AIDetection.VObj
                              [(lit "a", AIDetection.VNull)])]))))
       (App.State (lit "https://github.com/user/repo") false [] None None
                  None)).1
  = None.
Proof. by vm_compute. Qed.

(** ** DependencyGraph.jsx: extensions and file names *)

Section PathFacts.
Import Regex DependencyGraph.

(** A string either does not hold [sep], or splits at its last [sep]. *)
Lemma last_occurrence (sep : N) (s : jsstring) :
  sep ∉ s ∨ ∃ pre rest, s = pre ++ sep :: rest ∧ sep ∉ rest.
Proof.
  induction s as [|c s [IH|(pre & rest & -> & Hrest)]].
  - left. by intros ?%elem_of_nil.
  - destruct (decide (c = sep)) as [->|Hne].
    + right. by exists [], s.
    + left. by intros [?|?]%elem_of_cons.
  - right. by exists (c :: pre), rest.
Qed.

Lemma not_elem_of_Forall (sep : N) (s : jsstring) :
  sep ∉ s → Forall (λ c, c ≠ sep) s.
Proof.
  intros H. apply Forall_forall. intros c Hc ->. done.
Qed.

Lemma Lang_extensionPattern (s : jsstring) :
  Lang extensionPattern s
  ↔ ∃ rest, s = chr "." :: rest ∧ rest ≠ [] ∧ chr "." ∉ rest.
Proof.
  unfold extensionPattern. rewrite Lang_Cat. split.
  - intros (s1 & s2 & -> & ->%Lang_Chr & [Hne Hall]%Lang_Plus_Class).
    exists s2. split; [done|]. split; [done|].
    rewrite Forall_forall in Hall. intros Hin. specialize (Hall _ Hin).
    by rewrite N.eqb_refl in Hall.
  - intros (rest & -> & Hne & Hdot). exists [chr "."], rest.
    split; [done|]. split; [by apply Lang_Chr|].
    apply Lang_Plus_Class. split; [done|].
    apply Forall_forall. intros c Hc. apply negb_true_iff, N.eqb_neq.
    by intros ->.
Qed.

(** [match] returns the leftmost suffix in the language. *)
Lemma match_suffix_leftmost (r : regex) (pre s : jsstring) :
  (∀ a b, pre = a ++ b → b ≠ [] → matches r (b ++ s) = false) →
  matches r s = true →
  match_suffix r (pre ++ s) = Some s.
Proof.
  induction pre as [|c pre IH]; intros Hpre Hs.
  - destruct s; simpl in *; by rewrite Hs.
  - assert (H0 : matches r (c :: pre ++ s) = false)
      by (by apply (Hpre [] (c :: pre))).
    cbn [app match_suffix]. rewrite H0.
    apply IH; [|done]. intros a b -> Hb. by apply (Hpre (c :: a) b).
Qed.

Lemma match_suffix_none (r : regex) (s : jsstring) :
  (∀ a b, s = a ++ b → matches r b = false) → match_suffix r s = None.
Proof.
  induction s as [|c s IH]; intros Hs.
  - pose proof (Hs [] [] eq_refl) as H0. simpl in *. by rewrite H0.
  - cbn [match_suffix]. rewrite (Hs [] (c :: s)) by done.
    apply IH. intros a b ->. by apply (Hs (c :: a) b).
Qed.

Lemma not_matches (r : regex) (s : jsstring) :
  ¬ Lang r s → matches r s = false.
Proof.
  intros H. destruct (matches r s) eqn:Hm; [|done].
  by apply matches_Lang in Hm.
Qed.

(** A non-empty extension begins with the dot. *)
Lemma getFileExtension_dot (path : jsstring) (c : N) (rest : jsstring) :
  getFileExtension path = c :: rest → c = chr ".".
Proof.
  unfold getFileExtension.
  assert (Hm : ∀ s m, match_suffix extensionPattern s = Some m →
                      Lang extensionPattern m).
  { induction s as [|d s IH]; intros m; cbn [match_suffix].
    - destruct (matches extensionPattern []) eqn:Hmatch; [|done].
      intros [= <-]. by apply matches_Lang.
    - destruct (matches extensionPattern (d :: s)) eqn:Hmatch.
      + intros [= <-]. by apply matches_Lang.
      + apply IH. }
  destruct (match_suffix extensionPattern path) as [m|] eqn:Hp; [|done].
  intros ->. apply Hm in Hp.
  apply Lang_extensionPattern in Hp as (? & [= -> _] & _). done.
Qed.

(** The last segment of a string that holds the separator is the last
    segment of what follows any of its separators. *)
Lemma split_on_two (sep : N) (pre rest : jsstring) :
  ∃ seg1 seg2 segs, split_on sep (pre ++ sep :: rest) = seg1 :: seg2 :: segs.
Proof.
  induction pre as [|c pre (seg1 & seg2 & segs & IH)]; simpl.
  - rewrite N.eqb_refl. destruct rest as [|d rest]; simpl; [by eexists _, _, _|].
    destruct (d =? sep)%N; [by eexists _, _, _|].
    destruct (split_on sep rest); by eexists _, _, _.
  - rewrite IH. destruct (c =? sep)%N; by eexists _, _, _.
Qed.

Lemma split_on_nonempty (sep : N) (s : jsstring) : split_on sep s ≠ [].
Proof.
  destruct s as [|c s]; simpl; [done|].
  destruct (c =? sep)%N; [done|]. by destruct (split_on sep s).
Qed.

Lemma pop_segment_after (pre rest : jsstring) :
  GraphView.pop_segment (pre ++ chr "/" :: rest) = GraphView.pop_segment rest.
Proof.
  unfold GraphView.pop_segment. induction pre as [|c pre IH].
  - cbn [app split_on]. rewrite N.eqb_refl.
    pose proof (split_on_nonempty (chr "/") rest) as Hne.
    by destruct (split_on (chr "/") rest).
  - destruct (split_on_two (chr "/") pre rest) as (seg1 & seg2 & segs & Hs).
    cbn [app split_on]. rewrite Hs in *. by destruct (c =? _)%N.
Qed.

End PathFacts.

(** X5: [getFileExtension] returns the part of the path from its last dot
    on, dot included, when something follows that dot; it returns the empty
    string when the path has no dot, and when the path ends in a dot. *)
Theorem getFileExtension_last_dot (path : jsstring) :
  (∀ pre rest,
     path = pre ++ chr "." :: rest → rest ≠ [] → chr "." ∉ rest →
     DependencyGraph.getFileExtension path = chr "." :: rest)
  ∧ (chr "." ∉ path → DependencyGraph.getFileExtension path = [])
  ∧ (∀ pre, path = pre ++ [chr "."] →
            DependencyGraph.getFileExtension path = []).
Proof.
  unfold DependencyGraph.getFileExtension. split; [|split].
  - intros pre rest -> Hne Hdot.
    rewrite match_suffix_leftmost; [done| |].
    + intros a b -> Hb. apply not_matches.
      intros (r & Heq & _ & Hr)%Lang_extensionPattern.
      destruct b as [|c b]; [done|]. injection Heq as -> <-.
      apply Hr. apply elem_of_app. right. constructor.
    + apply matches_Lang, Lang_extensionPattern. by exists rest.
  - intros Hdot. rewrite match_suffix_none; [done|].
    intros a b ->. apply not_matches.
    intros (r & -> & _)%Lang_extensionPattern.
    apply Hdot. apply elem_of_app. right. constructor.
  - intros pre ->. rewrite match_suffix_none; [done|].
    intros a b Heq. apply not_matches.
    intros (r & -> & Hne & Hr)%Lang_extensionPattern.
    destruct r as [|c r _] using rev_ind; [done|].
    change (chr "." :: r ++ [c]) with ((chr "." :: r) ++ [c]) in Heq.
    rewrite app_assoc in Heq.
    apply app_inj_tail in Heq as [_ <-].
    apply Hr. apply elem_of_app. right. constructor.
Qed.

Lemma getFileExtension_last_dot_witness :
  DependencyGraph.getFileExtension (lit "src/index.test.js") = lit ".js".
Proof.
  destruct (getFileExtension_last_dot (lit "src/index.test.js")) as [H _].
  apply (H (lit "src/index.test") (lit "js")).
  - by vm_compute.
  - done.
  - apply (bool_decide_unpack _). by vm_compute.
Defined.

(** X26: the name shown for a file, [file.split('/').pop()], holds no
    slash, and the file is that name after a directory part that is empty
    or ends in a slash. *)
Theorem fileName_is_last_segment (file : jsstring) :
  (chr "/" ∉ GraphView.fileName file)
  ∧ ∃ dir, file = dir ++ GraphView.fileName file
           ∧ (dir = [] ∨ ∃ d, dir = d ++ [chr "/"]).
Proof.
  unfold GraphView.fileName.
  assert (Hplain : ∀ s, chr "/" ∉ s → GraphView.pop_segment s = s).
  { intros s Hs. unfold GraphView.pop_segment.
    by rewrite split_on_no_sep by by apply not_elem_of_Forall. }
  destruct (last_occurrence (chr "/") file) as [Hno|(pre & rest & -> & Hrest)].
  - rewrite Hplain by done. split; [done|]. exists []. by split; [|left].
  - rewrite pop_segment_after, Hplain by done. split; [done|].
    exists (pre ++ [chr "/"]). split; [by rewrite <-app_assoc|].
    right. by exists pre.
Qed.

(** ** DependencyGraph.jsx: the filter buttons *)

Section FilterFacts.
Import DependencyGraph GraphView.

Lemma type_key_dot (f : jsstring) : ∃ rest, type_key f = chr "." :: rest.
Proof.
  unfold type_key. destruct (getFileExtension f) as [|c rest] eqn:He.
  - by eexists.
  - apply getFileExtension_dot in He as ->. by eexists.
Qed.

Lemma type_key_extension (f k : jsstring) :
  k ≠ lit ".other" → type_key f = k ↔ getFileExtension f = k ∧ k ≠ [].
Proof.
  unfold type_key. intros Hk.
  destruct (getFileExtension f) as [|c rest].
  - split; [done|]. by intros [<- ?].
  - split; [by intros <-|by intros [-> _]].
Qed.

Lemma type_key_other (f : jsstring) :
  type_key f = lit ".other"
  ↔ getFileExtension f = [] ∨ getFileExtension f = lit ".other".
Proof.
  unfold type_key. destruct (getFileExtension f) as [|c rest].
  - split; [by left|done].
  - split; [by right|by intros [?|?]].
Qed.

(** A key of [byType] is the key of some node. *)
Lemma count_type_fold_key (ns : list node) (m m' : gmap jsstring nat)
    (k : jsstring) :
  foldl count_type (Some m) ns = Some m' → is_Some (m' !! k) →
  is_Some (m !! k) ∨ ∃ n f, n ∈ ns ∧ file n = Some f ∧ type_key f = k.
Proof.
  revert m. induction ns as [|n ns IH]; intros m; cbn [foldl].
  - intros [= ->]. by left.
  - destruct (file n) as [f|] eqn:Hf.
    + rewrite (count_type_Some m n f Hf). intros Hfold Hk.
      destruct (IH _ Hfold Hk) as [Hm|(n' & f' & Hin & Hf' & Hkey)].
      * unfold add_count in Hm.
        destruct (decide (type_key f = k)) as [Heq|Hne].
        -- right. exists n, f. split; [constructor|done].
        -- rewrite lookup_insert_ne in Hm by done. by left.
      * right. exists n', f'. split; [by constructor|done].
    + unfold count_type at 2. rewrite Hf. cbn [mbind option_bind].
      by rewrite count_type_None.
Qed.

Lemma filter_by_extension_defined (k : jsstring) (ns : list node) :
  Forall (λ n, file n ≠ None) ns →
  filter_by_extension k ns
  = Some (filter (λ n, getFileExtension <$> file n = Some k) ns).
Proof.
  induction 1 as [|n ns Hn _ IH]; [done|].
  cbn [filter_by_extension]. rewrite IH, filter_cons.
  destruct (file n) as [f|]; [|done]. simpl.
  case_bool_decide as Hb; case_decide as Hd; simplify_eq; done.
Qed.

End FilterFacts.

(** X6: for a key of [byType], the number on its filter button against the
    nodes the filter shows.  The two are equal, except for ['.other']:
    that button counts the files that have no extension as well, and the
    filter, comparing [getFileExtension(file)] with ['.other'], leaves
    them out. *)
Theorem filter_button_count
    (data : DependencyGraph.depsData) (p : DependencyGraph.processed)
    (k : jsstring) (c : nat) :
  DependencyGraph.processedData data = Some p →
  DependencyGraph.byType p !! k = Some c →
  ∃ shown,
    GraphView.filteredNodes p k = Some shown
    ∧ length shown
      + (if bool_decide (k = lit ".other")
         then length (GraphView.extensionless (DependencyGraph.nodes p))
         else 0)
      = c.
Proof.
  intros Hp Hk.
  pose proof (processedData_byType _ _ Hp) as Hfold.
  destruct (count_type_fold_inv _ _ _ Hfold) as (Hnamed & Hcount & _).
  specialize (Hcount k). rewrite Hk, lookup_empty in Hcount. simpl in Hcount.
  destruct (count_type_fold_key _ _ _ k Hfold) as [[? Hm]|(n & f & _ & _ & Hkey)];
    [done|by rewrite lookup_empty in Hm|].
  destruct (type_key_dot f) as [rest Hdot]. rewrite Hkey in Hdot.
  unfold GraphView.filteredNodes.
  rewrite bool_decide_eq_false_2 by (by rewrite Hdot).
  rewrite filter_by_extension_defined by done.
  eexists. split; [done|]. rewrite Hcount.
  case_bool_decide as Hother.
  - unfold GraphView.extensionless. symmetry. apply filter_length_or.
    eapply Forall_impl; [exact Hnamed|]. intros m Hm. cbv beta in Hm |- *.
    destruct (DependencyGraph.file m) as [g|]; [|by destruct Hm].
    cbn [fmap option_fmap option_map]. rewrite Hother. split.
    + split.
      * intros [= [H|H]%type_key_other]; [right|left]; by rewrite H.
      * intros [[= H]|[= H]]; f_equal; apply type_key_other; auto.
    + intros [[= H1] [= H2]]. by rewrite H2 in H1.
  - rewrite Nat.add_0_r. symmetry. apply filter_length_ext.
    eapply Forall_impl; [exact Hnamed|]. intros m Hm. cbv beta in Hm |- *.
    destruct (DependencyGraph.file m) as [g|]; [|by destruct Hm].
    cbn [fmap option_fmap option_map]. split.
    + intros [= H]. apply type_key_extension in H as [H _]; [by f_equal|done].
    + intros [= H]. f_equal. apply type_key_extension; [done|].
      split; [done|]. by rewrite Hdot.
Qed.

Lemma filter_button_count_witness :
  ∃ p shown,
    DependencyGraph.processedData
      (DependencyGraph.DLegacy
         [(lit "Makefile", DependencyGraph.LImports []);
          (lit "a.py", DependencyGraph.LImports [])])
    = Some p
    ∧ GraphView.filteredNodes p (lit ".other") = Some shown
    ∧ length shown + 1 = 1.
Proof.
  eexists. 
  destruct (filter_button_count
              (DependencyGraph.DLegacy
                 [(lit "Makefile", DependencyGraph.LImports []);
                  (lit "a.py", DependencyGraph.LImports [])])
              _ (lit ".other") 1 eq_refl) as (shown & Hs & Hc).
  - by vm_compute.
  - exists shown. split; [reflexivity|]. split; [exact Hs|exact Hc].
Defined.

(** ** DependencyGraph.jsx: what the loops keep true *)

Section ConsistencyFacts.
Import DependencyGraph GraphView.

Lemma imported_nil (A : option jsstring) (B : endpoint) : ¬ imported [] A B.
Proof. by intros (n & ?%elem_of_nil & _). Qed.

Lemma imported_cons (n : node) (ns : list node) (A : option jsstring)
    (B : endpoint) :
  imported (n :: ns) A B ↔ (file n = A ∧ B ∈ imports n) ∨ imported ns A B.
Proof.
  unfold imported. split.
  - intros (m & [->|Hin]%elem_of_cons & Hf & HB); [by left|].
    right. by exists m.
  - intros [[Hf HB]|(m & Hin & Hf & HB)].
    + exists n. split; [constructor|done].
    + exists m. split; [by constructor|done].
Qed.

Lemma imported_app (ns ms : list node) (A : option jsstring) (B : endpoint) :
  imported (ns ++ ms) A B ↔ imported ns A B ∨ imported ms A B.
Proof.
  unfold imported. split.
  - intros (m & [Hin|Hin]%elem_of_app & Hf & HB);
      [left|right]; by exists m.
  - intros [(m & Hin & Hf & HB)|(m & Hin & Hf & HB)]; exists m;
      (split; [apply elem_of_app; auto|done]).
Qed.

Lemma imported_push_import (sf : option jsstring) (tf : endpoint)
    (ns : list node) (A : option jsstring) (B : endpoint) :
  imported (push_import sf tf ns) A B
  ↔ imported ns A B ∨ (sf = A ∧ tf = B ∧ A ∈ map file ns).
Proof.
  induction ns as [|n ns IH]; cbn [push_import map].
  - split; [by intros ?%imported_nil|].
    intros [?%imported_nil|(_ & _ & ?%elem_of_nil)]; done.
  - case_decide as Hd.
    + rewrite !imported_cons. cbn [file imports]. split.
      * intros [[Hf [HB|HB%list_elem_of_singleton]%elem_of_app]|H]; auto.
        right. split; [congruence|]. split; [done|]. rewrite <-Hf.
        constructor.
      * intros [[[Hf HB]|H]|(Hsf & Htf & HA)]; auto.
        -- left. split; [done|]. apply elem_of_app. by left.
        -- left. split; [congruence|]. apply elem_of_app. right.
           subst. constructor.
    + rewrite !imported_cons, IH. split.
      * intros [H|[H|(Hsf & Htf & HA)]]; auto.
        right. split; [done|]. split; [done|]. by constructor.
      * intros [[H|H]|(Hsf & Htf & [HA|HA]%elem_of_cons)]; auto;
          congruence.
Qed.

Lemma filter_singleton_length {X : Type} (P : X → Prop)
    `{!∀ x, Decision (P x)} (x : X) :
  length (filter P [x]) = if decide (P x) then 1 else 0.
Proof. rewrite filter_cons, filter_nil. by case_decide. Qed.

Lemma filter_all_length {X : Type} (P : X → Prop)
    `{!∀ x, Decision (P x)} (l : list X) :
  Forall P l → length (filter P l) = length l.
Proof.
  induction 1 as [|x l Hx _ IH]; [done|].
  rewrite filter_cons, decide_True by done. simpl. by rewrite IH.
Qed.

(** The number of ends of one edge that count. *)
Lemma plain_end_count (v : endpoint) :
  (if decide (plain_end v = true) then 1 else 0)
  = (if inherited (end_key v) then 0 else 1).
Proof. unfold plain_end. by destruct (inherited (end_key v)). Qed.

Lemma push_import_bounded (sf : option jsstring) (tf : endpoint)
    (ns : list node) (m m' : gmap jsstring count) :
  (∀ k, inherited k = false → number_at m k ≤ number_at m' k) →
  (inherited (to_key sf) = false →
   number_at m (to_key sf) + 1 ≤ number_at m' (to_key sf)) →
  Forall (λ n, inherited (to_key (file n)) = false →
               length (imports n) ≤ number_at m (to_key (file n))) ns →
  Forall (λ n, inherited (to_key (file n)) = false →
               length (imports n) ≤ number_at m' (to_key (file n)))
         (push_import sf tf ns).
Proof.
  intros Hle Hsf. induction 1 as [|n ns Hn Hns IH]; cbn [push_import].
  - constructor.
  - case_decide as Hd.
    + constructor.
      * cbn [file imports]. rewrite length_app, Hd. simpl.
        rewrite Hd in Hn. intros Hplain.
        specialize (Hn Hplain). specialize (Hsf Hplain). lia.
      * eapply Forall_impl; [exact Hns|]. intros x Hx Hplain. cbv beta in *.
        specialize (Hle (to_key (file x)) Hplain). specialize (Hx Hplain).
        lia.
    + constructor; [|done]. intros Hplain.
      specialize (Hle (to_key (file n)) Hplain). specialize (Hn Hplain). lia.
Qed.

Lemma consistent_initial (ns : list node) :
  Forall (λ n, imports n = []) ns → consistent (Acc ns [] ∅).
Proof.
  intros Hns. unfold consistent. cbn [acc_nodes acc_edges acc_counts].
  split; [apply typed_empty|].
  split; [by rewrite total_connections_empty|]. split.
  - eapply Forall_impl; [exact Hns|]. intros n Hn _. cbv beta in *.
    rewrite Hn. simpl. lia.
  - intros A B _. split; [|by intros ?%elem_of_nil].
    intros (n & Hin & _ & HB).
    rewrite Forall_forall in Hns. rewrite (Hns n Hin) in HB.
    by apply elem_of_nil in HB.
Qed.

Lemma process_edge_consistent (nm : gmap jsstring (option jsstring))
    (a : acc) (e : rawEdge) :
  (∀ k A, nodeMap_get nm k = Own (Some A) →
          Some A ∈ map file (acc_nodes a)) →
  consistent a → consistent (process_edge nm a e).
Proof.
  intros Hnm (Htyped & Htotal & Hbound & Hedges).
  unfold consistent, process_edge. cbn [acc_nodes acc_edges acc_counts].
  pose proof (typed_add_connections
                (end_key (nodeMap_get nm (source e))) 1 _ Htyped) as Htyped1.
  split; [by apply typed_add_connections|]. split; [|split].
  - rewrite !total_connections_add by done.
    rewrite !filter_app, !length_app, !filter_singleton_length, Htotal.
    cbn [from to]. rewrite !plain_end_count. lia.
  - assert (Hle : ∀ k, inherited k = false →
               number_at (acc_counts a) k
               ≤ number_at
                   (add_connections (end_key (nodeMap_get nm (target e))) 1
                      (add_connections (end_key (nodeMap_get nm (source e))) 1
                         (acc_counts a))) k).
    { intros k Hk. rewrite !number_at_add_connections by done. lia. }
    assert (Hsame :
      Forall (λ n, inherited (to_key (file n)) = false →
                   length (imports n)
                   ≤ number_at
                       (add_connections
                          (end_key (nodeMap_get nm (target e))) 1
                          (add_connections
                             (end_key (nodeMap_get nm (source e))) 1
                             (acc_counts a))) (to_key (file n)))
             (acc_nodes a)).
    { eapply Forall_impl; [exact Hbound|]. intros x Hx Hplain. cbv beta in *.
      specialize (Hle (to_key (file x)) Hplain). specialize (Hx Hplain).
      lia. }
    destruct (nodeMap_get nm (source e)) as [f|k]; [|done].
    destruct (end_truthy (nodeMap_get nm (target e))); [|done].
    apply (push_import_bounded _ _ _ (acc_counts a)); [done| |done].
    intros Hplain. rewrite !number_at_add_connections by done.
    cbn [end_key]. rewrite decide_True by done. lia.
  - intros A B HB. rewrite elem_of_app, list_elem_of_singleton.
    destruct (nodeMap_get nm (source e)) as [f|k] eqn:Hs.
    + destruct (end_truthy (nodeMap_get nm (target e))) eqn:Ht.
      * rewrite imported_push_import, (Hedges A B HB). split.
        -- intros [H|(Hsf & Htf & _)]; [by left|]. right.
           by rewrite Hsf, Htf.
        -- intros [H|[= Hsf Htf]]; [by left|]. right.
           split; [done|]. split; [done|]. apply (Hnm (source e)).
           by rewrite Hs, <-Hsf.
      * rewrite (Hedges A B HB). split; [by left|].
        intros [H|[= _ H]]; [done|]. rewrite <-H, HB in Ht. done.
    + rewrite (Hedges A B HB). split; [by left|]. by intros [H|[=]].
Qed.

Lemma process_edges_consistent (nm : gmap jsstring (option jsstring))
    (es : list rawEdge) (a : acc) :
  (∀ k A, nodeMap_get nm k = Own (Some A) →
          Some A ∈ map file (acc_nodes a)) →
  consistent a → consistent (foldl (process_edge nm) a es).
Proof.
  revert a. induction es as [|e es IH]; intros a Hnm Ha; cbn [foldl]; [done|].
  apply IH.
  - intros k A HA. rewrite process_edge_files. by apply (Hnm k).
  - by apply process_edge_consistent.
Qed.

Lemma process_backend_consistent (ns : list rawNode)
    (es : option (list rawEdge)) (a : acc) :
  process_backend ns es = Some a → consistent a.
Proof.
  unfold process_backend. intros H.
  destruct (mapM make_node ns) as [nodes0|] eqn:Hn; [|done].
  simpl in H. injection H as <-.
  apply mapM_make_node in Hn as [Hfiles Himps].
  destruct es as [es|]; [|by apply consistent_initial].
  apply process_edges_consistent; [|by apply consistent_initial].
  intros k A HA. cbn [acc_nodes]. rewrite Hfiles.
  by apply (nodeMap_get_Some ns k).
Qed.

Lemma process_imports_total (f : jsstring) (imps : list jsstring) (a : acc) :
  typed (acc_counts a) →
  total_connections
    (acc_counts
       (foldl (λ a imp,
                 Acc (acc_nodes a)
                     (acc_edges a ++ [Edge (Own (Some f)) (Own (Some imp))])
                     (add_connections imp 1 (acc_counts a))) a imps))
  = total_connections (acc_counts a)
    + length (filter (λ imp, inherited imp = false) imps).
Proof.
  revert a. induction imps as [|imp imps IH]; intros a Ht; cbn [foldl].
  - rewrite filter_nil. simpl. lia.
  - rewrite IH by (by apply typed_add_connections). cbn [acc_counts].
    rewrite total_connections_add by done. rewrite filter_cons.
    destruct (inherited imp); simpl; lia.
Qed.

Lemma entry_edges_plain_from (f : jsstring) (imps : list jsstring) :
  length (filter (λ e, plain_end (from e) = true)
            (map (λ imp, Edge (Own (Some f)) (Own (Some imp))) imps))
  = if inherited f then 0 else length imps.
Proof.
  rewrite filter_map_length. cbn [from]. unfold plain_end. cbn [end_key to_key].
  induction imps as [|imp imps IH]; [by destruct (inherited f)|].
  rewrite filter_cons. destruct (inherited f); simpl in *; by rewrite ?IH.
Qed.

Lemma entry_edges_plain_to (f : jsstring) (imps : list jsstring) :
  length (filter (λ e, plain_end (to e) = true)
            (map (λ imp, Edge (Own (Some f)) (Own (Some imp))) imps))
  = length (filter (λ imp, inherited imp = false) imps).
Proof.
  rewrite filter_map_length. cbn [to]. unfold plain_end. cbn [end_key to_key].
  apply filter_length_ext, Forall_forall. intros imp _.
  by destruct (inherited imp).
Qed.

Lemma process_entry_consistent (a : acc) (entry : jsstring * legacyValue) :
  consistent a → consistent (process_entry a entry).
Proof.
  intros (Htyped & Htotal & Hbound & Hedges). unfold consistent.
  rewrite process_entry_nodes, process_entry_edges.
  destruct entry as [f [imps|]]; cbn [entry_nodes entry_edges process_entry].
  - pose proof (typed_add_connections f (length imps) _ Htyped) as Htyped1.
    pose proof (process_imports f imps
                  (Acc (acc_nodes a
                        ++ [Node (Some f) (map (λ imp, Own (Some imp)) imps)
                                 None None])
                       (acc_edges a)
                       (add_connections f (length imps) (acc_counts a))))
      as (_ & _ & Hcounts & _).
    cbv zeta in Hcounts. cbn [acc_counts] in Hcounts.
    destruct (Hcounts Htyped1) as [Htyped2 Hnumber].
    split; [done|]. split; [|split].
    + rewrite process_imports_total by done. cbn [acc_counts].
      rewrite total_connections_add by done.
      rewrite !filter_app, !length_app, Htotal.
      rewrite entry_edges_plain_from, entry_edges_plain_to. lia.
    + apply Forall_app. split.
      * eapply Forall_impl; [exact Hbound|]. intros x Hx Hplain.
        cbv beta in *. specialize (Hx Hplain).
        rewrite Hnumber, number_at_add_connections by done. lia.
      * constructor; [|constructor]. cbn [file imports to_key].
        intros Hplain. rewrite length_map.
        rewrite Hnumber, number_at_add_connections by done.
        rewrite decide_True by done. lia.
    + intros A B HB. rewrite imported_app, elem_of_app, (Hedges A B HB).
      rewrite imported_cons, list_elem_of_fmap. cbn [file imports]. split.
      * intros [H|[[[= ->] (imp & -> & Hin)%list_elem_of_fmap]
                  |?%imported_nil]]; [by left| |done].
        right. by exists imp.
      * intros [H|(imp & [= -> ->] & Hin)]; [by left|]. right. left.
        split; [done|]. apply list_elem_of_fmap. by exists imp.
  - rewrite !app_nil_r. done.
Qed.

Lemma process_entries_consistent (entries : list (jsstring * legacyValue))
    (a : acc) :
  consistent a → consistent (foldl process_entry a entries).
Proof.
  revert a. induction entries as [|entry entries IH]; intros a Ha;
    cbn [foldl]; [done|].
  by apply IH, process_entry_consistent.
Qed.

Lemma processedData_consistent (data : depsData) (p : processed) :
  processedData data = Some p →
  consistent (Acc (nodes p) (edges p) (connectionCounts p)).
Proof.
  assert (Hfinish : ∀ a, consistent a → finish a = Some p →
            consistent (Acc (nodes p) (edges p) (connectionCounts p))).
  { intros [ns es cs] Ha (-> & -> & -> & _)%finish_Some. exact Ha. }
  assert (Hbackend : ∀ ns es, process_backend ns es ≫= finish = Some p →
            consistent (Acc (nodes p) (edges p) (connectionCounts p))).
  { intros ns es H. destruct (process_backend ns es) as [a|] eqn:Ha; [|done].
    apply (Hfinish a); [by eapply process_backend_consistent|done]. }
  destruct data as [|ns es|entries]; cbn [processedData].
  - intros [= <-]. by apply consistent_initial.
  - apply Hbackend.
  - destruct (entry_get (lit "nodes") entries) as [[ns|]|];
      try apply Hbackend;
      apply Hfinish, process_entries_consistent; by apply consistent_initial.
Qed.

End ConsistencyFacts.

(** X7: the imports listed for a selected file against the edge list.  For
    a selected file [A] and a non-empty [B], [B] is among the imports shown
    for [A] exactly when the processed edge list holds an edge from [A] to
    [B]. *)
Theorem selectedImports_are_edges
    (data : DependencyGraph.depsData) (p : DependencyGraph.processed)
    (A B : jsstring) :
  DependencyGraph.well_formed data →
  DependencyGraph.processedData data = Some p →
  A ≠ [] → B ≠ [] →
  DependencyGraph.Own (Some B)
    ∈ DependencyGraph.selectedImports p (Some A)
  ↔ DependencyGraph.Edge (DependencyGraph.Own (Some A))
                         (DependencyGraph.Own (Some B))
    ∈ DependencyGraph.edges p.
Proof.
  intros Hwf Hp HA HB.
  destruct (processedData_invariants _ _ Hwf Hp) as [_ Hfirst].
  destruct (processedData_consistent _ _ Hp) as (_ & _ & _ & Hedges).
  cbn [DependencyGraph.acc_nodes DependencyGraph.acc_edges] in Hedges.
  rewrite <-(Hedges A (DependencyGraph.Own (Some B)))
    by (by destruct B). unfold DependencyGraph.selectedImports.
  destruct A as [|c t]; [done|]. cbn [DependencyGraph.truthy negb].
  split.
  - destruct (find _ _) as [n|] eqn:Hfind; [|by intros ?%elem_of_nil].
    apply find_some in Hfind as [Hin Hf%bool_decide_eq_true_1].
    apply list_elem_of_In in Hin. intros Himp. by exists n.
  - intros (n & Hin & Hf & Himp).
    destruct (importers_first_find [] _ n Hfirst Hin) as [Hfind _].
    { intros Hnil. rewrite Hnil in Himp. by apply elem_of_nil in Himp. }
    rewrite Hf in Hfind. by rewrite Hfind.
Qed.

Lemma selectedImports_are_edges_witness :
  ∃ p,
    DependencyGraph.processedData
      (DependencyGraph.DBackend
         [DependencyGraph.RawNode (lit "1") (Some (lit "a.py")) None None;
          DependencyGraph.RawNode (lit "2") (Some (lit "b.py")) None None]
         (Some [DependencyGraph.RawEdge (lit "1") (lit "2")]))
    = Some p
    ∧ (DependencyGraph.Own (Some (lit "b.py"))
         ∈ DependencyGraph.selectedImports p (Some (lit "a.py"))
       ↔ DependencyGraph.Edge (DependencyGraph.Own (Some (lit "a.py")))
                              (DependencyGraph.Own (Some (lit "b.py")))
         ∈ DependencyGraph.edges p).
Proof.
  eexists. split; [by vm_compute|].
  apply (selectedImports_are_edges
           (DependencyGraph.DBackend
              [DependencyGraph.RawNode (lit "1") (Some (lit "a.py")) None None;
               DependencyGraph.RawNode (lit "2") (Some (lit "b.py")) None None]
              (Some [DependencyGraph.RawEdge (lit "1") (lit "2")]))).
  - exact I.
  - by vm_compute.
  - intros H. by vm_compute in H.
  - intros H. by vm_compute in H.
Defined.



(** X9: whatever the payload, the connection counts that are numbers add
    up to the number of edge ends that are not named like a member of
    [Object.prototype]: every edge is counted once at each such end, also
    at an end that is [undefined].  When no end is named like that, the sum
    is twice the number of processed edges. *)
Theorem connectionCounts_sum
    (data : DependencyGraph.depsData) (p : DependencyGraph.processed) :
  DependencyGraph.processedData data = Some p →
  DependencyGraph.total_connections (DependencyGraph.connectionCounts p)
  = length (filter (λ e, DependencyGraph.plain_end (DependencyGraph.from e)
                         = true) (DependencyGraph.edges p))
    + length (filter (λ e, DependencyGraph.plain_end (DependencyGraph.to e)
                           = true) (DependencyGraph.edges p))
  ∧ (Forall (λ e, DependencyGraph.plain_end (DependencyGraph.from e) = true
                  ∧ DependencyGraph.plain_end (DependencyGraph.to e) = true)
            (DependencyGraph.edges p) →
     DependencyGraph.total_connections (DependencyGraph.connectionCounts p)
     = 2 * length (DependencyGraph.edges p)).
Proof.
  intros Hp.
  destruct (processedData_consistent _ _ Hp) as (_ & H & _ & _).
  cbn [DependencyGraph.acc_edges DependencyGraph.acc_counts] in H.
  split; [done|]. intros Hplain. rewrite H.
  rewrite !filter_all_length; [lia| |].
  - eapply Forall_impl; [exact Hplain|]. by intros e [_ ?].
  - eapply Forall_impl; [exact Hplain|]. by intros e [? _].
Qed.

Lemma connectionCounts_sum_witness :
  ∃ p,
    DependencyGraph.processedData
      (DependencyGraph.DBackend
         [DependencyGraph.RawNode (lit "1") (Some (lit "a.py")) None None]
         (Some [DependencyGraph.RawEdge (lit "1") (lit "zzz");
                DependencyGraph.RawEdge (lit "1") (lit "toString")]))
    = Some p
    ∧ DependencyGraph.total_connections (DependencyGraph.connectionCounts p)
      = length (filter (λ e, DependencyGraph.plain_end (DependencyGraph.from e)
                             = true) (DependencyGraph.edges p))
        + length (filter (λ e, DependencyGraph.plain_end (DependencyGraph.to e)
                               = true) (DependencyGraph.edges p)).
Proof.
  eexists. split; [by vm_compute|].
  refine (proj1 (connectionCounts_sum
                   (DependencyGraph.DBackend
                      [DependencyGraph.RawNode (lit "1") (Some (lit "a.py"))
                         None None]
                      (Some [DependencyGraph.RawEdge (lit "1") (lit "zzz");
                             DependencyGraph.RawEdge (lit "1")
                               (lit "toString")]))
                   _ _)).
  by vm_compute.
Defined.

(** ** Report.jsx: the printed file tree *)

Section PrintFacts.
Import ReportBody.

Lemma PrintNode_induction (P : PrintNode → Prop) :
  (∀ name type, P (PNode name type None)) →
  (∀ name type children,
     Forall P children → P (PNode name type (Some children))) →
  ∀ n, P n.
Proof.
  intros Hleaf Hnode. fix IH 1. intros [name type [children|]].
  - apply Hnode. induction children as [|c children IHc]; constructor.
    + apply IH.
    + apply IHc.
  - apply Hleaf.
Qed.

(** The inner loop is [slice(0, 50).map]. *)
Lemma FileTreePrint_unfold (name type : jsstring)
    (children : option (list PrintNode)) (depth : nat) :
  FileTreePrint (PNode name type children) depth
  = (if (0 <? depth)%nat
     then [NameLine depth (bool_decide (type = lit "folder")) name]
     else [])
    ++ match children with
       | Some children =>
           concat (map (λ child,
                          FileTreePrint child
                            (depth + (if (depth =? 0)%nat then 0 else 1)))
                       (take 50 children))
           ++ (if (50 <? length children)%nat
               then [MoreLine depth (length children - 50)]
               else [])
       | None => []
       end.
Proof.
  assert (Hloop : ∀ k cs,
            (fix first (k : nat) (cs : list PrintNode) : list line :=
               match k, cs with
               | S k, child :: cs =>
                   FileTreePrint child
                     (depth + (if (depth =? 0)%nat then 0 else 1))
                   ++ first k cs
               | _, _ => []
               end) k cs
            = concat (map (λ child,
                             FileTreePrint child
                               (depth + (if (depth =? 0)%nat then 0 else 1)))
                          (take k cs))).
  { intros k cs. revert k.
    induction cs as [|c cs IH]; intros [|k]; try reflexivity.
    cbn [take map concat]. by rewrite <-IH. }
  destruct children as [children|]; [|reflexivity].
  rewrite <-Hloop. reflexivity.
Qed.

End PrintFacts.

(** X10: the report prints its file tree with [depth={0}], and at depth 0
    the children are printed at depth 0 again; so no name is ever written:
    the only lines are the '... and n more items' lines of the folders that
    have more than fifty children. *)
Theorem FileTreePrint_writes_no_name (node : ReportBody.PrintNode) :
  Forall (λ l, ∃ omitted, l = ReportBody.MoreLine 0 omitted ∧ 0 < omitted)
         (ReportBody.FileTreePrint node 0).
Proof.
  induction node as [name type|name type children IH]
    using PrintNode_induction;
    rewrite FileTreePrint_unfold;
    change (0 <? 0)%nat with false; change (0 =? 0)%nat with true;
    cbn [app]; [constructor|].
  apply Forall_app. split.
  - apply Forall_concat, Forall_fmap.
    apply Forall_take. eapply Forall_impl; [exact IH|].
    intros c Hc. cbn [Nat.add] in *. exact Hc.
  - destruct (50 <? length children)%nat eqn:Hlen; constructor; [|constructor].
    apply Nat.ltb_lt in Hlen. eexists. split; [done|lia].
Qed.

(** X11: below the top level a node's own line comes first, one level
    deeper than its parent's. *)
Theorem FileTreePrint_below_top (name type : jsstring)
    (children : option (list ReportBody.PrintNode)) (depth : nat) :
  0 < depth →
  ∃ rest,
    ReportBody.FileTreePrint (ReportBody.PNode name type children) depth
    = ReportBody.NameLine depth (bool_decide (type = lit "folder")) name
      :: rest
    ∧ (∀ c cs, children = Some (c :: cs) →
         ∃ rest', rest = ReportBody.FileTreePrint c (depth + 1) ++ rest').
Proof.
  intros Hdepth. rewrite FileTreePrint_unfold.
  destruct depth as [|d]; [lia|].
  change (0 <? S d)%nat with true. change (S d =? 0)%nat with false.
  cbn [app].
  eexists. split; [done|]. intros c cs ->. cbn [take map concat].
  rewrite <-app_assoc. by eexists.
Qed.

Lemma FileTreePrint_below_top_witness :
  ∃ rest,
    ReportBody.FileTreePrint
      (ReportBody.PNode (lit "src") (lit "folder")
         (Some [ReportBody.PNode (lit "a.py") (lit "file") None])) 1
    = ReportBody.NameLine 1 true (lit "src") :: rest
    ∧ (∀ c cs,
         Some [ReportBody.PNode (lit "a.py") (lit "file") None]
         = Some (c :: cs) →
         ∃ rest', rest = ReportBody.FileTreePrint c (1 + 1) ++ rest').
Proof.
  apply (FileTreePrint_below_top (lit "src") (lit "folder")
           (Some [ReportBody.PNode (lit "a.py") (lit "file") None]) 1).
  lia.
Defined.

(** ** Report.jsx: the name of the repository and the summary blocks *)

Section ReportFacts.
Import ReportBody.

Lemma remove_first_unfold (pat s : jsstring) :
  remove_first pat s
  = if bool_decide (pat `prefix_of` s) then drop (length pat) s
    else match s with
         | [] => []
         | c :: t => c :: remove_first pat t
         end.
Proof. by destruct s. Qed.

Lemma occurs_unfold (pat s : jsstring) :
  occurs pat s
  = bool_decide (pat `prefix_of` s)
    || match s with
       | [] => false
       | _ :: t => occurs pat t
       end.
Proof. by destruct s. Qed.

Lemma prefix_of_shorter (l x y : jsstring) :
  l `prefix_of` x ++ y → length l ≤ length x → l `prefix_of` x.
Proof.
  intros [k Hk] Hlen. symmetry in Hk.
  apply app_eq_app in Hk as [r [[-> _]|[-> _]]].
  - rewrite length_app in Hlen. destruct r; simpl in Hlen; [|lia].
    rewrite app_nil_r. done.
  - by exists r.
Qed.

(** The occurrence that goes is the first one. *)
Lemma remove_first_first (pat' : jsstring) (x : N) (a b : jsstring) :
  occurs (pat' ++ [x]) (a ++ pat') = false →
  remove_first (pat' ++ [x]) (a ++ (pat' ++ [x]) ++ b) = a ++ b.
Proof.
  induction a as [|c a IH]; intros Hno; rewrite remove_first_unfold.
  - cbn [app]. rewrite bool_decide_eq_true_2 by (by exists b).
    by rewrite drop_app_length.
  - rewrite occurs_unfold in Hno. apply orb_false_iff in Hno as [Hp Hno].
    apply bool_decide_eq_false_1 in Hp.
    rewrite bool_decide_eq_false_2.
    + cbn [app]. f_equal. by apply IH.
    + intros Hpre. apply Hp.
      apply (prefix_of_shorter _ _ ([x] ++ b)).
      * by rewrite <-!app_assoc in *.
      * rewrite !length_app. simpl. lia.
Qed.

Lemma remove_first_absent (pat s : jsstring) :
  occurs pat s = false → remove_first pat s = s.
Proof.
  induction s as [|c s IH]; rewrite occurs_unfold, remove_first_unfold;
    intros [Hp Hno]%orb_false_iff; rewrite Hp; [done|].
  f_equal. by apply IH.
Qed.

Lemma pop_segment_plain (s : jsstring) :
  chr "/" ∉ s → GraphView.pop_segment s = s.
Proof.
  intros Hs. unfold GraphView.pop_segment.
  by rewrite split_on_no_sep by by apply not_elem_of_Forall.
Qed.

End ReportFacts.

(** X12: the name on the report is the last segment of the URL with its
    first ['.git'] taken out, wherever that stands in the segment. *)
Theorem repoName_removes_first_git (pre seg a b : jsstring) :
  chr "/" ∉ seg →
  seg = a ++ lit ".git" ++ b →
  ReportBody.occurs (lit ".git") (a ++ lit ".gi") = false →
  a ++ b ≠ [] →
  ReportBody.repoName (Some (pre ++ chr "/" :: seg)) = a ++ b.
Proof.
  intros Hseg -> Hfirst Hne. unfold ReportBody.repoName.
  rewrite pop_segment_after, pop_segment_plain by done.
  change (lit ".git") with (lit ".gi" ++ [chr "t"]).
  rewrite remove_first_first by done.
  by destruct (a ++ b).
Qed.

Lemma repoName_removes_first_git_witness :
  ReportBody.repoName (Some (lit "https://github.com/u/my.github.io"))
  = lit "myhub.io".
Proof.
  apply (repoName_removes_first_git (lit "https://github.com/u")
           (lit "my.github.io") (lit "my") (lit "hub.io")).
  - apply (bool_decide_unpack _). by vm_compute.
  - reflexivity.
  - by vm_compute.
  - intros H. by vm_compute in H.
Defined.

(** X13: a last segment without ['.git'] is the name as it stands; the
    name falls back to ['Repository'] when there is no URL, when the URL
    ends in a slash, and when the last segment is ['.git'] alone. *)
Theorem repoName_fallback (pre seg : jsstring) :
  ReportBody.repoName None = lit "Repository"
  ∧ ReportBody.repoName (Some (pre ++ [chr "/"])) = lit "Repository"
  ∧ ReportBody.repoName (Some (pre ++ chr "/" :: lit ".git"))
    = lit "Repository"
  ∧ (chr "/" ∉ seg → seg ≠ [] →
     ReportBody.occurs (lit ".git") seg = false →
     ReportBody.repoName (Some (pre ++ chr "/" :: seg)) = seg).
Proof.
  unfold ReportBody.repoName. rewrite !pop_segment_after.
  split; [done|]. split; [done|]. split; [done|].
  intros Hseg Hne Hno.
  rewrite pop_segment_plain, remove_first_absent by done.
  by destruct seg.
Qed.

Lemma repoName_fallback_witness :
  ReportBody.repoName (Some (lit "https://github.com/psf/requests"))
  = lit "requests".
Proof.
  apply (repoName_fallback (lit "https://github.com/psf") (lit "requests")).
  - apply (bool_decide_unpack _). by vm_compute.
  - intros H. by vm_compute in H.
  - by vm_compute.
Defined.

(** X14: the 'Module Dependencies' block of the report against the bar
    above the graph, for a payload in the backend format that the graph can
    process: the same two numbers, the files of the first thirty graph
    nodes, and a remainder that accounts for the rest. *)
Theorem Report_dependencies_match_graph
    (ns : list DependencyGraph.rawNode)
    (es : option (list DependencyGraph.rawEdge))
    (p : DependencyGraph.processed) :
  DependencyGraph.processedData (DependencyGraph.DBackend ns es) = Some p →
  ns ≠ [] →
  ∃ b,
    ReportBody.dependencies_block ns es = Some b
    ∧ DependencyGraph.render_header (DependencyGraph.DBackend ns es)
      = Some (DependencyGraph.StatsBar (ReportBody.block_modules b)
                                       (ReportBody.block_internal b))
    ∧ ReportBody.block_listed b
      = take 30 (map DependencyGraph.file (DependencyGraph.nodes p))
    ∧ length (ReportBody.block_listed b)
      + default 0 (ReportBody.block_more b)
      = ReportBody.block_modules b.
Proof.
  intros Hp Hne.
  destruct (processedData_backend _ _ _ Hp) as (Hedges & Hfiles & _).
  assert (Hlen : length (DependencyGraph.nodes p) = length ns).
  { by rewrite <-(length_map DependencyGraph.file), Hfiles, length_map. }
  unfold ReportBody.dependencies_block, DependencyGraph.render_header.
  rewrite Hp. cbn [mbind option_bind DependencyGraph.no_data].
  rewrite bool_decide_eq_false_2 by done.
  destruct ns as [|n ns]; [done|].
  change (0 <? length (n :: ns))%nat with true.
  eexists. split; [done|].
  cbn [ReportBody.block_modules ReportBody.block_internal
       ReportBody.block_listed ReportBody.block_more].
  split; [|split].
  - rewrite Hlen, Hedges, length_map. by destruct es.
  - by rewrite Hfiles, <-fmap_take.
  - rewrite length_map, length_take.
    generalize (length (n :: ns)). intros k.
    destruct (Nat.ltb_spec 30 k); cbn [default id]; lia.
Qed.

Lemma Report_dependencies_match_graph_witness :
  ∃ b,
    ReportBody.dependencies_block
      [DependencyGraph.RawNode (lit "1") (Some (lit "a.py")) None None;
       DependencyGraph.RawNode (lit "2") None (Some (lit "b.py")) None]
      (Some [DependencyGraph.RawEdge (lit "1") (lit "2")])
    = Some b
    ∧ ReportBody.block_modules b = 2
    ∧ ReportBody.block_internal b = 1.
Proof.
  destruct (Report_dependencies_match_graph
              [DependencyGraph.RawNode (lit "1") (Some (lit "a.py")) None None;
               DependencyGraph.RawNode (lit "2") None (Some (lit "b.py")) None]
              (Some [DependencyGraph.RawEdge (lit "1") (lit "2")])
              _ eq_refl) as (b & Hb & _); [done|].
  exists b. split; [exact Hb|]. by injection Hb as <-.
Defined.

(** X15: the report and the AI tab on the same payload.  With a numeric
    [ai_percentage] [a], which counts as 0 when it is 0 or [NaN], and no
    [human_percentage], the tab shows [100 - a] as 'Human Written' and the
    report shows 100.  The two agree exactly when [100 - a] is 100 in
    double arithmetic: for 0, and for an [a] too small to change 100. *)
Theorem Report_human_percentage_differs
    (coerce : AIDetection.jsval → AIDetection.number)
    (data : AIDetection.jsval) (a : AIDetection.number) :
  AIDetection.get data (lit "ai_percentage") = Some (AIDetection.VNum a) →
  AIDetection.missing (lit "human_percentage") data →
  let shown := if AIDetection.truthy (AIDetection.VNum a) then a
               else 0%float in
  ReportBody.report_humanPercentage data
  = Some (AIDetection.VNum 100%float)
  ∧ AIDetection.humanPercentage_of coerce data
    = Some (AIDetection.VNum (PrimFloat.sub 100%float shown))
  ∧ (ReportBody.report_humanPercentage data
     = AIDetection.humanPercentage_of coerce data
     ↔ PrimFloat.sub 100%float shown = 100%float).
Proof.
  intros Hai Hhuman shown. unfold AIDetection.missing in Hhuman.
  unfold ReportBody.report_humanPercentage, AIDetection.humanPercentage_of,
    AIDetection.aiPercentage_of.
  rewrite Hai, Hhuman. cbn [mbind option_bind].
  replace (AIDetection.ToNumber coerce
             (AIDetection.or_else (AIDetection.VNum a)
                (AIDetection.VNum 0%float))) with shown
    by (unfold AIDetection.or_else; subst shown;
        by destruct (AIDetection.truthy (AIDetection.VNum a))).
  change (AIDetection.or_else AIDetection.VUndefined ?v) with v.
  split; [done|]. split; [done|]. split.
  - by intros [= <-].
  - by intros ->.
Qed.

Lemma Report_human_percentage_differs_witness :
  ReportBody.report_humanPercentage
    (AIDetection.VObj [(lit "ai_percentage", AIDetection.VNum 72.5%float)])
  = Some (AIDetection.VNum 100%float)
  ∧ AIDetection.humanPercentage_of (λ _, PrimFloat.nan)
      (AIDetection.VObj [(lit "ai_percentage", AIDetection.VNum 72.5%float)])
    = Some (AIDetection.VNum 27.5%float).
Proof.
  destruct (Report_human_percentage_differs (λ _, PrimFloat.nan)
              (AIDetection.VObj
                 [(lit "ai_percentage", AIDetection.VNum 72.5%float)])
              72.5%float eq_refl eq_refl) as (H1 & H2 & _).
  split; [exact H1|exact H2].
Defined.

(** An AI percentage of [2^-70] is shown as such, and both places show 100
    as the human percentage. *)
Example Report_human_percentage_tiny :
  ReportBody.report_humanPercentage
    (AIDetection.VObj [(lit "ai_percentage", AIDetection.VNum 0x1p-70%float)])
  = AIDetection.humanPercentage_of (λ _, PrimFloat.nan)
      (AIDetection.VObj
         [(lit "ai_percentage", AIDetection.VNum 0x1p-70%float)]).
Proof. reflexivity. Qed.

(** ** Chat.jsx *)

Section ChatFacts.
Import Chat.

Lemma trimStart_blank (s : jsstring) :
  Forall (λ c, is_ws c = true) s → trimStart s = [].
Proof. induction 1 as [|c s Hc _ IH]; simpl; [done|]. by rewrite Hc. Qed.

Lemma trim_blank (s : jsstring) :
  Forall (λ c, is_ws c = true) s → trim s = [].
Proof. intros H. unfold trim. by rewrite trimStart_blank. Qed.

Lemma alternating_app (ms ms' : list message) :
  alternating ms → alternating ms' → alternating (ms ++ ms').
Proof.
  intros Hms Hms'. revert ms Hms. fix IH 1. intros [|q [|a rest]]; simpl.
  - done.
  - done.
  - intros (Hq & Ha & Hrest). split; [done|]. split; [done|].
    by apply IH.
Qed.

(** What holds of the transcript and of the requests sent so far. *)
Lemma handleSendMessage_keeps (repoUrl : jsstring)
    (respond : request → response) (st : state) (sent : list request) :
  let r := handleSendMessage repoUrl respond st in
  alternating (messages st) →
  length (messages st) = 2 * length sent →
  Forall (λ q, history q `prefix_of` messages st ∧ repo q = repoUrl) sent →
  alternating (messages (fst r))
  ∧ length (messages (fst r)) = 2 * length (sent ++ snd r)
  ∧ Forall (λ q, history q `prefix_of` messages (fst r) ∧ repo q = repoUrl)
           (sent ++ snd r)
  ∧ length (snd r) = (if decide (trim (input st) = []) then 0 else 1)
  ∧ messages st `prefix_of` messages (fst r).
Proof.
  intros r Halt Hlen Hsent. subst r. unfold handleSendMessage.
  destruct (trim (input st)) as [|c t] eqn:Htrim; cbn [fst snd].
  - rewrite app_nil_r. done.
  - cbn [messages]. split; [|split; [|split; [|split]]].
    + apply alternating_app; [done|]. simpl.
      by destruct (respond _) as [|[] [?|]].
    + rewrite !length_app. simpl. lia.
    + apply Forall_app. split.
      * eapply Forall_impl; [exact Hsent|]. intros q [Hq ?]. split; [|done].
        by apply prefix_app_r.
      * constructor; [|constructor]. split; [|done]. cbn [history].
        by eexists.
    + done.
    + by eexists.
Qed.

End ChatFacts.

(** X16: a conversation from the empty transcript.  Whatever the server
    answers, and also when the request fails, the transcript alternates
    between user and assistant, holds two messages per request sent, one
    request is sent per text that is not blank, and the history every
    request carried is a prefix of the final transcript. *)
Theorem Chat_transcript (repoUrl : jsstring)
    (respond : Chat.request → Chat.response) (texts : list jsstring) :
  let r := Chat.converse repoUrl respond texts (Chat.State [] [] false) in
  Chat.alternating (Chat.messages (fst r))
  ∧ length (Chat.messages (fst r)) = 2 * length (snd r)
  ∧ length (snd r) = length (filter (λ t, trim t ≠ []) texts)
  ∧ Forall (λ q, Chat.history q `prefix_of` Chat.messages (fst r)
                 ∧ Chat.repo q = repoUrl) (snd r).
Proof.
  unfold Chat.converse.
  assert (Hgen : ∀ st sent,
            Chat.alternating (Chat.messages st) →
            length (Chat.messages st) = 2 * length sent →
            Forall (λ q, Chat.history q `prefix_of` Chat.messages st
                         ∧ Chat.repo q = repoUrl) sent →
            let r :=
              foldl (λ acc text,
                       let '(st', sent') :=
                         Chat.handleSendMessage repoUrl respond
                           (Chat.setInput text (fst acc)) in
                       (st', snd acc ++ sent'))
                    (st, sent) texts in
            Chat.alternating (Chat.messages (fst r))
            ∧ length (Chat.messages (fst r)) = 2 * length (snd r)
            ∧ length (snd r)
              = length sent + length (filter (λ t, trim t ≠ []) texts)
            ∧ Forall (λ q, Chat.history q `prefix_of` Chat.messages (fst r)
                           ∧ Chat.repo q = repoUrl) (snd r)).
  { induction texts as [|text texts IH]; intros st sent Halt Hlen Hsent;
      cbn [foldl fst snd].
    - rewrite filter_nil. simpl. split; [done|]. split; [done|].
      split; [lia|done].
    - pose proof (handleSendMessage_keeps repoUrl respond
                    (Chat.setInput text st) sent Halt Hlen Hsent)
        as (H1 & H2 & H3 & H4 & _).
      destruct (Chat.handleSendMessage repoUrl respond
                  (Chat.setInput text st)) as [st' sent'] eqn:Hsend.
      cbn [fst snd] in *.
      destruct (IH st' (sent ++ sent') H1 H2 H3) as (G1 & G2 & G3 & G4).
      split; [done|]. split; [done|]. split; [|done].
      rewrite G3, length_app, H4, filter_cons.
      repeat case_decide; simpl; try lia; done. }
  cbv zeta.
  destruct (Hgen (Chat.State [] [] false) []) as (G1 & G2 & G3 & G4);
    [done|done|constructor|].
  done.
Qed.

(** X17: a blank input sends nothing and changes nothing. *)
Theorem handleSendMessage_blank (repoUrl : jsstring)
    (respond : Chat.request → Chat.response) (st : Chat.state) :
  Forall (λ c, is_ws c = true) (Chat.input st) →
  Chat.handleSendMessage repoUrl respond st = (st, []).
Proof.
  intros H. unfold Chat.handleSendMessage. by rewrite trim_blank.
Qed.

Lemma handleSendMessage_blank_witness :
  Chat.handleSendMessage (lit "https://github.com/psf/requests")
    (λ _, Chat.FetchRejected) (Chat.State [] (lit "   ") true)
  = (Chat.State [] (lit "   ") true, []).
Proof.
  apply (handleSendMessage_blank (lit "https://github.com/psf/requests")
           (λ _, Chat.FetchRejected) (Chat.State [] (lit "   ") true)).
  vm_compute. repeat constructor.
Defined.

(** X18: when the request fails (the fetch is rejected, the status is not
    ok, or the body gives no value to read [response] from) the user's
    message stays in the transcript, the apology follows it, the input is
    cleared and the loading flag is off again. *)
Theorem handleSendMessage_failure (repoUrl : jsstring)
    (respond : Chat.request → Chat.response) (st : Chat.state) :
  trim (Chat.input st) ≠ [] →
  (∀ text, respond (Chat.Request repoUrl (Chat.input st) (Chat.messages st))
           ≠ Chat.HttpResponse true (Some text)) →
  Chat.handleSendMessage repoUrl respond st
  = (Chat.State
       (Chat.messages st
        ++ [Chat.Message Chat.user (Some (Chat.input st));
            Chat.Message Chat.assistant (Some Chat.apology)])
       [] false,
     [Chat.Request repoUrl (Chat.input st) (Chat.messages st)]).
Proof.
  intros Hne Hfail. unfold Chat.handleSendMessage.
  destruct (trim (Chat.input st)) as [|c t]; [done|].
  destruct (respond _) as [|[] [text|]] eqn:Hr; try done.
  by destruct (Hfail text).
Qed.

Lemma handleSendMessage_failure_witness :
  Chat.handleSendMessage (lit "u")
    (λ _, Chat.HttpResponse false (Some (Some (lit "no"))))
    (Chat.State [] (lit " hi ") false)
  = (Chat.State
       [Chat.Message Chat.user (Some (lit " hi "));
        Chat.Message Chat.assistant (Some Chat.apology)]
       [] false,
     [Chat.Request (lit "u") (lit " hi ") []]).
Proof.
  apply (handleSendMessage_failure (lit "u")
           (λ _, Chat.HttpResponse false (Some (Some (lit "no"))))
           (Chat.State [] (lit " hi ") false)).
  - intros H. by vm_compute in H.
  - intros text H. discriminate H.
Defined.

(** ** Tabs.jsx *)

Section TabsFacts.

Lemma filter_none {X : Type} (P : X → Prop) `{!∀ x, Decision (P x)}
    (l : list X) :
  Forall (λ x, ¬ P x) l → filter P l = [].
Proof.
  induction 1 as [|x l Hx _ IH]; [done|].
  by rewrite filter_cons, decide_False.
Qed.

End TabsFacts.

(** X19: with distinct tab ids, a click on a tab shows the content of that
    tab and draws that tab, and no other, as active. *)
Theorem Tabs_click {C : Type} (tabs : list (Tabs.tab C)) (t : Tabs.tab C)
    (activeTab : jsstring) :
  NoDup (map Tabs.id tabs) → t ∈ tabs →
  Tabs.shown tabs (Tabs.click t activeTab) = Some (Tabs.content_of t)
  ∧ Tabs.highlighted tabs (Tabs.click t activeTab) = [t].
Proof.
  unfold Tabs.click, Tabs.shown, Tabs.highlighted.
  induction tabs as [|u tabs IH]; [by intros _ ?%elem_of_nil|].
  cbn [map find]. intros [Hu Hnd]%NoDup_cons Hin. rewrite filter_cons.
  apply elem_of_cons in Hin as [->|Hin].
  - rewrite bool_decide_eq_true_2, decide_True by done.
    split; [done|]. f_equal. apply filter_none.
    apply Forall_forall. intros v Hv Heq. apply Hu. rewrite <-Heq.
    apply list_elem_of_fmap. by exists v.
  - assert (Hne : Tabs.id u ≠ Tabs.id t).
    { intros Heq. apply Hu. rewrite Heq. apply list_elem_of_fmap.
      by exists t. }
    rewrite bool_decide_eq_false_2, decide_False by done. by apply IH.
Qed.

Lemma Tabs_click_witness :
  Tabs.shown
    (map (λ i, Tabs.Tab i i (Tabs.Element i))
       [lit "overview"; lit "docs"; lit "debt"; lit "onboarding";
        lit "filetree"; lit "dependencies"; lit "ai-detection"; lit "chat"])
    (Tabs.click (Tabs.Tab (lit "chat") (lit "chat")
                   (Tabs.Element (lit "chat")))
       (lit "overview"))
  = Some (lit "chat").
Proof.
  apply (Tabs_click
           (map (λ i, Tabs.Tab i i (Tabs.Element i))
              [lit "overview"; lit "docs"; lit "debt"; lit "onboarding";
               lit "filetree"; lit "dependencies"; lit "ai-detection";
               lit "chat"])
           (Tabs.Tab (lit "chat") (lit "chat") (Tabs.Element (lit "chat")))
           (lit "overview")).
  - apply (bool_decide_unpack _). by vm_compute.
  - vm_compute. repeat constructor.
Defined.

(** X20: the component starts on its first tab and shows that tab's
    content, whether the ids are distinct or not; without a first tab it
    throws. *)
Theorem Tabs_initial {C : Type} (t : Tabs.tab C) (rest : list (Tabs.tab C)) :
  Tabs.initial (t :: rest) = Some (Tabs.id t)
  ∧ Tabs.shown (t :: rest) (Tabs.id t) = Some (Tabs.content_of t)
  ∧ (∃ more, Tabs.highlighted (t :: rest) (Tabs.id t) = t :: more)
  ∧ Tabs.initial (@nil (Tabs.tab C)) = None.
Proof.
  unfold Tabs.shown, Tabs.highlighted. cbn [Tabs.initial find].
  rewrite bool_decide_eq_true_2, filter_cons, decide_True by done.
  split; [done|]. split; [done|]. split; [by eexists|done].
Qed.

(** ** FileTree.jsx: sizes *)

(** X21: between one kibibyte and one mebibyte the size is shown in KB with
    one decimal, at most half a tenth away from the exact quotient; the
    number shown lies between 1.0 and 1024.0, and it is 1024.0 from
    1048525 bytes on. *)
Theorem formatSize_KB (exponential : N → N → jsstring) (bytes : N) :
  (1024 ≤ bytes < 1024 * 1024)%N →
  FileTreeView.formatSize exponential bytes
  = FileTreeView.fixed1 bytes 1024 ++ lit " KB"
  ∧ (1024 * FileTreeView.tenths bytes 1024 ≤ 10 * bytes + 512
     < 1024 * FileTreeView.tenths bytes 1024 + 1024)%N
  ∧ (10 ≤ FileTreeView.tenths bytes 1024 ≤ 10240)%N
  ∧ (FileTreeView.tenths bytes 1024 = 10240 ↔ 1048525 ≤ bytes)%N.
Proof.
  intros [Hlo Hhi].
  unfold FileTreeView.formatSize, FileTreeView.toFixed1.
  destruct (N.ltb_spec bytes 1024) as [?|_]; [lia|].
  destruct (N.ltb_spec bytes (1024 * 1024)) as [_|?]; [|lia].
  change (10 ^ 21 * 1024)%N with 1024000000000000000000000%N.
  destruct (N.leb_spec 1024000000000000000000000 bytes) as [?|_]; [lia|].
  split; [done|]. unfold FileTreeView.tenths.
  change (1024 / 2)%N with 512%N.
  pose proof (N.Div0.div_mod (10 * bytes + 512) 1024) as Hdiv.
  assert (Hmod : ((10 * bytes + 512) mod 1024 < 1024)%N)
    by (by apply N.mod_upper_bound).
  revert Hdiv Hmod.
  generalize ((10 * bytes + 512) / 1024)%N ((10 * bytes + 512) mod 1024)%N.
  intros q r Hdiv Hmod. lia.
Qed.

Lemma formatSize_KB_witness :
  FileTreeView.formatSize (λ _ _, []) 1536 = lit "1.5 KB".
Proof.
  destruct (formatSize_KB (λ _ _, []) 1536) as [H _]; [lia|].
  rewrite H. by vm_compute.
Defined.

(** X22: below one kibibyte the size is the byte count itself; from one
    mebibyte on, for a byte count below [2^53] (the integers a double
    holds one by one), it is shown in MB with one decimal, again at most
    half a tenth away from the exact quotient. *)
Theorem formatSize_B_and_MB (exponential : N → N → jsstring) (bytes : N) :
  ((bytes < 1024)%N →
   FileTreeView.formatSize exponential bytes
   = lit (pretty bytes) ++ lit " B")
  ∧ ((1024 * 1024 ≤ bytes < 2 ^ 53)%N →
     FileTreeView.formatSize exponential bytes
     = FileTreeView.fixed1 bytes (1024 * 1024) ++ lit " MB"
     ∧ (1024 * 1024 * FileTreeView.tenths bytes (1024 * 1024)
        ≤ 10 * bytes + 524288
        < 1024 * 1024 * FileTreeView.tenths bytes (1024 * 1024)
          + 1024 * 1024)%N
     ∧ (10 ≤ FileTreeView.tenths bytes (1024 * 1024))%N).
Proof.
  unfold FileTreeView.formatSize, FileTreeView.toFixed1. split.
  - intros H. by destruct (N.ltb_spec bytes 1024) as [_|?]; [|lia].
  - change (2 ^ 53)%N with 9007199254740992%N.
    change (10 ^ 21 * (1024 * 1024))%N
      with 1048576000000000000000000000%N.
    intros [H Hhi].
    destruct (N.ltb_spec bytes 1024) as [?|_]; [lia|].
    destruct (N.ltb_spec bytes (1024 * 1024)) as [?|_]; [lia|].
    destruct (N.leb_spec 1048576000000000000000000000 bytes) as [?|_];
      [lia|].
    split; [done|]. unfold FileTreeView.tenths.
    change (1024 * 1024 / 2)%N with 524288%N.
    change (1024 * 1024)%N with 1048576%N in *.
    pose proof (N.Div0.div_mod (10 * bytes + 524288) 1048576) as Hdiv.
    assert (Hmod : ((10 * bytes + 524288) mod 1048576 < 1048576)%N)
      by (by apply N.mod_upper_bound).
    revert Hdiv Hmod.
    generalize ((10 * bytes + 524288) / 1048576)%N
               ((10 * bytes + 524288) mod 1048576)%N.
    intros q r Hdiv Hmod. lia.
Qed.

Lemma formatSize_B_and_MB_witness :
  FileTreeView.formatSize (λ _ _, []) 1023 = lit "1023 B"
  ∧ FileTreeView.formatSize (λ _ _, []) 5242880 = lit "5.0 MB".
Proof.
  destruct (formatSize_B_and_MB (λ _ _, []) 1023) as [H1 _].
  destruct (formatSize_B_and_MB (λ _ _, []) 5242880) as [_ H2].
  split.
  - rewrite H1 by lia. by vm_compute.
  - destruct H2 as [H2 _]; [by vm_compute|]. rewrite H2. by vm_compute.
Defined.

(** ** DependencyGraph.jsx: more on the processed graph *)

Section GraphFacts.
Import Regex DependencyGraph.

Lemma getFileExtension_shape (path : jsstring) :
  getFileExtension path = []
  ∨ ∃ rest, getFileExtension path = chr "." :: rest
            ∧ rest ≠ [] ∧ chr "." ∉ rest.
Proof.
  unfold getFileExtension.
  assert (Hm : ∀ s m, match_suffix extensionPattern s = Some m →
                      Lang extensionPattern m).
  { induction s as [|d s IH]; intros m; cbn [match_suffix].
    - destruct (matches extensionPattern []) eqn:Hmatch; [|done].
      intros [= <-]. by apply matches_Lang.
    - destruct (matches extensionPattern (d :: s)) eqn:Hmatch.
      + intros [= <-]. by apply matches_Lang.
      + apply IH. }
  destruct (match_suffix extensionPattern path) as [m|] eqn:Hp; [|by left].
  right. apply Hm in Hp. by apply Lang_extensionPattern in Hp.
Qed.

Lemma entry_edges_from (entries : list (jsstring * legacyValue)) :
  Forall (λ e, from e ∈ map (λ n, Own (file n))
                           (concat (map entry_nodes entries)))
         (concat (map entry_edges entries)).
Proof.
  induction entries as [|[f [imps|]] entries IH]; cbn [map concat];
    [constructor| |done].
  cbn [entry_nodes entry_edges]. apply Forall_app. split.
  - apply Forall_forall. intros e (imp & -> & _)%list_elem_of_fmap.
    cbn [from app map file]. constructor.
  - eapply Forall_impl; [exact IH|]. intros e He. cbn [app map].
    by constructor.
Qed.

Lemma entry_edges_length (entries : list (jsstring * legacyValue)) :
  length (concat (map entry_edges entries))
  = list_sum (map (λ n, length (imports n))
                  (concat (map entry_nodes entries))).
Proof.
  induction entries as [|[f [imps|]] entries IH]; cbn [map concat];
    [done| |done].
  cbn [entry_nodes entry_edges app map list_sum imports].
  by rewrite length_app, !length_map, IH.
Qed.

End GraphFacts.

(** X23: the files shown as importing a selected file against the edge
    list.  For a non-empty selected file [B], a file [A] is among them
    exactly when the processed edge list holds an edge from [A] to [B]. *)
Theorem selectedImportedBy_are_edges
    (data : DependencyGraph.depsData) (p : DependencyGraph.processed)
    (A B : jsstring) :
  DependencyGraph.processedData data = Some p →
  B ≠ [] →
  Some A ∈ DependencyGraph.selectedImportedBy p (Some B)
  ↔ DependencyGraph.Edge (DependencyGraph.Own (Some A))
                         (DependencyGraph.Own (Some B))
    ∈ DependencyGraph.edges p.
Proof.
  intros Hp HB.
  destruct (processedData_consistent _ _ Hp) as (_ & _ & _ & Hedges).
  cbn [DependencyGraph.acc_nodes DependencyGraph.acc_edges] in Hedges.
  rewrite <-(Hedges A (DependencyGraph.Own (Some B))) by (by destruct B).
  unfold DependencyGraph.selectedImportedBy.
  destruct B as [|c t]; [done|]. unfold GraphView.imported.
  rewrite list_elem_of_fmap. split.
  - intros (n & Hf & [Himp Hin]%list_elem_of_filter). by exists n.
  - intros (n & Hin & Hf & Himp). exists n. split; [done|].
    by apply list_elem_of_filter.
Qed.

Lemma selectedImportedBy_are_edges_witness :
  ∃ p,
    DependencyGraph.processedData
      (DependencyGraph.DLegacy
         [(lit "a.py", DependencyGraph.LImports [lit "b.py"])])
    = Some p
    ∧ (Some (lit "a.py")
         ∈ DependencyGraph.selectedImportedBy p (Some (lit "b.py"))
       ↔ DependencyGraph.Edge (DependencyGraph.Own (Some (lit "a.py")))
                              (DependencyGraph.Own (Some (lit "b.py")))
         ∈ DependencyGraph.edges p).
Proof.
  eexists. split; [by vm_compute|].
  apply (selectedImportedBy_are_edges
           (DependencyGraph.DLegacy
              [(lit "a.py", DependencyGraph.LImports [lit "b.py"])])).
  - by vm_compute.
  - intros H. by vm_compute in H.
Defined.

(** X24: every key of [byType], that is every filter button besides 'all',
    is a dot followed by at least one character that is not a dot, and its
    count is positive. *)
Theorem byType_keys
    (data : DependencyGraph.depsData) (p : DependencyGraph.processed)
    (k : jsstring) (c : nat) :
  DependencyGraph.processedData data = Some p →
  DependencyGraph.byType p !! k = Some c →
  0 < c ∧ ∃ rest, k = chr "." :: rest ∧ rest ≠ [] ∧ chr "." ∉ rest.
Proof.
  intros Hp Hk.
  pose proof (processedData_byType _ _ Hp) as Hfold.
  destruct (count_type_fold_inv _ _ _ Hfold) as (_ & Hcount & _).
  specialize (Hcount k). rewrite Hk, lookup_empty in Hcount. simpl in Hcount.
  destruct (count_type_fold_key _ _ _ k Hfold)
    as [[? Hm]|(n & f & Hin & Hf & Hkey)];
    [done|by rewrite lookup_empty in Hm|].
  split.
  - assert (Hn : n ∈ filter
                   (λ n, DependencyGraph.type_key <$> DependencyGraph.file n
                         = Some k) (DependencyGraph.nodes p)).
    { apply list_elem_of_filter. split; [|done]. by rewrite Hf, <-Hkey. }
    rewrite Hcount. destruct (filter _ _); [by apply elem_of_nil in Hn|].
    simpl. lia.
  - rewrite <-Hkey. unfold DependencyGraph.type_key.
    destruct (getFileExtension_shape f) as [->|(rest & -> & Hne & Hdot)].
    + exists (lit "other"). split; [done|]. split; [done|].
      apply (bool_decide_unpack _). by vm_compute.
    + by exists rest.
Qed.

Lemma byType_keys_witness :
  0 < 1 ∧ ∃ rest, lit ".other" = chr "." :: rest
                  ∧ rest ≠ [] ∧ chr "." ∉ rest.
Proof.
  eapply (byType_keys
            (DependencyGraph.DLegacy
               [(lit "Makefile", DependencyGraph.LImports [])])
            _ (lit ".other") 1).
  - by vm_compute.
  - by vm_compute.
Defined.

(** X25: the legacy format is processed without throwing, whatever the
    values are: the entries whose value is not an array are skipped, every
    edge starts at a node of the graph, and there are as many edges as
    imports listed on the nodes. *)
Theorem legacy_processing
    (entries : list (jsstring * DependencyGraph.legacyValue)) :
  (∀ ns, DependencyGraph.entry_get (lit "nodes") entries
         ≠ Some (DependencyGraph.LImports ns)) →
  ∃ p,
    DependencyGraph.processedData (DependencyGraph.DLegacy entries) = Some p
    ∧ DependencyGraph.nodes p
      = concat (map DependencyGraph.entry_nodes entries)
    ∧ Forall (λ e, DependencyGraph.from e
                   ∈ map (λ n, DependencyGraph.Own (DependencyGraph.file n))
                         (DependencyGraph.nodes p))
             (DependencyGraph.edges p)
    ∧ length (DependencyGraph.edges p)
      = list_sum (map (λ n, length (DependencyGraph.imports n))
                      (DependencyGraph.nodes p)).
Proof.
  intros Hnodes.
  destruct (process_legacy entries) as (p & Hp & Hn & He & _).
  exists p. split.
  - cbn [DependencyGraph.processedData].
    destruct (DependencyGraph.entry_get (lit "nodes") entries)
      as [[ns|]|] eqn:Hget; [by destruct (Hnodes ns)|done|done].
  - split; [done|]. rewrite Hn, He.
    split; [apply entry_edges_from|apply entry_edges_length].
Qed.

Lemma legacy_processing_witness :
  ∃ p,
    DependencyGraph.processedData
      (DependencyGraph.DLegacy
         [(lit "a.py", DependencyGraph.LImports [lit "os"; lit "b.py"]);
          (lit "version", DependencyGraph.LOther)])
    = Some p
    ∧ length (DependencyGraph.nodes p) = 1
    ∧ length (DependencyGraph.edges p) = 2.
Proof.
  destruct (legacy_processing
              [(lit "a.py", DependencyGraph.LImports [lit "os"; lit "b.py"]);
               (lit "version", DependencyGraph.LOther)])
    as (p & Hp & Hn & _ & He).
  - intros ns H. by vm_compute in H.
  - exists p. split; [exact Hp|]. rewrite He, Hn. by vm_compute.
Defined.

(** ** App.jsx: blanks around the URL *)

Section BlankFacts.

Lemma trimStart_app_blank (a s : jsstring) :
  Forall (λ c, is_ws c = true) a → trimStart (a ++ s) = trimStart s.
Proof. induction 1 as [|c a Hc _ IH]; simpl; [done|]. by rewrite Hc. Qed.

Lemma trimEnd_app_blank (s b : jsstring) :
  Forall (λ c, is_ws c = true) b → trimEnd (s ++ b) = trimEnd s.
Proof.
  intros Hb. unfold trimEnd. rewrite rev_app_distr, trimStart_app_blank; [done|].
  apply Forall_forall. intros c Hc. rewrite Forall_forall in Hb.
  apply Hb. apply list_elem_of_In. apply in_rev.
  by apply list_elem_of_In.
Qed.

Lemma trim_app_blank (s b : jsstring) :
  Forall (λ c, is_ws c = true) b → trim (s ++ b) = trim s.
Proof.
  intros Hb. induction s as [|c s IH].
  - cbn [app]. by rewrite trim_blank.
  - unfold trim in *. cbn [app trimStart].
    destruct (is_ws c); [done|].
    change (c :: s ++ b) with ((c :: s) ++ b).
    by rewrite trimEnd_app_blank.
Qed.

End BlankFacts.

(** X27: blanks before and after the URL make no difference to the
    validation, and the request carries the URL without them. *)
Theorem validateRepoFormat_ignores_blanks (a url b : jsstring) :
  Forall (λ c, is_ws c = true) a →
  Forall (λ c, is_ws c = true) b →
  trim (a ++ url ++ b) = trim url
  ∧ App.validateRepoFormat (a ++ url ++ b) = App.validateRepoFormat url.
Proof.
  intros Ha Hb. unfold App.validateRepoFormat.
  assert (Heq : trim (a ++ url ++ b) = trim url).
  { rewrite <-(trim_app_blank url b Hb). unfold trim.
    by rewrite trimStart_app_blank. }
  by rewrite Heq.
Qed.

Lemma validateRepoFormat_ignores_blanks_witness :
  App.validateRepoFormat (lit "  https://github.com/psf/requests ")
  = App.validateRepoFormat (lit "https://github.com/psf/requests").
Proof.
  apply (validateRepoFormat_ignores_blanks (lit "  ")
           (lit "https://github.com/psf/requests") (lit " ")).
  - vm_compute. repeat constructor.
  - vm_compute. repeat constructor.
Defined.

(** ** DependencyGraph.jsx: the type of a node *)

(** X28: a backend node without a [type] gets the extension of its file
    without the dot as its type, so a type that holds no dot: the empty
    string when the file has no extension, and otherwise what follows the
    last dot, which is not empty; and a node that has neither a type nor a
    file makes the computation throw. *)
Theorem node_type_is_extension (n : DependencyGraph.rawNode) :
  DependencyGraph.truthy (DependencyGraph.node_type n) = false →
  match DependencyGraph.file_of n with
  | Some f =>
      ∃ ty,
        DependencyGraph.make_node n
        = Some (DependencyGraph.Node (Some f) []
                  (Some (DependencyGraph.node_id n)) (Some ty))
        ∧ (chr "." ∉ ty)
        ∧ ((DependencyGraph.getFileExtension f = [] ∧ ty = [])
           ∨ (DependencyGraph.getFileExtension f = chr "." :: ty
              ∧ ty ≠ []))
  | None => DependencyGraph.make_node n = None
  end.
Proof.
  intros Hty. unfold DependencyGraph.make_node. rewrite Hty.
  destruct (DependencyGraph.file_of n) as [f|]; [|done].
  cbn [DependencyGraph.getFileExtension_of mbind option_bind].
  eexists. split; [done|].
  destruct (getFileExtension_shape f) as [->|(rest & -> & Hne & Hdot)].
  - split; [by intros ?%elem_of_nil|by left].
  - cbn [DependencyGraph.replace_dot]. rewrite N.eqb_refl.
    split; [done|by right].
Qed.

Lemma node_type_is_extension_witness :
  ∃ ty,
    DependencyGraph.make_node
      (DependencyGraph.RawNode (lit "1") (Some (lit "src/app.test.js")) None
         None)
    = Some (DependencyGraph.Node (Some (lit "src/app.test.js")) []
              (Some (lit "1")) (Some ty))
    ∧ (chr "." ∉ ty)
    ∧ ((DependencyGraph.getFileExtension (lit "src/app.test.js") = []
        ∧ ty = [])
       ∨ (DependencyGraph.getFileExtension (lit "src/app.test.js")
          = chr "." :: ty
          ∧ ty ≠ [])).
Proof.
  apply (node_type_is_extension
           (DependencyGraph.RawNode (lit "1") (Some (lit "src/app.test.js"))
              None None)).
  reflexivity.
Defined.
